(** * nansen-cli: the command-line layer of [src/cli.js]

    A shallow embedding of the argument parser, the sort and pagination
    resolution, the table formatter, the [login] and [logout] handlers,
    the four family handlers, the command router and the hidden prompt of
    [src/cli.js], together with the properties the specification states
    about them.

    The first module, [JS], holds the part of the JavaScript platform the
    program relies on (numbers, strings, JSON); the second, [Cli], follows
    [src/cli.js] function by function and keeps its names. *)

From Stdlib Require Import ZArith Lia Ascii.
From Stdlib Require Import Floats.SpecFloat.
From stdpp Require Import base gmap strings list.

Set Warnings "-register-all".

Module JS.

(** ** Numbers

    A JavaScript number is an IEEE 754 binary64 value.  [spec_float] is the
    Standard Library's executable specification of such values; every
    operation below is exact integer arithmetic on mantissa and exponent. *)

Definition number := spec_float.
Definition prec : Z := 53.
Definition emax : Z := 1024.

(** The number denoted by an integer literal. *)
Definition num_of_Z (z : Z) : number := binary_normalize prec emax z 0 false.

(** [x / y]. *)
Definition num_div (x y : number) : number := SFdiv prec emax x y.

(** [x >= y]; false as soon as one side is NaN. *)
Definition num_geb (x y : number) : bool := SFleb y x.

(** [Math.abs]. *)
Definition Math_abs (x : number) : number := SFabs x.

(** The number nearest to [s * 10^p] (ties to even), for [0 <= s]: what a
    decimal literal denotes, in the source text or in JSON. *)
Definition num_of_decimal (neg : bool) (s p : Z) : number :=
  match s with
  | Zpos _ =>
      if (0 <=? p)%Z then
        binary_normalize prec emax (if neg then - (s * 10 ^ p) else s * 10 ^ p)%Z 0 false
      else
        let '(q, e, l) := SFdiv_core_binary prec emax s 0 (10 ^ (- p)) 0 in
        binary_round_aux prec emax neg q e l
  | _ => S754_zero neg
  end.

(** [Number.isInteger]. *)
Definition Number_isInteger (x : number) : bool :=
  match x with
  | S754_zero _ => true
  | S754_finite _ m e =>
      (0 <=? e)%Z || (Z.pos m mod 2 ^ (- e) =? 0)%Z
  | _ => false
  end.

(** The mathematical value of a number that [Number_isInteger] accepts. *)
Definition Z_of_num (x : number) : Z :=
  match x with
  | S754_finite s m e =>
      let a := if (0 <=? e)%Z then (Z.pos m * 2 ^ e)%Z else (Z.pos m / 2 ^ (- e))%Z in
      if s then (- a)%Z else a
  | _ => 0%Z
  end.

(** Truthiness of a number: neither zero nor NaN. *)
Definition num_truthy (x : number) : bool :=
  match x with
  | S754_zero _ | S754_nan => false
  | _ => true
  end.

(** *** Decimal rendering *)

Definition digit_char (d : Z) : ascii :=
  Ascii.ascii_of_N (48 + Z.to_N d).

Fixpoint decimal_go (fuel : nat) (n : Z) (acc : string) : string :=
  match fuel with
  | O => acc
  | S fuel' =>
      if (n <? 10)%Z then String (digit_char n) acc
      else decimal_go fuel' (n / 10)%Z (String (digit_char (n mod 10)) acc)
  end.

(** The decimal digits of [n], for [0 <= n]. *)
Definition decimal (n : Z) : string :=
  decimal_go (S (Z.to_nat (Z.log2 n))) n EmptyString.

Fixpoint zeros (n : nat) : string :=
  match n with
  | O => EmptyString
  | S n' => String "0"%char (zeros n')
  end.

(** [take_str n s] and [drop_str n s]: the first [n] bytes of [s] and
    the rest.  They are [s.slice(0, n)] and [s.slice(n)] where they are
    used: on strings of digits, and to drop a prefix of ASCII
    characters. *)
Fixpoint take_str (n : nat) (s : string) : string :=
  match n, s with
  | S n', String c s' => String c (take_str n' s')
  | _, _ => EmptyString
  end.

Fixpoint drop_str (n : nat) (s : string) : string :=
  match n, s with
  | S n', String _ s' => drop_str n' s'
  | _, _ => s
  end.

(** Comparison of [m * 2^e] with [s * 10^p], all of [m], [s] positive. *)
Definition scaled_left (m e p : Z) : Z :=
  (m * 2 ^ Z.max e 0 * 10 ^ Z.max (- p) 0)%Z.
Definition scaled_right (e p : Z) : Z :=
  (10 ^ Z.max p 0 * 2 ^ Z.max (- e) 0)%Z.

Definition cmp_pow10 (m e n : Z) : comparison :=
  (scaled_left m e n ?= scaled_right e n)%Z.

(** The decimal exponent [n] of [m * 2^e]: [10^(n-1) <= m * 2^e < 10^n].
    The search starts from an estimate by the binary logarithm. *)
Fixpoint dec_exponent_go (fuel : nat) (m e n : Z) : Z :=
  match fuel with
  | O => n
  | S fuel' =>
      match cmp_pow10 m e (n - 1) with
      | Lt => dec_exponent_go fuel' m e (n - 1)%Z
      | _ =>
          match cmp_pow10 m e n with
          | Lt => n
          | _ => dec_exponent_go fuel' m e (n + 1)%Z
          end
      end
  end.

Definition dec_exponent (m e : Z) : Z :=
  dec_exponent_go 8 m e ((Z.log2 m + e) * 30103 / 100000 + 1)%Z.

(** Same finite value (mantissa and exponent), for the round-trip test. *)
Definition num_same (x y : number) : bool :=
  match x, y with
  | S754_finite _ m1 e1, S754_finite _ m2 e2 => (Z.pos m1 =? Z.pos m2)%Z && (e1 =? e2)%Z
  | _, _ => false
  end.

(** [Number::toString], step 5: the shortest digit string [s] of [k]
    digits with [s * 10^(n-k)] reading back as the number; among several
    the closest one, the even one on a tie.  Returns [(s, n)]. *)
Fixpoint shortest_go (fuel : nat) (k : Z) (m e n0 : Z) : Z * Z :=
  let p := (n0 - k)%Z in
  let l := scaled_left m e p in
  let r := scaled_right e p in
  let lo := (l / r)%Z in
  let hi := (lo + 1)%Z in
  let x := S754_finite false (Z.to_pos m) e in
  let ok_lo := num_same (num_of_decimal false lo p) x in
  let ok_hi := num_same (num_of_decimal false hi p) x in
  let pick (s : Z) := if (s =? 10 ^ k)%Z then (1%Z, (n0 + 1)%Z) else (s, n0) in
  match fuel with
  | O => pick (if (2 * (l mod r) <? r)%Z then lo else hi)
  | S fuel' =>
      if ok_lo && ok_hi then
        match (2 * (l mod r) ?= r)%Z with
        | Lt => pick lo
        | Gt => pick hi
        | Eq => pick (if Z.even lo then lo else hi)
        end
      else if ok_lo then pick lo
      else if ok_hi then pick hi
      else shortest_go fuel' (k + 1)%Z m e n0
  end.

Definition shortest_digits (m e : Z) : Z * Z :=
  shortest_go 16 1 m e (dec_exponent m e).

(** [Number::toString], steps 6 to 10. *)
Definition render_digits (ds : string) (n : Z) : string :=
  let k := Z.of_nat (String.length ds) in
  if (k <=? n)%Z && (n <=? 21)%Z then ds +:+ zeros (Z.to_nat (n - k))
  else if (0 <? n)%Z && (n <=? 21)%Z then
    take_str (Z.to_nat n) ds +:+ "." +:+ drop_str (Z.to_nat n) ds
  else if (-6 <? n)%Z && (n <=? 0)%Z then
    "0." +:+ zeros (Z.to_nat (- n)) +:+ ds
  else
    let ex := (n - 1)%Z in
    let tail := "e" +:+ (if (ex <? 0)%Z then "-" else "+") +:+ decimal (Z.abs ex) in
    if (k =? 1)%Z then ds +:+ tail
    else take_str 1 ds +:+ "." +:+ drop_str 1 ds +:+ tail.

Definition sign_str (s : bool) : string := if s then "-" else EmptyString.

(** [Number::toString(x)] in radix 10, as [String(x)], [x.toString()] and
    [JSON.stringify] use it. *)
Definition Number_toString (x : number) : string :=
  match x with
  | S754_nan => "NaN"
  | S754_zero _ => "0"
  | S754_infinity s => sign_str s +:+ "Infinity"
  | S754_finite s m e =>
      let '(d, n) := shortest_digits (Z.pos m) e in
      sign_str s +:+ render_digits (decimal d) n
  end.

(** [Number.prototype.toFixed(f)], for [0 <= f]: the integer [n] nearest to
    [x * 10^f], the larger one on a tie, printed with [f] decimals; values
    of magnitude [1e21] and above fall back to [Number_toString]. *)
Definition fixed_string (n : Z) (f : nat) : string :=
  let ds := decimal n in
  match f with
  | O => ds
  | _ =>
      let k := String.length ds in
      let ds' := if (k <=? f)%nat then zeros (S f - k) +:+ ds else ds in
      let k' := String.length ds' in
      take_str (k' - f) ds' +:+ "." +:+ drop_str (k' - f) ds'
  end.

Definition Number_toFixed (f : nat) (x : number) : string :=
  match x with
  | S754_nan => "NaN"
  | S754_infinity s => sign_str s +:+ "Infinity"
  | S754_zero _ => fixed_string 0 f
  | S754_finite s m e =>
      match cmp_pow10 (Z.pos m) e 21 with
      | Lt =>
          let num := (Z.pos m * 2 ^ Z.max e 0 * 10 ^ Z.of_nat f)%Z in
          let den := (2 ^ Z.max (- e) 0)%Z in
          sign_str s +:+ fixed_string ((2 * num + den) / (2 * den))%Z f
      | _ => Number_toString x
      end
  end.

(** ** Strings

    A string is the sequence of the UTF-8 bytes of its text.  Lengths and
    positions count UTF-16 code units, as the source does: a byte that
    continues a character counts nothing, the first byte of a character
    of four bytes counts two (a surrogate pair), any other first byte one.
    A surrogate on its own, which only a cut through a pair leaves, is
    held as the three bytes of its generalized encoding. *)

Definition char_code (c : ascii) : Z := Z.of_N (Ascii.N_of_ascii c).

Definition byte (n : Z) : ascii := Ascii.ascii_of_N (Z.to_N n).

Definition is_continuation (c : ascii) : bool :=
  ((128 <=? char_code c) && (char_code c <? 192))%Z.

Definition is_lead4 (c : ascii) : bool := (240 <=? char_code c)%Z.

Definition code_units (c : ascii) : nat :=
  if is_continuation c then 0%nat else if is_lead4 c then 2%nat else 1%nat.

(** [s.length] *)
Fixpoint str_length (s : string) : nat :=
  match s with
  | EmptyString => 0%nat
  | String c s' => (code_units c + str_length s')%nat
  end.

(** The bytes that continue the character begun before [s]. *)
Fixpoint continuation (s : string) : string :=
  match s with
  | String c s' => if is_continuation c then String c (continuation s') else EmptyString
  | EmptyString => EmptyString
  end.

(** The code point of the character of four bytes that starts with [a]
    and continues with [rest]. *)
Definition code_point4 (a : ascii) (rest : string) : Z :=
  match rest with
  | String b (String c (String d _)) =>
      ((char_code a mod 8) * 262144 + (char_code b mod 64) * 4096
       + (char_code c mod 64) * 64 + char_code d mod 64)%Z
  | _ => 65536%Z
  end.

(** The surrogate [u], from U+D800 to U+DFFF, in three bytes. *)
Definition surrogate (u : Z) : string :=
  String (byte 237)
    (String (byte (128 + (u / 64) mod 64)) (String (byte (128 + u mod 64)) EmptyString)).

Definition high_surrogate (cp : Z) : string :=
  surrogate (55296 + ((cp - 65536) / 1024) mod 1024).

Definition low_surrogate (cp : Z) : string :=
  surrogate (56320 + (cp - 65536) mod 1024).

(** [s.slice(0, n)] for [0 <= n]: a cut between the two code units of a
    pair leaves the first of them. *)
Fixpoint slice_to (n : nat) (s : string) : string :=
  match s with
  | EmptyString => EmptyString
  | String a s' =>
      if is_continuation a then String a (slice_to n s')
      else
        match n with
        | O => EmptyString
        | S n' =>
            if is_lead4 a then
              match n' with
              | O => high_surrogate (code_point4 a (continuation s'))
              | S n'' => String a (slice_to n'' s')
              end
            else String a (slice_to n' s')
        end
  end.

(** [s[i]]: the code unit at position [i], as a string. *)
Fixpoint char_at (s : string) (i : nat) : option string :=
  match s with
  | EmptyString => None
  | String a s' =>
      if is_continuation a then char_at s' i
      else if is_lead4 a then
        match i with
        | O => Some (high_surrogate (code_point4 a (continuation s')))
        | S O => Some (low_surrogate (code_point4 a (continuation s')))
        | S (S i') => char_at s' i'
        end
      else
        match i with
        | O => Some (String a (continuation s'))
        | S i' => char_at s' i'
        end
  end.

(** [s.startsWith(pre)] *)
Fixpoint startsWith (s pre : string) : bool :=
  match pre, s with
  | EmptyString, _ => true
  | String a pre', String b s' => Ascii.eqb a b && startsWith s' pre'
  | String _ _, EmptyString => false
  end.

Fixpoint repeat_str (s : string) (n : nat) : string :=
  match n with
  | O => EmptyString
  | S n' => s +:+ repeat_str s n'
  end.

(** [s.padEnd(w)]. *)
Definition padEnd (s : string) (w : nat) : string :=
  s +:+ repeat_str " " (w - str_length s).

(** [l.join(sep)] on strings. *)
Definition join (sep : string) (l : list string) : string := String.concat sep l.

(** [s.split(sep)] for a separator of one character. *)
Fixpoint split (sep : ascii) (s : string) : list string :=
  match s with
  | EmptyString => [EmptyString]
  | String c s' =>
      if Ascii.eqb c sep then EmptyString :: split sep s'
      else
        match split sep s' with
        | x :: xs => String c x :: xs
        | [] => [String c EmptyString]
        end
  end.

Definition upper_char (c : ascii) : ascii :=
  let n := Ascii.N_of_ascii c in
  if ((97 <=? n) && (n <=? 122))%N then Ascii.ascii_of_N (n - 32) else c.

(** [s.toUpperCase()] on ASCII text.  Letters outside ASCII are left as
    they are, where the source maps them by the case tables of Unicode:
    the statements about this function are about ASCII strings. *)
Fixpoint toUpperCase (s : string) : string :=
  match s with
  | EmptyString => EmptyString
  | String c s' => String (upper_char c) (toUpperCase s')
  end.

(** [s.includes(sub)] *)
Fixpoint includes (s sub : string) : bool :=
  startsWith s sub
  || match s with
     | EmptyString => false
     | String _ s' => includes s' sub
     end.

Definition is_empty (s : string) : bool :=
  match s with
  | EmptyString => true
  | _ => false
  end.

(** ** Values *)

Inductive value : Type :=
  | VUndefined
  | VNull
  | VBool (b : bool)
  | VNum (x : number)
  | VStr (s : string)
  | VArr (elems : list value)
  | VObj (props : list (string * value)).

Definition VTrue : value := VBool true.
Definition VInt (z : Z) : value := VNum (num_of_Z z).

(** What [if (v)], [v || w], [v ? a : b] and [!v] test. *)
Definition truthy (v : value) : bool :=
  match v with
  | VUndefined | VNull => false
  | VBool b => b
  | VNum x => num_truthy x
  | VStr s => negb (is_empty s)
  | VArr _ | VObj _ => true
  end.

(** [v || w]. *)
Definition or_else (v w : value) : value := if truthy v then v else w.

Definition Array_isArray (v : value) : bool :=
  match v with
  | VArr _ => true
  | _ => false
  end.

(** [typeof v === 'object'] holds of [null], arrays and objects. *)
Definition typeof_object (v : value) : bool :=
  match v with
  | VNull | VArr _ | VObj _ => true
  | _ => false
  end.

(** [typeof v] for a number, a string or a boolean. *)
Definition typeof_primitive (v : value) : string :=
  match v with
  | VNum _ => "number"
  | VStr _ => "string"
  | VBool _ => "boolean"
  | VUndefined => "undefined"
  | VNull | VArr _ | VObj _ => "object"
  end.

(** [String(v)], also what a template literal interpolates. *)
Fixpoint ToString (v : value) : string :=
  match v with
  | VUndefined => "undefined"
  | VNull => "null"
  | VBool b => if b then "true" else "false"
  | VNum x => Number_toString x
  | VStr s => s
  | VArr l =>
      join ","
        ((fix go (l : list value) : list string :=
            match l with
            | [] => []
            | VUndefined :: l' | VNull :: l' => EmptyString :: go l'
            | e :: l' => ToString e :: go l'
            end) l)
  | VObj _ => "[object Object]"
  end.

(** *** Thrown values

    What the code below can throw or an API call can reject with: an object
    read through its [message], [code], [status] and [data] fields. *)
Record error : Type := Error {
  message : value;
  code : value;
  status : value;
  data : value
}.

Definition TypeError (msg : string) : error :=
  Error (VStr msg) VUndefined VUndefined VUndefined.

Inductive outcome (A : Type) : Type :=
  | Ok (a : A)
  | Throw (e : error).
Arguments Ok {A} a.
Arguments Throw {A} e.

(** *** Objects: own properties in enumeration order

    An object is the list of its own properties in the order [Object.keys]
    and [JSON.stringify] see them: array indices first, ascending, then the
    other keys in order of creation.  Members inherited from
    [Object.prototype] are not part of the model: a lookup of one of the
    names below finds the inherited member in the source, and the
    statements about lookups by a name that the user chooses set these
    names aside. *)


Fixpoint all_digits (s : string) : bool :=
  match s with
  | EmptyString => true
  | String c s' =>
      let n := Ascii.N_of_ascii c in
      ((48 <=? n) && (n <=? 57))%N && all_digits s'
  end.

Fixpoint digits_value (acc : Z) (s : string) : Z :=
  match s with
  | EmptyString => acc
  | String c s' => digits_value (10 * acc + (Z.of_N (Ascii.N_of_ascii c) - 48))%Z s'
  end.

(** The array index a key denotes, if any: canonical decimal below
    [2^32 - 1]. *)
Definition array_index (k : string) : option Z :=
  match k with
  | EmptyString => None
  | String c rest =>
      if all_digits k && (negb (Ascii.eqb c "0") || is_empty rest) then
        let i := digits_value 0 k in
        if (i <? 4294967295)%Z then Some i else None
      else None
  end.

Fixpoint obj_get (ps : list (string * value)) (k : string) : value :=
  match ps with
  | [] => VUndefined
  | (k', v) :: ps' => if String.eqb k' k then v else obj_get ps' k
  end.

Fixpoint obj_has (ps : list (string * value)) (k : string) : bool :=
  match ps with
  | [] => false
  | (k', _) :: ps' => String.eqb k' k || obj_has ps' k
  end.

Fixpoint obj_replace (ps : list (string * value)) (k : string) (v : value)
  : list (string * value) :=
  match ps with
  | [] => []
  | (k', v') :: ps' =>
      if String.eqb k' k then (k', v) :: ps' else (k', v') :: obj_replace ps' k v
  end.

Fixpoint obj_insert_index (ps : list (string * value)) (i : Z) (k : string) (v : value)
  : list (string * value) :=
  match ps with
  | [] => [(k, v)]
  | (k', v') :: ps' =>
      match array_index k' with
      | Some j =>
          if (j <? i)%Z then (k', v') :: obj_insert_index ps' i k v
          else (k, v) :: ps
      | None => (k, v) :: ps
      end
  end.

(** [o[k] = v] on an object. *)
Definition obj_set (ps : list (string * value)) (k : string) (v : value)
  : list (string * value) :=
  if obj_has ps k then obj_replace ps k v
  else
    match array_index k with
    | Some i => obj_insert_index ps i k v
    | None => ps ++ [(k, v)]
    end.

Fixpoint index_keys (i : nat) (n : nat) : list string :=
  match n with
  | O => []
  | S n' => decimal (Z.of_nat i) :: index_keys (S i) n'
  end.

(** [Object.keys(v)]: throws on [undefined] and [null]. *)
Definition Object_keys (v : value) : outcome (list string) :=
  match v with
  | VUndefined | VNull => Throw (TypeError "Cannot convert undefined or null to object")
  | VObj ps => Ok (map fst ps)
  | VArr l => Ok (index_keys 0 (length l))
  | VStr s => Ok (index_keys 0 (str_length s))
  | VBool _ | VNum _ => Ok []
  end.

(** [v[k]] for [v] neither [undefined] nor [null]: own properties, the
    elements and [length] of arrays and strings. *)
Definition get_prop (v : value) (k : string) : value :=
  match v with
  | VObj ps => obj_get ps k
  | VArr l =>
      if String.eqb k "length" then VInt (Z.of_nat (length l))
      else
        match array_index k with
        | Some i => nth (Z.to_nat i) l VUndefined
        | None => VUndefined
        end
  | VStr s =>
      if String.eqb k "length" then VInt (Z.of_nat (str_length s))
      else
        match array_index k with
        | Some i =>
            match char_at s (Z.to_nat i) with
            | Some c => VStr c
            | None => VUndefined
            end
        | None => VUndefined
        end
  | _ => VUndefined
  end.

(** [v?.k]: [undefined] when [v] is [undefined] or [null]. *)
Definition get_opt (v : value) (k : string) : value :=
  match v with
  | VUndefined | VNull => VUndefined
  | _ => get_prop v k
  end.

(** ** [trim]

    [s.trim()] removes the white space and the line terminators at both
    ends of [s].  On the UTF-8 bytes of a string these are the six of
    ASCII (tab, line feed, vertical tab, form feed, carriage return,
    space), the no-break space U+00A0 (two bytes), and U+1680, U+2000 to
    U+200A, U+2028, U+2029, U+202F, U+205F, U+3000 and U+FEFF (three bytes
    each). *)

Definition is_space (c : ascii) : bool :=
  let n := char_code c in
  ((9 <=? n) && (n <=? 13) || (n =? 32))%Z.

Definition is_space2 (a b : ascii) : bool :=
  ((char_code a =? 194) && (char_code b =? 160))%Z.

Definition is_space3 (a b c : ascii) : bool :=
  let x := char_code a in
  let y := char_code b in
  let z := char_code c in
  (((x =? 225) && (y =? 154) && (z =? 128))
   || ((x =? 226) && (y =? 128)
       && (((128 <=? z) && (z <=? 138)) || (z =? 168) || (z =? 169) || (z =? 175)))
   || ((x =? 226) && (y =? 129) && (z =? 159))
   || ((x =? 227) && (y =? 128) && (z =? 128))
   || ((x =? 239) && (y =? 187) && (z =? 191)))%Z.

(** Whether [s] starts with a white space or a line terminator. *)
Definition ws_head (s : string) : bool :=
  match s with
  | String a s1 =>
      is_space a
      || match s1 with
         | String b s2 =>
             is_space2 a b
             || match s2 with
                | String c _ => is_space3 a b c
                | EmptyString => false
                end
         | EmptyString => false
         end
  | EmptyString => false
  end.

(** [s.trimStart()] *)
Fixpoint trimStart (s : string) : string :=
  match s with
  | String a s1 =>
      if is_space a then trimStart s1
      else
        match s1 with
        | String b s2 =>
            if is_space2 a b then trimStart s2
            else
              match s2 with
              | String c s3 => if is_space3 a b c then trimStart s3 else s
              | EmptyString => s
              end
        | EmptyString => s
        end
  | EmptyString => s
  end.

(** [s.trimEnd()]: the string is cut where what remains is white space
    only. *)
Fixpoint trimEnd (s : string) : string :=
  match s with
  | EmptyString => EmptyString
  | String a s' => if is_empty (trimStart s) then EmptyString else String a (trimEnd s')
  end.

Definition trim (s : string) : string := trimEnd (trimStart s).

(** ** [parseInt]

    [parseInt(v)] with no radix: the longest prefix of [String(v)], after
    leading white space and a sign, that reads as an integer (decimal, or
    hexadecimal after [0x]); NaN when there is none. *)

Definition digit_of (radix : Z) (c : ascii) : option Z :=
  let n := char_code c in
  let d :=
    if ((48 <=? n) && (n <=? 57))%Z then (n - 48)%Z
    else if ((97 <=? n) && (n <=? 102))%Z then (n - 87)%Z
    else if ((65 <=? n) && (n <=? 70))%Z then (n - 55)%Z
    else 16%Z in
  if (d <? radix)%Z then Some d else None.

(** The digits of a prefix, most significant first, as a number in the
    given radix; [None] when the prefix is empty. *)
Fixpoint read_digits (radix : Z) (s : string) (acc : option Z) : option Z :=
  match s with
  | EmptyString => acc
  | String c s' =>
      match digit_of radix c with
      | Some d => read_digits radix s' (Some (radix * default 0%Z acc + d)%Z)
      | None => acc
      end
  end.

Definition parseInt (v : value) : number :=
  let s := trimStart (ToString v) in
  let '(neg, s) :=
    match s with
    | String c s' =>
        if Ascii.eqb c "-" then (true, s')
        else if Ascii.eqb c "+" then (false, s')
        else (false, s)
    | EmptyString => (false, s)
    end in
  let '(radix, s) :=
    if startsWith s "0x" || startsWith s "0X" then (16%Z, drop_str 2 s) else (10%Z, s) in
  match read_digits radix s None with
  | Some n => num_of_decimal neg n 0
  | None => S754_nan
  end.

(** ** JSON *)

Definition quote_char : ascii := "034"%char.
Definition backslash : ascii := "092"%char.

Definition is_json_ws (c : ascii) : bool :=
  let n := char_code c in
  ((n =? 32) || (n =? 9) || (n =? 10) || (n =? 13))%Z.

Fixpoint skip_ws (s : string) : string :=
  match s with
  | String c s' => if is_json_ws c then skip_ws s' else s
  | EmptyString => s
  end.

(** *** String literals

    The body of a literal is first read as a sequence of bytes and of
    escaped UTF-16 code units, then written down in UTF-8 (a surrogate pair
    as one character). *)

Inductive code_unit : Type :=
  | Byte (c : ascii)
  | Unit (u : Z).

Definition hex4 (a b c d : ascii) : option Z :=
  match digit_of 16 a, digit_of 16 b, digit_of 16 c, digit_of 16 d with
  | Some x, Some y, Some z, Some w => Some (((x * 16 + y) * 16 + z) * 16 + w)%Z
  | _, _, _, _ => None
  end.

Definition simple_escape (c : ascii) : option ascii :=
  if Ascii.eqb c quote_char then Some quote_char
  else if Ascii.eqb c backslash then Some backslash
  else if Ascii.eqb c "/" then Some "/"%char
  else if Ascii.eqb c "b" then Some "008"%char
  else if Ascii.eqb c "f" then Some "012"%char
  else if Ascii.eqb c "n" then Some "010"%char
  else if Ascii.eqb c "r" then Some "013"%char
  else if Ascii.eqb c "t" then Some "009"%char
  else None.

(** After the opening quote: the decoded units and what follows the
    closing quote. *)
Fixpoint string_body (s : string) : option (list code_unit * string) :=
  match s with
  | EmptyString => None
  | String c r =>
      if Ascii.eqb c quote_char then Some ([], r)
      else if Ascii.eqb c backslash then
        match r with
        | String e r1 =>
            if Ascii.eqb e "u" then
              match r1 with
              | String h1 (String h2 (String h3 (String h4 r2))) =>
                  match hex4 h1 h2 h3 h4 with
                  | Some u =>
                      match string_body r2 with
                      | Some (us, rest) => Some (Unit u :: us, rest)
                      | None => None
                      end
                  | None => None
                  end
              | _ => None
              end
            else
              match simple_escape e with
              | Some x =>
                  match string_body r1 with
                  | Some (us, rest) => Some (Byte x :: us, rest)
                  | None => None
                  end
              | None => None
              end
        | EmptyString => None
        end
      else if (char_code c <? 32)%Z then None
      else
        match string_body r with
        | Some (us, rest) => Some (Byte c :: us, rest)
        | None => None
        end
  end.

(** The UTF-8 bytes of a code point. *)
Definition utf8 (cp : Z) : string :=
  if (cp <? 128)%Z then String (byte cp) EmptyString
  else if (cp <? 2048)%Z then
    String (byte (192 + cp / 64)) (String (byte (128 + cp mod 64)) EmptyString)
  else if (cp <? 65536)%Z then
    String (byte (224 + cp / 4096))
      (String (byte (128 + cp / 64 mod 64))
         (String (byte (128 + cp mod 64)) EmptyString))
  else
    String (byte (240 + cp / 262144))
      (String (byte (128 + cp / 4096 mod 64))
         (String (byte (128 + cp / 64 mod 64))
            (String (byte (128 + cp mod 64)) EmptyString))).

Definition is_high (u : Z) : bool := ((55296 <=? u) && (u <? 56320))%Z.
Definition is_low (u : Z) : bool := ((56320 <=? u) && (u <? 57344))%Z.

Fixpoint encode_units (l : list code_unit) : string :=
  match l with
  | [] => EmptyString
  | Byte c :: l' => String c (encode_units l')
  | Unit hi :: l' =>
      match l' with
      | Unit lo :: l'' =>
          if is_high hi && is_low lo then
            utf8 (65536 + (hi - 55296) * 1024 + (lo - 56320)) +:+ encode_units l''
          else utf8 hi +:+ encode_units l'
      | _ => utf8 hi +:+ encode_units l'
      end
  end.

Definition parse_string (s : string) : option (string * string) :=
  match string_body s with
  | Some (us, rest) => Some (encode_units us, rest)
  | None => None
  end.

(** *** Number literals *)

Definition is_digit (c : ascii) : bool :=
  let n := char_code c in ((48 <=? n) && (n <=? 57))%Z.

Fixpoint take_digits (s : string) : string * string :=
  match s with
  | String c s' =>
      if is_digit c then let '(ds, rest) := take_digits s' in (String c ds, rest)
      else (EmptyString, s)
  | EmptyString => (EmptyString, s)
  end.

Definition read_sign (s : string) : bool * string :=
  match s with
  | String c s' => if Ascii.eqb c "-" then (true, s') else (false, s)
  | EmptyString => (false, s)
  end.

(** [0], or a digit from 1 to 9 followed by digits. *)
Definition read_int (s : string) : option (string * string) :=
  match s with
  | String c s' =>
      if Ascii.eqb c "0" then Some ("0", s')
      else if is_digit c then Some (take_digits s)
      else None
  | EmptyString => None
  end.

(** A point followed by at least one digit, or nothing. *)
Definition read_frac (s : string) : option (string * string) :=
  match s with
  | String c s' =>
      if Ascii.eqb c "." then
        let '(fs, rest) := take_digits s' in
        if is_empty fs then None else Some (fs, rest)
      else Some (EmptyString, s)
  | EmptyString => Some (EmptyString, s)
  end.

Definition read_exp_sign (s : string) : bool * string :=
  match s with
  | String d t =>
      if Ascii.eqb d "-" then (true, t)
      else if Ascii.eqb d "+" then (false, t)
      else (false, s)
  | EmptyString => (false, s)
  end.

(** [e] or [E], a sign or none, and at least one digit; or nothing. *)
Definition read_exp (s : string) : option (Z * string) :=
  match s with
  | String c s' =>
      if Ascii.eqb c "e" || Ascii.eqb c "E" then
        let '(eneg, s'') := read_exp_sign s' in
        let '(es, rest) := take_digits s'' in
        if is_empty es then None
        else Some (if eneg then (- digits_value 0 es)%Z else digits_value 0 es, rest)
      else Some (0%Z, s)
  | EmptyString => Some (0%Z, s)
  end.

Definition parse_number (s : string) : option (number * string) :=
  let '(neg, s1) := read_sign s in
  match read_int s1 with
  | None => None
  | Some (ds, s2) =>
      match read_frac s2 with
      | None => None
      | Some (fs, s3) =>
          match read_exp s3 with
          | None => None
          | Some (ex, rest) =>
              Some (num_of_decimal neg (digits_value 0 (ds +:+ fs))
                      (ex - Z.of_nat (String.length fs)), rest)
          end
      end
  end.

(** *** Values *)

Fixpoint parse_value (fuel : nat) (s : string) : option (value * string) :=
  match fuel with
  | O => None
  | S fuel' =>
      match skip_ws s with
      | EmptyString => None
      | String c r as s0 =>
          if Ascii.eqb c "[" then
            match skip_ws r with
            | String d r' =>
                if Ascii.eqb d "]" then Some (VArr [], r') else parse_elems fuel' r []
            | EmptyString => None
            end
          else if Ascii.eqb c "{" then
            match skip_ws r with
            | String d r' =>
                if Ascii.eqb d "}" then Some (VObj [], r') else parse_members fuel' r []
            | EmptyString => None
            end
          else if Ascii.eqb c quote_char then
            match parse_string r with
            | Some (str, rest) => Some (VStr str, rest)
            | None => None
            end
          else if startsWith s0 "true" then Some (VBool true, drop_str 4 s0)
          else if startsWith s0 "false" then Some (VBool false, drop_str 5 s0)
          else if startsWith s0 "null" then Some (VNull, drop_str 4 s0)
          else
            match parse_number s0 with
            | Some (x, rest) => Some (VNum x, rest)
            | None => None
            end
      end
  end
with parse_elems (fuel : nat) (s : string) (acc : list value) : option (value * string) :=
  match fuel with
  | O => None
  | S fuel' =>
      match parse_value fuel' s with
      | Some (v, r) =>
          match skip_ws r with
          | String c r' =>
              if Ascii.eqb c "," then parse_elems fuel' r' (acc ++ [v])
              else if Ascii.eqb c "]" then Some (VArr (acc ++ [v]), r')
              else None
          | EmptyString => None
          end
      | None => None
      end
  end
with parse_members (fuel : nat) (s : string) (acc : list (string * value))
  : option (value * string) :=
  match fuel with
  | O => None
  | S fuel' =>
      match skip_ws s with
      | String q r =>
          if Ascii.eqb q quote_char then
            match parse_string r with
            | Some (k, r1) =>
                match skip_ws r1 with
                | String c r2 =>
                    if Ascii.eqb c ":" then
                      match parse_value fuel' r2 with
                      | Some (v, r3) =>
                          match skip_ws r3 with
                          | String d r4 =>
                              if Ascii.eqb d "," then parse_members fuel' r4 (obj_set acc k v)
                              else if Ascii.eqb d "}" then Some (VObj (obj_set acc k v), r4)
                              else None
                          | EmptyString => None
                          end
                      | None => None
                      end
                    else None
                | EmptyString => None
                end
            | None => None
            end
          else None
      | EmptyString => None
      end
  end.

(** [JSON.parse(s)]; [None] stands for the [SyntaxError] it throws.  Every
    step of the descent consumes a character, so twice the length of the
    text bounds its depth. *)
Definition JSON_parse (s : string) : option value :=
  match parse_value (2 * String.length s + 2) s with
  | Some (v, rest) => if is_empty (skip_ws rest) then Some v else None
  | None => None
  end.

(** *** [JSON.stringify] *)

Definition hex_digit (d : Z) : ascii :=
  if (d <? 10)%Z then byte (48 + d) else byte (87 + d).

Definition escape_char (c : ascii) : string :=
  let n := char_code c in
  if Ascii.eqb c quote_char then String backslash (String quote_char EmptyString)
  else if Ascii.eqb c backslash then String backslash (String backslash EmptyString)
  else if (n =? 8)%Z then String backslash "b"
  else if (n =? 12)%Z then String backslash "f"
  else if (n =? 10)%Z then String backslash "n"
  else if (n =? 13)%Z then String backslash "r"
  else if (n =? 9)%Z then String backslash "t"
  else if (n <? 32)%Z then
    String backslash ("u00" +:+ String (hex_digit (n / 16)) (String (hex_digit (n mod 16)) EmptyString))
  else String c EmptyString.

Fixpoint escape_body (s : string) : string :=
  match s with
  | EmptyString => EmptyString
  | String c s' => escape_char c +:+ escape_body s'
  end.

Definition quote (s : string) : string :=
  String quote_char (escape_body s +:+ String quote_char EmptyString).

Definition newline : string := String "010"%char EmptyString.

Definition wrap (opening closing gap cur : string) (items : list string) : string :=
  match items with
  | [] => opening +:+ closing
  | _ =>
      if is_empty gap then opening +:+ join "," items +:+ closing
      else
        opening +:+ newline +:+ cur +:+ gap
        +:+ join ("," +:+ newline +:+ cur +:+ gap) items
        +:+ newline +:+ cur +:+ closing
  end.

(** Serialisation at indentation [cur] with indentation step [gap];
    [None] is the [undefined] that [JSON.stringify(undefined)] returns. *)
Fixpoint serialize (gap cur : string) (v : value) : option string :=
  match v with
  | VUndefined => None
  | VNull => Some "null"
  | VBool b => Some (if b then "true" else "false")
  | VNum x =>
      Some match x with
           | S754_nan | S754_infinity _ => "null"
           | _ => Number_toString x
           end
  | VStr s => Some (quote s)
  | VArr l =>
      Some (wrap "[" "]" gap cur
        ((fix go (l : list value) : list string :=
            match l with
            | [] => []
            | e :: l' => default "null" (serialize gap (cur +:+ gap) e) :: go l'
            end) l))
  | VObj ps =>
      Some (wrap "{" "}" gap cur
        ((fix go (ps : list (string * value)) : list string :=
            match ps with
            | [] => []
            | (k, e) :: ps' =>
                match serialize gap (cur +:+ gap) e with
                | Some t =>
                    (quote k +:+ ":" +:+ (if is_empty gap then EmptyString else " ") +:+ t)
                    :: go ps'
                | None => go ps'
                end
            end) ps))
  end.

(** [JSON.stringify(v)] and [JSON.stringify(v, null, 2)]. *)
Definition JSON_stringify (v : value) : option string := serialize EmptyString EmptyString v.
Definition JSON_stringify_pretty (v : value) : option string := serialize "  " EmptyString v.

End JS.

Module Cli.
Import JS.

(** ** [parseArgs] *)

(** The result object [{ _: [], flags: {}, options: {} }]; [positional] is
    the field [_].  The [flags] and [options] objects are used as maps from
    names to values, and are modelled as such (their own properties). *)
Record ParsedArgs : Type := mkParsedArgs {
  positional : list string;
  flags : gmap string value;
  options : gmap string value
}.

Definition empty_result : ParsedArgs := mkParsedArgs [] ∅ ∅.

(** [result.flags[key] = true].  The name [__proto__] is not stored: the
    assignment reaches the accessor that every object inherits from
    [Object.prototype], and that accessor ignores a value that is not an
    object. *)
Definition set_flag (key : string) (result : ParsedArgs) : ParsedArgs :=
  if String.eqb key "__proto__" then result
  else mkParsedArgs (positional result) (<[key := VTrue]> (flags result)) (options result).

(** [result.options[key] = v].  For the name [__proto__] no property is
    stored either: the inherited accessor ignores a value that is not an
    object, and makes an object value the prototype of [options].  The map
    holds the own properties; a prototype replaced in this way is not
    represented, so that what [options.k] reads afterwards is covered only
    for inputs without the token [--__proto__]. *)
Definition set_option (key : string) (v : value) (result : ParsedArgs) : ParsedArgs :=
  if String.eqb key "__proto__" then result
  else mkParsedArgs (positional result) (flags result) (<[key := v]> (options result)).

(** [result._.push(arg)] *)
Definition push_positional (arg : string) (result : ParsedArgs) : ParsedArgs :=
  mkParsedArgs (positional result ++ [arg]) (flags result) (options result).

(** [key === 'pretty' || key === 'help' || key === 'table' || key === 'no-retry'] *)
Definition is_boolean_flag (key : string) : bool :=
  String.eqb key "pretty" || String.eqb key "help"
  || String.eqb key "table" || String.eqb key "no-retry".

(** [next && !next.startsWith('-')], for [next = args[i + 1]]: false when
    there is no next token and when the next token is the empty string. *)
Definition takes_value (next : option string) : bool :=
  match next with
  | Some n => negb (is_empty n) && negb (startsWith n "-")
  | None => false
  end.

(** [try { JSON.parse(next) } catch { next }] *)
Definition json_or_raw (next : string) : value :=
  match JSON_parse next with
  | Some v => v
  | None => VStr next
  end.

(** The body of the loop at index [i], with [arg = args[i]]: the index
    reached before the loop's own [i++], and the updated result. *)
Definition loop_body (args : list string) (i : nat) (arg : string) (result : ParsedArgs)
  : nat * ParsedArgs :=
  if startsWith arg "--" then
    let key := drop_str 2 arg in
    let next := args !! (i + 1) in
    if is_boolean_flag key then (i, set_flag key result)
    else if takes_value next then
      (i + 1, set_option key (json_or_raw (default EmptyString next)) result)
    else (i, set_flag key result)
  else if startsWith arg "-" then (i, set_flag (drop_str 1 arg) result)
  else (i, push_positional arg result).

(** [for (let i = 0; i < args.length; i++) { ... }], with one unit of fuel
    for each iteration. *)
Fixpoint loop (fuel : nat) (args : list string) (i : nat) (result : ParsedArgs)
  : ParsedArgs :=
  match fuel with
  | O => result
  | S fuel' =>
      match args !! i with
      | None => result
      | Some arg =>
          let '(i', result') := loop_body args i arg result in
          loop fuel' args (S i') result'
      end
  end.

Definition parseArgs (args : list string) : ParsedArgs :=
  loop (length args) args 0 empty_result.

(** The same parser told over the list of tokens that remain, the way the
    specification words it: a long name in the fixed set is a flag and
    leaves the next token alone; another long name takes the next token as
    its value when that token is not empty and does not start with a dash,
    and is a flag otherwise; a dash token is a short flag; anything else is
    positional. *)
Fixpoint parse_tokens (tokens : list string) (result : ParsedArgs) : ParsedArgs :=
  match tokens with
  | [] => result
  | arg :: rest =>
      if startsWith arg "--" then
        let key := drop_str 2 arg in
        if is_boolean_flag key then parse_tokens rest (set_flag key result)
        else
          match rest with
          | next :: rest' =>
              if takes_value (Some next) then
                parse_tokens rest' (set_option key (json_or_raw next) result)
              else parse_tokens rest (set_flag key result)
          | [] => parse_tokens rest (set_flag key result)
          end
      else if startsWith arg "-" then parse_tokens rest (set_flag (drop_str 1 arg) result)
      else parse_tokens rest (push_positional arg result)
  end.

(** ** [formatValue] *)

Definition million : number := num_of_Z 1000000.
Definition thousand : number := num_of_Z 1000.

Definition formatValue (val : value) : string :=
  match val with
  | VNull | VUndefined => EmptyString
  | VNum x =>
      if num_geb (Math_abs x) million then Number_toFixed 2 (num_div x million) +:+ "M"
      else if num_geb (Math_abs x) thousand then Number_toFixed 2 (num_div x thousand) +:+ "K"
      else if Number_isInteger x then Number_toString x
      else Number_toFixed 2 x
  | VArr _ | VObj _ => default EmptyString (JSON_stringify val)
  | VStr _ | VBool _ => ToString val
  end.

(** ** [parseSort] *)

(** [sortOption.split(':')] and what follows, for a string. *)
Definition sort_entry (sortOption : string) : value :=
  let parts := split ":" sortOption in
  let field := nth 0 parts EmptyString in
  let direction :=
    toUpperCase (match parts !! 1 with
                 | Some d => if is_empty d then "desc" else d
                 | None => "desc"
                 end) in
  VArr [VObj [("field", VStr field); ("direction", VStr direction)]].

(** A [sortOption] that is truthy and not a string has no [split]
    method: the call throws. *)
Definition parseSort (sortOption orderByOption : value) : outcome value :=
  if truthy orderByOption then Ok orderByOption
  else if negb (truthy sortOption) then Ok VUndefined
  else
    match sortOption with
    | VStr s => Ok (sort_entry s)
    | _ => Throw (TypeError "sortOption.split is not a function")
    end.

(** ** [formatTable] *)

Section Table.

(** [a.localeCompare(b)] depends on the collation of the host; the table
    formatter is parametric in it. *)
Variable localeCompare : string -> string -> Z.

(** The extraction of the records from the response shapes; [[]] when
    none of the five shapes applies. *)
Definition extract_records (data : value) : list value :=
  match data with
  | VArr l => l
  | _ =>
      match get_opt data "data" with
      | VArr l => l
      | d =>
          match get_opt data "results" with
          | VArr l => l
          | _ =>
              match get_opt d "results" with
              | VArr l => l
              | _ =>
                  if typeof_object data && negb (match data with VNull => true | _ => false end)
                  then [data] else []
              end
          end
      end
  end.

Definition priorityFields : list string :=
  ["token_symbol"; "token_name"; "symbol"; "name"; "address"; "label"; "chain";
   "value_usd"; "amount"; "pnl_usd"; "price_usd"; "volume_usd"; "net_flow_usd";
   "timestamp"; "block_timestamp"].

(** [l.indexOf(x)], [-1] when absent. *)
Fixpoint indexOf_from (i : Z) (l : list string) (x : string) : Z :=
  match l with
  | [] => (-1)%Z
  | y :: l' => if String.eqb y x then i else indexOf_from (i + 1)%Z l' x
  end.
Definition indexOf (l : list string) (x : string) : Z := indexOf_from 0 l x.

(** The comparison function handed to [sort]. *)
Definition compare_columns (a b : string) : Z :=
  let aIdx := indexOf priorityFields a in
  let bIdx := indexOf priorityFields b in
  if negb (aIdx =? -1)%Z && negb (bIdx =? -1)%Z then (aIdx - bIdx)%Z
  else if negb (aIdx =? -1)%Z then (-1)%Z
  else if negb (bIdx =? -1)%Z then 1%Z
  else localeCompare a b.

(** [Array.prototype.sort] with a comparison function: a stable insertion
    sort, which is the order every stable sort yields when the comparison
    is consistent. *)
Fixpoint insert_sorted (cmp : string -> string -> Z) (x : string) (l : list string)
  : list string :=
  match l with
  | [] => [x]
  | y :: l' => if (cmp x y <? 0)%Z then x :: y :: l' else y :: insert_sorted cmp x l'
  end.

Definition sort_by (cmp : string -> string -> Z) (l : list string) : list string :=
  fold_left (fun acc x => insert_sorted cmp x acc) l [].

(** [[...new Set(l)]]: first occurrences, in order. *)
Fixpoint dedup_keys (seen : list string) (l : list string) : list string :=
  match l with
  | [] => []
  | x :: l' =>
      if existsb (String.eqb x) seen then dedup_keys seen l'
      else x :: dedup_keys (x :: seen) l'
  end.

(** [records.flatMap(r => Object.keys(r))] *)
Fixpoint all_keys (records : list value) : outcome (list string) :=
  match records with
  | [] => Ok []
  | r :: records' =>
      match Object_keys r with
      | Throw e => Throw e
      | Ok ks =>
          match all_keys records' with
          | Throw e => Throw e
          | Ok ks' => Ok (ks ++ ks')
          end
      end
  end.

(** The columns: [allKeys.sort(...).slice(0, 8)]. *)
Definition table_columns (records : list value) : outcome (list string) :=
  match all_keys records with
  | Throw e => Throw e
  | Ok ks => Ok (take 8 (sort_by compare_columns (dedup_keys [] ks)))
  end.

Definition max_list (l : list nat) : nat := fold_right Nat.max 0%nat l.

(** The width of a column. *)
Definition column_width (records : list value) (col : string) : nat :=
  let headerLen := str_length col in
  let maxDataLen :=
    max_list (map (fun r => str_length (formatValue (get_prop r col))) records) in
  Nat.min (Nat.max headerLen maxDataLen) 30.

Definition column_separator : string := " │ ".
Definition rule_cross : string := "─┼─".

Definition table_header (columns : list string) (widths : list nat) : string :=
  join column_separator (zip_with padEnd columns widths).

Definition table_rule (widths : list nat) : string :=
  join rule_cross (map (repeat_str "─") widths).

Definition table_row (columns : list string) (widths : list nat) (record : value) : string :=
  join column_separator
    (zip_with (fun col w => padEnd (slice_to w (formatValue (get_prop record col))) w)
       columns widths).

(** The rendered data rows: one for each of the first 50 records. *)
Definition table_rows (columns : list string) (widths : list nat) (records : list value)
  : list string :=
  map (table_row columns widths) (take 50 records).

(** The trailing line, present when more than 50 records exist. *)
Definition table_trailer (records : list value) : list string :=
  if (50 <? length records)%nat
  then ["... and " +:+ decimal (Z.of_nat (length records - 50)) +:+ " more rows"]
  else [].

Definition table_lines (columns : list string) (records : list value) : list string :=
  let widths := map (column_width records) columns in
  table_header columns widths :: table_rule widths
  :: table_rows columns widths records ++ table_trailer records.

Definition formatTable (data : value) : outcome string :=
  let records := extract_records data in
  match records with
  | [] => Ok "No data"
  | _ =>
      match table_columns records with
      | Throw e => Throw e
      | Ok columns => Ok (join newline (table_lines columns records))
      end
  end.

(** ** [formatOutput] and [formatError] *)

(** The object [{ type, text }]; [text] is [None] where [JSON.stringify]
    returns [undefined]. *)
Record formatted : Type := mkFormatted {
  ftype : string;
  text : option string
}.

(** [formatOutput(data, { pretty, table })]; an absent [pretty] or [table]
    is [undefined] and takes its default [false]. *)
Definition formatOutput (data : value) (pretty table : value) : outcome formatted :=
  if truthy table then
    match data with
    | VUndefined =>
        Throw (TypeError "Cannot read properties of undefined (reading 'success')")
    | VNull =>
        Throw (TypeError "Cannot read properties of null (reading 'success')")
    | _ =>
        match get_prop data "success" with
        | VBool false =>
            Ok (mkFormatted "error" (Some ("Error: " +:+ ToString (get_prop data "error"))))
        | _ =>
            let tableData := or_else (get_prop data "data") data in
            match formatTable tableData with
            | Throw e => Throw e
            | Ok t => Ok (mkFormatted "table" (Some t))
            end
        end
    end
  else if truthy pretty then Ok (mkFormatted "json" (JSON_stringify_pretty data))
  else Ok (mkFormatted "json" (JSON_stringify data)).

Definition formatError (e : error) : value :=
  VObj [("success", VBool false);
        ("error", message e);
        ("code", or_else (code e) (VStr "UNKNOWN"));
        ("status", or_else (status e) VNull);
        ("details", or_else (data e) VNull)].

End Table.

(** ** [buildCommands]: the four family handlers

    A handler resolves its options, then looks its subcommand up in a map
    of thunks; a thunk either returns a fixed object or calls one method of
    the API instance with one argument, and the handler returns what the
    thunk returns.  [action] is that last step. *)

Inductive action : Type :=
  | Return (v : value)
  | Call (method : string) (params : value).

(** What a handler leaves behind: the [options] object as it is when the
    handler is done (it may have been written through [filters]), and the
    action it ends with or the error it throws. *)
Record handled : Type := mkHandled {
  options_after : gmap string value;
  result : outcome action
}.

(** [o.k] and [o['k']] on [flags] and [options], for the names that the
    program reads: the own properties.  None of those names is a member of
    [Object.prototype], with which both objects are created, and only the
    token [--__proto__] followed by a value gives [options] another
    prototype; the statements about [runCLI] set that token aside. *)
Definition get (o : gmap string value) (k : string) : value :=
  default VUndefined (o !! k).

(** [args[0] || 'help'] *)
Definition subcommand_of (args : list string) : string :=
  match args with
  | a :: _ => if is_empty a then "help" else a
  | [] => "help"
  end.

(** [handlers[subcommand]] among the own properties of [handlers].  For
    one of [JS.inherited_names] the source finds the member inherited from
    [Object.prototype] instead; the statements about unknown subcommands
    set these names aside. *)
Fixpoint lookup_handler (handlers : list (string * action)) (subcommand : string)
  : option action :=
  match handlers with
  | [] => None
  | (k, a) :: handlers' =>
      if String.eqb k subcommand then Some a else lookup_handler handlers' subcommand
  end.

(** [Object.keys(handlers)] *)
Definition handler_names (handlers : list (string * action)) : list string :=
  map fst handlers.

Definition unknown_subcommand (subcommand : string) (available : list string) : value :=
  VObj [("error", VStr ("Unknown subcommand: " +:+ subcommand));
        ("available", VArr (map VStr available))].

(** [if (!handlers[subcommand]) return {...}; return handlers[subcommand]();] *)
Definition dispatch (handlers : list (string * action)) (subcommand : string) : action :=
  match lookup_handler handlers subcommand with
  | None => Return (unknown_subcommand subcommand (handler_names handlers))
  | Some a => a
  end.

(** [options.limit ? { page: 1, <per>: options.limit } : undefined] *)
Definition resolve_pagination (per : string) (options : gmap string value) : value :=
  if truthy (get options "limit")
  then VObj [("page", VInt 1); (per, get options "limit")]
  else VUndefined.

(** [options.days ? parseInt(options.days) : 30] *)
Definition resolve_days (options : gmap string value) : value :=
  if truthy (get options "days") then VNum (parseInt (get options "days")) else VInt 30.

(** [filters[k] = v], where [filters = options.filters || {}]: the object
    written is the one stored in [options.filters] when that option is
    truthy, and a fresh one otherwise.  The module is in strict mode, where
    creating a property on a number, a string or a boolean throws.  A named
    property put on an array is not represented. *)
Definition write_filter (options : gmap string value) (filters : value)
    (k : string) (v : value) : outcome (gmap string value * value) :=
  match filters with
  | VObj ps =>
      let filters' := VObj (obj_set ps k v) in
      Ok (if truthy (get options "filters")
          then <["filters" := filters']> options else options, filters')
  | VArr _ => Ok (options, filters)
  | _ =>
      Throw (TypeError ("Cannot create property '" +:+ k +:+ "' on "
                        +:+ typeof_primitive filters +:+ " '" +:+ ToString filters +:+ "'"))
  end.

Definition obj (fields : list (string * value)) : value := VObj fields.
Definition strings (l : list string) : value := VArr (map VStr l).

Definition smart_money_handlers (chains filters orderBy pagination days : value)
  : list (string * action) :=
  [("netflow", Call "smartMoneyNetflow"
      (obj [("chains", chains); ("filters", filters); ("orderBy", orderBy);
            ("pagination", pagination)]));
   ("dex-trades", Call "smartMoneyDexTrades"
      (obj [("chains", chains); ("filters", filters); ("orderBy", orderBy);
            ("pagination", pagination)]));
   ("perp-trades", Call "smartMoneyPerpTrades"
      (obj [("filters", filters); ("orderBy", orderBy); ("pagination", pagination)]));
   ("holdings", Call "smartMoneyHoldings"
      (obj [("chains", chains); ("filters", filters); ("orderBy", orderBy);
            ("pagination", pagination)]));
   ("dcas", Call "smartMoneyDcas"
      (obj [("filters", filters); ("orderBy", orderBy); ("pagination", pagination)]));
   ("historical-holdings", Call "smartMoneyHistoricalHoldings"
      (obj [("chains", chains); ("filters", filters); ("orderBy", orderBy);
            ("pagination", pagination); ("days", days)]));
   ("help", Return
      (obj [("commands", strings ["netflow"; "dex-trades"; "perp-trades"; "holdings";
                                  "dcas"; "historical-holdings"]);
            ("description", VStr "Smart Money analytics endpoints");
            ("example", VStr "nansen smart-money netflow --chain solana --labels Fund")]))].

Definition smart_money (args : list string) (flags options : gmap string value) : handled :=
  let subcommand := subcommand_of args in
  let chain := or_else (get options "chain") (VStr "solana") in
  let chains := or_else (get options "chains") (VArr [chain]) in
  let filters := or_else (get options "filters") (VObj []) in
  match parseSort (get options "sort") (get options "order-by") with
  | Throw e => mkHandled options (Throw e)
  | Ok orderBy =>
      let pagination := resolve_pagination "per_page" options in
      let labels := get options "labels" in
      match (if truthy labels
             then write_filter options filters "include_smart_money_labels"
                    (if Array_isArray labels then labels else VArr [labels])
             else Ok (options, filters)) with
      | Throw e => mkHandled options (Throw e)
      | Ok (options', filters') =>
          let days := resolve_days options' in
          mkHandled options'
            (Ok (dispatch (smart_money_handlers chains filters' orderBy pagination days)
                   subcommand))
      end
  end.

Definition profiler_handlers (options : gmap string value)
    (address entityName chain filters orderBy pagination days : value)
  : list (string * action) :=
  [("balance", Call "addressBalance"
      (obj [("address", address); ("entityName", entityName); ("chain", chain);
            ("filters", filters); ("orderBy", orderBy)]));
   ("labels", Call "addressLabels"
      (obj [("address", address); ("chain", chain); ("pagination", pagination)]));
   ("transactions", Call "addressTransactions"
      (obj [("address", address); ("chain", chain); ("filters", filters);
            ("orderBy", orderBy); ("pagination", pagination)]));
   ("pnl", Call "addressPnl" (obj [("address", address); ("chain", chain)]));
   ("search", Call "entitySearch"
      (obj [("query", get options "query"); ("pagination", pagination)]));
   ("historical-balances", Call "addressHistoricalBalances"
      (obj [("address", address); ("chain", chain); ("filters", filters);
            ("orderBy", orderBy); ("pagination", pagination); ("days", days)]));
   ("related-wallets", Call "addressRelatedWallets"
      (obj [("address", address); ("chain", chain); ("filters", filters);
            ("orderBy", orderBy); ("pagination", pagination)]));
   ("counterparties", Call "addressCounterparties"
      (obj [("address", address); ("chain", chain); ("filters", filters);
            ("orderBy", orderBy); ("pagination", pagination); ("days", days)]));
   ("pnl-summary", Call "addressPnlSummary"
      (obj [("address", address); ("chain", chain); ("filters", filters);
            ("orderBy", orderBy); ("pagination", pagination); ("days", days)]));
   ("perp-positions", Call "addressPerpPositions"
      (obj [("address", address); ("filters", filters); ("orderBy", orderBy);
            ("pagination", pagination)]));
   ("perp-trades", Call "addressPerpTrades"
      (obj [("address", address); ("filters", filters); ("orderBy", orderBy);
            ("pagination", pagination); ("days", days)]));
   ("help", Return
      (obj [("commands", strings ["balance"; "labels"; "transactions"; "pnl"; "search";
                                  "historical-balances"; "related-wallets";
                                  "counterparties"; "pnl-summary"; "perp-positions";
                                  "perp-trades"]);
            ("description", VStr "Wallet profiling endpoints");
            ("example", VStr "nansen profiler balance --address 0x123... --chain ethereum")]))].

Definition profiler (args : list string) (flags options : gmap string value) : handled :=
  let subcommand := subcommand_of args in
  let address := get options "address" in
  let entityName := or_else (get options "entity") (get options "entity-name") in
  let chain := or_else (get options "chain") (VStr "ethereum") in
  let filters := or_else (get options "filters") (VObj []) in
  match parseSort (get options "sort") (get options "order-by") with
  | Throw e => mkHandled options (Throw e)
  | Ok orderBy =>
      let pagination := resolve_pagination "recordsPerPage" options in
      let days := resolve_days options in
      mkHandled options
        (Ok (dispatch (profiler_handlers options address entityName chain filters orderBy
                         pagination days) subcommand))
  end.

Definition token_handlers
    (tokenAddress tokenSymbol chain chains timeframe filters orderBy pagination days
       onlySmartMoney : value)
  : list (string * action) :=
  [("screener", Call "tokenScreener"
      (obj [("chains", chains); ("timeframe", timeframe); ("filters", filters);
            ("orderBy", orderBy); ("pagination", pagination)]));
   ("holders", Call "tokenHolders"
      (obj [("tokenAddress", tokenAddress); ("chain", chain); ("filters", filters);
            ("orderBy", orderBy); ("pagination", pagination)]));
   ("flows", Call "tokenFlows"
      (obj [("tokenAddress", tokenAddress); ("chain", chain); ("filters", filters);
            ("orderBy", orderBy); ("pagination", pagination)]));
   ("dex-trades", Call "tokenDexTrades"
      (obj [("tokenAddress", tokenAddress); ("chain", chain);
            ("onlySmartMoney", onlySmartMoney); ("filters", filters);
            ("orderBy", orderBy); ("pagination", pagination); ("days", days)]));
   ("pnl", Call "tokenPnlLeaderboard"
      (obj [("tokenAddress", tokenAddress); ("chain", chain); ("filters", filters);
            ("orderBy", orderBy); ("pagination", pagination); ("days", days)]));
   ("who-bought-sold", Call "tokenWhoBoughtSold"
      (obj [("tokenAddress", tokenAddress); ("chain", chain); ("filters", filters);
            ("orderBy", orderBy); ("pagination", pagination)]));
   ("flow-intelligence", Call "tokenFlowIntelligence"
      (obj [("tokenAddress", tokenAddress); ("chain", chain); ("filters", filters);
            ("orderBy", orderBy); ("pagination", pagination)]));
   ("transfers", Call "tokenTransfers"
      (obj [("tokenAddress", tokenAddress); ("chain", chain); ("filters", filters);
            ("orderBy", orderBy); ("pagination", pagination); ("days", days)]));
   ("jup-dca", Call "tokenJupDca"
      (obj [("tokenAddress", tokenAddress); ("filters", filters); ("orderBy", orderBy);
            ("pagination", pagination)]));
   ("perp-trades", Call "tokenPerpTrades"
      (obj [("tokenSymbol", tokenSymbol); ("filters", filters); ("orderBy", orderBy);
            ("pagination", pagination); ("days", days)]));
   ("perp-positions", Call "tokenPerpPositions"
      (obj [("tokenSymbol", tokenSymbol); ("filters", filters); ("orderBy", orderBy);
            ("pagination", pagination)]));
   ("perp-pnl-leaderboard", Call "tokenPerpPnlLeaderboard"
      (obj [("tokenSymbol", tokenSymbol); ("filters", filters); ("orderBy", orderBy);
            ("pagination", pagination); ("days", days)]));
   ("help", Return
      (obj [("commands", strings ["screener"; "holders"; "flows"; "dex-trades"; "pnl";
                                  "who-bought-sold"; "flow-intelligence"; "transfers";
                                  "jup-dca"; "perp-trades"; "perp-positions";
                                  "perp-pnl-leaderboard"]);
            ("description", VStr "Token God Mode endpoints");
            ("example",
             VStr "nansen token screener --chain solana --timeframe 24h --smart-money")]))].

Definition token (args : list string) (flags options : gmap string value) : handled :=
  let subcommand := subcommand_of args in
  let tokenAddress := or_else (get options "token") (get options "token-address") in
  let tokenSymbol := or_else (get options "symbol") (get options "token-symbol") in
  let chain := or_else (get options "chain") (VStr "solana") in
  let chains := or_else (get options "chains") (VArr [chain]) in
  let timeframe := or_else (get options "timeframe") (VStr "24h") in
  let filters := or_else (get options "filters") (VObj []) in
  match parseSort (get options "sort") (get options "order-by") with
  | Throw e => mkHandled options (Throw e)
  | Ok orderBy =>
      let pagination := resolve_pagination "per_page" options in
      let days := resolve_days options in
      let onlySmartMoney :=
        or_else (or_else (get options "smart-money") (get flags "smart-money"))
          (VBool false) in
      match (if truthy onlySmartMoney
             then write_filter options filters "only_smart_money" VTrue
             else Ok (options, filters)) with
      | Throw e => mkHandled options (Throw e)
      | Ok (options', filters') =>
          mkHandled options'
            (Ok (dispatch (token_handlers tokenAddress tokenSymbol chain chains timeframe
                             filters' orderBy pagination days onlySmartMoney)
                   subcommand))
      end
  end.

Definition portfolio_handlers (walletAddress : value) : list (string * action) :=
  [("defi", Call "portfolioDefiHoldings" (obj [("walletAddress", walletAddress)]));
   ("defi-holdings", Call "portfolioDefiHoldings" (obj [("walletAddress", walletAddress)]));
   ("help", Return
      (obj [("commands", strings ["defi"; "defi-holdings"]);
            ("description", VStr "Portfolio analytics endpoints");
            ("example", VStr "nansen portfolio defi --wallet 0x123...")]))].

Definition portfolio (args : list string) (flags options : gmap string value) : handled :=
  let subcommand := subcommand_of args in
  let walletAddress := or_else (get options "wallet") (get options "address") in
  mkHandled options (Ok (dispatch (portfolio_handlers walletAddress) subcommand)).

(** ** [runCLI] *)

Definition dq (s : string) : string :=
  String quote_char (s +:+ String quote_char EmptyString).

Definition HELP : string :=
  join newline
    [EmptyString;
     "Nansen CLI - Command-line interface for Nansen API";
     "Designed for AI agents with structured JSON output.";
     EmptyString;
     "USAGE:";
     "  nansen <command> [subcommand] [options]";
     EmptyString;
     "COMMANDS:";
     "  login          Save your API key (interactive)";
     "  logout         Remove saved API key";
     "  smart-money    Smart Money analytics (netflow, dex-trades, holdings, dcas, historical-holdings)";
     "  profiler       Wallet profiling (balance, labels, transactions, pnl, perp-positions, perp-trades)";
     "  token          Token God Mode (screener, holders, flows, trades, pnl, perp-trades, perp-positions)";
     "  portfolio      Portfolio analytics (defi-holdings)";
     "  help           Show this help message";
     EmptyString;
     "GLOBAL OPTIONS:";
     "  --pretty       Format JSON output for readability";
     "  --table        Format output as human-readable table";
     "  --chain        Blockchain to query (ethereum, solana, base, etc.)";
     "  --chains       Multiple chains as JSON array";
     "  --limit        Number of results (shorthand for pagination)";
     "  --filters      JSON object with filters";
     "  --sort         Sort by field (e.g., --sort value_usd:desc)";
     "  --order-by     JSON array with sort order (advanced)";
     "  --days         Date range in days (default: 30 for most endpoints)";
     "  --symbol       Token symbol (for perp endpoints)";
     "  --no-retry     Disable automatic retry on rate limits/errors";
     "  --retries <n>  Max retry attempts (default: 3)";
     EmptyString;
     "EXAMPLES:";
     "  # Get Smart Money netflow on Solana";
     "  nansen smart-money netflow --chain solana";
     EmptyString;
     "  # Get top tokens by Smart Money activity";
     "  nansen token screener --chain solana --timeframe 24h --pretty";
     EmptyString;
     "  # Get wallet balance";
     "  nansen profiler balance --address 0x123... --chain ethereum";
     EmptyString;
     "  # Get wallet labels";
     "  nansen profiler labels --address 0x123... --chain ethereum";
     EmptyString;
     "  # Search for entity";
     "  nansen profiler search --query " +:+ dq "Vitalik";
     EmptyString;
     "  # Get token holders with filters";
     "  nansen token holders --token 0x123... --filters '{" +:+ dq "only_smart_money"
       +:+ ":true}'";
     EmptyString;
     "SMART MONEY LABELS:";
     "  Fund, Smart Trader, 30D Smart Trader, 90D Smart Trader, ";
     "  180D Smart Trader, Smart HL Perps Trader";
     EmptyString;
     "SUPPORTED CHAINS:";
     "  ethereum, solana, base, bnb, arbitrum, polygon, optimism,";
     "  avalanche, linea, scroll, zksync, mantle, ronin, sei,";
     "  plasma, sonic, unichain, monad, hyperevm, iotaevm";
     EmptyString;
     "For more info: https://docs.nansen.ai";
     EmptyString].

Definition NO_AUTH_COMMANDS : list string := ["login"; "logout"; "help"].

(** An API instance: calling one of its methods with one argument resolves
    to a value or rejects with an error. *)
Definition api_instance : Type := string -> value -> outcome value.

(** The injected dependencies: [new NansenAPIClass(...)], applied to its
    list of arguments, yields an instance or throws;
    [promptFn(question, hidden)] resolves to the answer or rejects;
    [saveConfigFn(config)], [deleteConfigFn()] and [getConfigFileFn()]
    return or throw.  [output], [errorOutput], [log] and [exit] are the
    observable effects below, and [commandOverrides] is left at its
    default [{}]. *)
Record Deps : Type := Build_Deps {
  NansenAPIClass : list value -> outcome api_instance;
  promptFn : string -> bool -> outcome value;
  saveConfigFn : value -> outcome unit;
  deleteConfigFn : outcome value;
  getConfigFileFn : outcome value
}.

(** The dependencies of a run in which only the client matters: a prompt
    that resolves to [undefined] and a credential file that is not
    there. *)
Definition mkDeps (NansenAPIClass : list value -> outcome api_instance) : Deps :=
  Build_Deps NansenAPIClass (fun _ _ => Ok VUndefined) (fun _ => Ok tt)
    (Ok VUndefined) (Ok VUndefined).

(** What a run does, in order: [output(text)], [errorOutput(text)],
    [exit(code)], the construction of the API client by the router
    ([new NansenAPIClass(undefined, undefined, opts)]), a call of a method
    of a client, the hand-over to the [login] or [logout] handler, and
    what those handlers do: [log(line)], [promptFn(question, hidden)],
    [new NansenAPIClass(apiKey)], [saveConfigFn(config)],
    [deleteConfigFn()] and [getConfigFileFn()].  [exit] is the injected
    function: a run goes on to its [return] after it, as it does under the
    test suite; with [process.exit] the process ends there. *)
Inductive event : Type :=
  | Output (text : option string)
  | ErrorOutput (text : option string)
  | Exit (code : Z)
  | New (opts : value)
  | Request (method : string) (params : value)
  | NoAuth (command : string) (args : list string)
  | Log (line : string)
  | Ask (question : string) (hidden : bool)
  | NewWithKey (apiKey : string)
  | SaveConfig (config : value)
  | DeleteConfig
  | GetConfigFile.

(** ** [buildCommands]: [login], [logout] and [help]

    These handlers ignore their four arguments; what they do depends on
    the injected collaborators only. *)

Definition probe_params : value :=
  obj [("chains", VArr [VStr "solana"]);
       ("pagination", obj [("page", VInt 1); ("per_page", VInt 1)])].

Definition config_of (key : string) : value :=
  obj [("apiKey", VStr key); ("baseUrl", VStr "https://api.nansen.ai")].

Definition login_intro : list event :=
  [Log ("Nansen CLI Login" +:+ newline);
   Log ("Get your API key at: https://app.nansen.ai/api" +:+ newline);
   Ask "Enter your API key: " true].

Definition no_key : list event :=
  [Log (newline +:+ "❌ No API key provided"); Exit 1].

(** The [try] block of [login], for the trimmed key: its calls, and the
    error it throws if one of them does. *)
Definition validate (deps : Deps) (key : string) : list event * outcome unit :=
  match NansenAPIClass deps [VStr key] with
  | Throw e => ([NewWithKey key], Throw e)
  | Ok testApi =>
      match testApi "tokenScreener" probe_params with
      | Throw e => ([NewWithKey key; Request "tokenScreener" probe_params], Throw e)
      | Ok _ =>
          match saveConfigFn deps (config_of key) with
          | Throw e =>
              ([NewWithKey key; Request "tokenScreener" probe_params;
                SaveConfig (config_of key)], Throw e)
          | Ok _ =>
              match getConfigFileFn deps with
              | Throw e =>
                  ([NewWithKey key; Request "tokenScreener" probe_params;
                    SaveConfig (config_of key); Log "✓ API key validated";
                    GetConfigFile], Throw e)
              | Ok path =>
                  ([NewWithKey key; Request "tokenScreener" probe_params;
                    SaveConfig (config_of key); Log "✓ API key validated";
                    GetConfigFile;
                    Log ("✓ Saved to " +:+ ToString path +:+ newline);
                    Log "You can now use the Nansen CLI. Try:";
                    Log "  nansen token screener --chain solana --pretty"], Ok tt)
              end
          end
      end
  end.

(** The [login] handler.  An answer that is truthy and not a string has
    no [trim] method: the call throws, outside the [try] block. *)
Definition login (deps : Deps) : list event * outcome unit :=
  match promptFn deps "Enter your API key: " true with
  | Throw e => (login_intro, Throw e)
  | Ok apiKey =>
      if negb (truthy apiKey) then (login_intro ++ no_key, Ok tt)
      else
        match apiKey with
        | VStr s =>
            if (str_length (trim s) =? 0)%nat then (login_intro ++ no_key, Ok tt)
            else
              let '(calls, res) := validate deps (trim s) in
              match res with
              | Ok _ =>
                  (login_intro ++ Log (newline +:+ "Validating API key...") :: calls, Ok tt)
              | Throw error =>
                  (login_intro ++ Log (newline +:+ "Validating API key...") :: calls
                   ++ [Log (newline +:+ "❌ Invalid API key: " +:+ ToString (message error));
                       Exit 1], Ok tt)
              end
        | _ => (login_intro, Throw (TypeError "apiKey.trim is not a function"))
        end
  end.

(** The [logout] handler. *)
Definition logout (deps : Deps) : list event * outcome unit :=
  match deleteConfigFn deps with
  | Throw e => ([DeleteConfig], Throw e)
  | Ok deleted =>
      if truthy deleted then
        match getConfigFileFn deps with
        | Throw e => ([DeleteConfig; GetConfigFile], Throw e)
        | Ok path =>
            ([DeleteConfig; GetConfigFile; Log ("✓ Removed " +:+ ToString path)], Ok tt)
        end
      else ([DeleteConfig; Log "No saved credentials found"], Ok tt)
  end.

(** The [help] handler. *)
Definition help_command : list event * outcome unit := ([Log HELP], Ok tt).

(** [commands[command](subArgs, null, flags, options)] for the three
    commands of [NO_AUTH_COMMANDS]. *)
Definition no_auth (deps : Deps) (command : string) : list event * outcome unit :=
  if String.eqb command "login" then login deps
  else if String.eqb command "logout" then logout deps
  else help_command.

(** ** [runCLI] *)

Inductive command_entry : Type :=
  | NoAuthCommand
  | Family (handler : list string -> gmap string value -> gmap string value -> handled).

(** The keys of [buildCommands(deps)], in order. *)
Definition command_names : list string :=
  ["login"; "logout"; "help"; "smart-money"; "profiler"; "token"; "portfolio"].

(** [commands[command]] among the own properties of the command table;
    as for [lookup_handler], the names of [JS.inherited_names] are set
    aside where a statement is about an unknown command. *)
Definition commands (command : string) : option command_entry :=
  if String.eqb command "login" || String.eqb command "logout" || String.eqb command "help"
  then Some NoAuthCommand
  else if String.eqb command "smart-money" then Some (Family smart_money)
  else if String.eqb command "profiler" then Some (Family profiler)
  else if String.eqb command "token" then Some (Family token)
  else if String.eqb command "portfolio" then Some (Family portfolio)
  else None.

(** [flags['no-retry'] ? { maxRetries: 0 } : { maxRetries: options.retries || 3 }] *)
Definition retryOptions (flags options : gmap string value) : value :=
  if truthy (get flags "no-retry") then obj [("maxRetries", VInt 0)]
  else obj [("maxRetries", or_else (get options "retries") (VInt 3))].

Section Router.

Variable localeCompare : string -> string -> Z.
Variable deps : Deps.

(** The [try] block: the events it produces, and its value or the error
    it throws. *)
Definition try_block (handler : list string -> gmap string value -> gmap string value -> handled)
    (subArgs : list string) (flags options : gmap string value) (pretty table : value)
  : list event * outcome value :=
  let opts := obj [("retry", retryOptions flags options)] in
  match NansenAPIClass deps [VUndefined; VUndefined; opts] with
  | Throw e => ([New opts], Throw e)
  | Ok api =>
      let '(evs, res) :=
        match result (handler subArgs flags options) with
        | Throw e => ([], Throw e)
        | Ok (Return v) => ([], Ok v)
        | Ok (Call method params) => ([Request method params], api method params)
        end in
      match res with
      | Throw e => (New opts :: evs, Throw e)
      | Ok v =>
          let successData := obj [("success", VTrue); ("data", v)] in
          match formatOutput localeCompare successData pretty table with
          | Throw e => (New opts :: evs, Throw e)
          | Ok formatted =>
              (New opts :: evs ++ [Output (text formatted)],
               Ok (obj [("type", VStr "success"); ("data", v)]))
          end
      end
  end.

(** [runCLI(rawArgs, deps)].  The handler of a command that needs no
    client is awaited outside the [try] block: what it throws, [runCLI]
    throws. *)
Definition runCLI (rawArgs : list string) : list event * outcome value :=
  let parsed := parseArgs rawArgs in
  let flags := flags parsed in
  let options := options parsed in
  let command := subcommand_of (positional parsed) in
  let subArgs := tail (positional parsed) in
  let pretty := or_else (get flags "pretty") (get flags "p") in
  let table := or_else (get flags "table") (get flags "t") in
  if String.eqb command "help" || truthy (get flags "help") || truthy (get flags "h") then
    ([Output (Some HELP)], Ok (obj [("type", VStr "help")]))
  else
    match commands command with
    | None =>
        let errorData :=
          obj [("error", VStr ("Unknown command: " +:+ command));
               ("available", strings command_names)] in
        match formatOutput localeCompare errorData pretty table with
        | Throw e => ([], Throw e)
        | Ok formatted =>
            ([Output (text formatted); Exit 1],
             Ok (obj [("type", VStr "error"); ("data", errorData)]))
        end
    | Some NoAuthCommand =>
        match no_auth deps command with
        | (evs, Ok _) =>
            (NoAuth command subArgs :: evs,
             Ok (obj [("type", VStr "no-auth"); ("command", VStr command)]))
        | (evs, Throw e) => (NoAuth command subArgs :: evs, Throw e)
        end
    | Some (Family handler) =>
        match try_block handler subArgs flags options pretty table with
        | (evs, Ok v) => (evs, Ok v)
        | (evs, Throw error) =>
            let errorData := formatError error in
            match formatOutput localeCompare errorData pretty table with
            | Throw e => (evs, Throw e)
            | Ok formatted =>
                (evs ++ [ErrorOutput (text formatted); Exit 1],
                 Ok (obj [("type", VStr "error"); ("data", errorData)]))
            end
        end
    end.

End Router.

End Cli.

(** * The specification

    Definitions that follow the words of the specification rather than the
    source; the theorems below compare them with [Cli]. *)

Module Spec.
Import JS Cli.

(** ** The argument parser, as a reading of the token sequence

    [parses value_token tokens r r'] reads [tokens] from the left into the
    result [r], giving [r'].  [value_token next] tells whether the token
    after a long name is taken as its value. *)
Inductive parses (value_token : string -> bool)
  : list string -> ParsedArgs -> ParsedArgs -> Prop :=
  | parses_done r :
      parses value_token [] r r
  | parses_boolean name rest r r' :
      is_boolean_flag name = true ->
      parses value_token rest (set_flag name r) r' ->
      parses value_token (("--" +:+ name) :: rest) r r'
  | parses_option name next rest r r' :
      is_boolean_flag name = false ->
      value_token next = true ->
      parses value_token rest (set_option name (json_or_raw next) r) r' ->
      parses value_token (("--" +:+ name) :: next :: rest) r r'
  | parses_flag_last name r r' :
      is_boolean_flag name = false ->
      parses value_token [] (set_flag name r) r' ->
      parses value_token [("--" +:+ name)] r r'
  | parses_flag_before name next rest r r' :
      is_boolean_flag name = false ->
      value_token next = false ->
      parses value_token (next :: rest) (set_flag name r) r' ->
      parses value_token (("--" +:+ name) :: next :: rest) r r'
  | parses_short arg rest r r' :
      startsWith arg "--" = false ->
      startsWith arg "-" = true ->
      parses value_token rest (set_flag (drop_str 1 arg) r) r' ->
      parses value_token (arg :: rest) r r'
  | parses_positional arg rest r r' :
      startsWith arg "-" = false ->
      parses value_token rest (push_positional arg r) r' ->
      parses value_token (arg :: rest) r r'.


(** The value test of the source: the next token is moreover not empty. *)
Definition nonempty_no_dash (next : string) : bool :=
  negb (is_empty next) && negb (startsWith next "-").

(** ** The four families *)

Inductive family : Type := SmartMoney | Profiler | Token | Portfolio.

Definition family_command (f : family) : string :=
  match f with
  | SmartMoney => "smart-money"
  | Profiler => "profiler"
  | Token => "token"
  | Portfolio => "portfolio"
  end.

Definition family_handler (f : family)
  : list string -> gmap string value -> gmap string value -> handled :=
  match f with
  | SmartMoney => smart_money
  | Profiler => profiler
  | Token => token
  | Portfolio => portfolio
  end.

(** The keys of the handler map of each family. *)
Definition family_subcommands (f : family) : list string :=
  match f with
  | SmartMoney =>
      ["netflow"; "dex-trades"; "perp-trades"; "holdings"; "dcas"; "historical-holdings";
       "help"]
  | Profiler =>
      ["balance"; "labels"; "transactions"; "pnl"; "search"; "historical-balances";
       "related-wallets"; "counterparties"; "pnl-summary"; "perp-positions"; "perp-trades";
       "help"]
  | Token =>
      ["screener"; "holders"; "flows"; "dex-trades"; "pnl"; "who-bought-sold";
       "flow-intelligence"; "transfers"; "jup-dca"; "perp-trades"; "perp-positions";
       "perp-pnl-leaderboard"; "help"]
  | Portfolio => ["defi"; "defi-holdings"; "help"]
  end.

(** The name of the pagination field a family sends. *)
Definition per_page_field (f : family) : string :=
  match f with
  | Profiler => "recordsPerPage"
  | _ => "per_page"
  end.

(** ** Address shapes

    Modelled from the spec: the address validation the specification
    describes has no counterpart in [src/cli.js]; these are the two shapes
    it names, an EVM address ([0x] and 40 hexadecimal digits) and a Solana
    address (a non-empty word over the Base58 alphabet). *)

Definition is_hex (c : ascii) : bool :=
  match digit_of 16 c with
  | Some _ => true
  | None => false
  end.

Fixpoint all_chars (p : ascii -> bool) (s : string) : bool :=
  match s with
  | EmptyString => true
  | String c s' => p c && all_chars p s'
  end.

Definition is_evm_address (s : string) : bool :=
  startsWith s "0x" && (String.length s =? 42)%nat && all_chars is_hex (drop_str 2 s).

Definition is_base58 (c : ascii) : bool :=
  let n := char_code c in
  (((49 <=? n) && (n <=? 57)) || ((65 <=? n) && (n <=? 90)) || ((97 <=? n) && (n <=? 122)))%Z
  && negb (Ascii.eqb c "I") && negb (Ascii.eqb c "O") && negb (Ascii.eqb c "l").

Definition is_solana_address (s : string) : bool :=
  negb (is_empty s) && all_chars is_base58 s.

Definition valid_address_shape (v : value) : bool :=
  match v with
  | VStr s => is_evm_address s || is_solana_address s
  | _ => false
  end.

(** The subcommands that send an address: all of the profiler family but
    [search], and the token subcommands that take a token address. *)
Definition profiler_address_subcommands : list string :=
  ["balance"; "labels"; "transactions"; "pnl"; "historical-balances"; "related-wallets";
   "counterparties"; "pnl-summary"; "perp-positions"; "perp-trades"].

Definition token_address_subcommands : list string :=
  ["holders"; "flows"; "dex-trades"; "pnl"; "who-bought-sold"; "flow-intelligence";
   "transfers"; "jup-dca"].

(** ** Tables *)

(** A value with properties to enumerate: anything but [undefined] and
    [null], on which [Object.keys] throws. *)
Definition keyed (v : value) : bool :=
  match v with
  | VUndefined | VNull => false
  | _ => true
  end.

(** The line that reports the rows left out, for [n] records. *)
Definition more_rows_line (n : nat) : string :=
  "... and " +:+ decimal (Z.of_nat (n - 50)) +:+ " more rows".

(** An integer with its sign, in decimal. *)
Definition signed_decimal (z : Z) : string :=
  (if (z <? 0)%Z then "-" else EmptyString) +:+ decimal (Z.abs z).

(** A number rendered with two decimal places: an optional minus sign,
    one digit or more, a point and two digits. *)
Fixpoint fraction_after_digits (s : string) : bool :=
  match s with
  | EmptyString => false
  | String c s' =>
      if is_digit c then fraction_after_digits s'
      else
        Ascii.eqb c "."
        && match s' with
           | String a (String b EmptyString) => is_digit a && is_digit b
           | _ => false
           end
  end.

Definition unsigned_two_decimals (s : string) : bool :=
  match s with
  | String c _ => is_digit c && fraction_after_digits s
  | EmptyString => false
  end.

Definition two_decimals (s : string) : bool :=
  match s with
  | String c s' => if Ascii.eqb c "-" then unsigned_two_decimals s' else unsigned_two_decimals s
  | EmptyString => false
  end.

(** A number that is zero, or finite with a magnitude [m * 2^e] below
    [10^21]: the numbers that [toFixed] prints in fixed notation. *)
Definition below_1e21 (q : number) : bool :=
  match q with
  | S754_zero _ => true
  | S754_finite _ m e => (Z.pos m * 2 ^ Z.max e 0 <? 10 ^ 21 * 2 ^ Z.max (- e) 0)%Z
  | _ => false
  end.

(** The check that [formatValue] prints the integer [n - 999] as it is. *)
Definition small_integer_ok (n : nat) : bool :=
  String.eqb (formatValue (VInt (Z.of_nat n - 999)))
    (signed_decimal (Z.of_nat n - 999)).

(** ** Sort orders *)

(** The single-element sequence [[{ field, direction }]]. *)
Definition sort_order (field direction : string) : value :=
  VArr [VObj [("field", VStr field); ("direction", VStr direction)]].

Definition no_colon (s : string) : bool :=
  all_chars (fun c => negb (Ascii.eqb c ":")) s.

(** A string of ASCII characters only: on such a string the bytes are the
    code units, and [toUpperCase] changes the letters [a] to [z] only. *)
Definition is_ascii (s : string) : bool :=
  all_chars (fun c => (char_code c <? 128)%Z) s.

(** ** Pagination *)

(** [{ page: 1, <per>: limit }] *)
Definition page_of (per : string) (limit : value) : value :=
  VObj [("page", VInt 1); (per, limit)].

(** The profiler subcommands whose request has a [pagination] field, and
    the two whose request has none. *)
Definition profiler_paginated : list string :=
  ["labels"; "transactions"; "search"; "historical-balances"; "related-wallets";
   "counterparties"; "pnl-summary"; "perp-positions"; "perp-trades"].

Definition profiler_unpaginated : list string := ["balance"; "pnl"].

(** The fields of a request: [params.k], and whether [k] is a field. *)
Definition field (params : value) (k : string) : value := get_opt params k.
Definition has_field (params : value) (k : string) : bool :=
  match params with
  | VObj ps => obj_has ps k
  | _ => false
  end.

(** The characters that [trim] removes: the white space and the line
    terminators of the language, by code point; [white_space] holds their
    UTF-8 bytes. *)
Definition white_space_codes : list Z :=
  [9; 10; 11; 12; 13; 32; 160; 5760; 8192; 8193; 8194; 8195; 8196; 8197; 8198; 8199;
   8200; 8201; 8202; 8232; 8233; 8239; 8287; 12288; 65279]%Z.

Definition white_space : list string := map utf8 white_space_codes.

(** A string of white space only. *)
Inductive blank : string -> Prop :=
  | blank_empty : blank EmptyString
  | blank_more (w s : string) : In w white_space -> blank s -> blank (w +:+ s).

(** The events of the router itself: the hand-over to a handler that
    needs no client, the construction of the client, and what is printed
    through [output] and [errorOutput]. *)
Definition router_event (ev : event) : bool :=
  match ev with
  | NoAuth _ _ | New _ | Output _ | ErrorOutput _ => true
  | _ => false
  end.

(** The text of the error envelope of [e]: the line [Error: <message>]
    as a table, the JSON text of [formatError(e)] otherwise. *)
Definition error_text (pretty table : value) (e : error) : string :=
  if truthy table then "Error: " +:+ ToString (message e)
  else default EmptyString
         (if truthy pretty then JSON_stringify_pretty (formatError e)
          else JSON_stringify (formatError e)).

End Spec.

(** * Test doubles *)

Module Doubles.
Import JS Cli.

(** The mock of the test suite: every method resolves to [{ data: [] }]. *)
Definition mock_api : api_instance := fun _ _ => Ok (obj [("data", VArr [])]).
Definition mock_deps : Deps := mkDeps (fun _ => Ok mock_api).
Definition failing_deps : Deps :=
  mkDeps (fun _ => Ok (fun _ _ =>
    Throw (Error (VStr "API Error") VUndefined VUndefined VUndefined))).
Definition bytewise (a b : string) : Z :=
  match String.compare a b with
  | Lt => (-1)%Z
  | Eq => 0%Z
  | Gt => 1%Z
  end.

End Doubles.

(** * Column orders *)

Module Order.
Import JS Cli.

(** The order the comparison function of the table puts columns in:
    before a priority field stand only priority fields that come earlier
    in [priorityFields]. *)
Fixpoint priority_first (l : list string) : Prop :=
  match l with
  | [] => True
  | a :: l' =>
      (forall b, In b l' -> In b priorityFields ->
         In a priorityFields /\ (indexOf priorityFields a < indexOf priorityFields b)%Z)
      /\ priority_first l'
  end.

End Order.

(** * The hidden prompt

    [prompt(question, true)] on a terminal: the question is written, the
    terminal is put in raw mode, and [onData] is called with each chunk
    that arrives on the standard input until a line end resolves the
    promise or Ctrl+C ends the process.  The chunks are the input of the
    model; what the [readline] interface does with them on its own is not
    part of it. *)

Module Terminal.
Import JS Cli.

(** The calls that the code of [prompt] makes, in order:
    [readline.createInterface], [process.stdout.write],
    [process.stdin.setRawMode], [resume], [setEncoding], [pause] and
    [removeListener], [rl.close], [process.exit] and [rl.question].  What
    the readline interface does on its own with the input it is attached
    to, its echo and its line end among it, is not made by this code and
    is not among them. *)
Inductive tty_effect : Type :=
  | CreateInterface
  | Write (s : string)
  | SetRawMode (on : bool)
  | Resume
  | SetEncoding (encoding : string)
  | Pause
  | RemoveListener
  | Close
  | ProcessExit
  | Question (question : string).

(** The promise: still waiting, resolved, or abandoned with the
    process. *)
Inductive promise : Type :=
  | Listening
  | Resolved (answer : string)
  | Exited.

Definition line_feed : string := String "010"%char EmptyString.
Definition carriage_return : string := String "013"%char EmptyString.
Definition ctrl_c : string := String "003"%char EmptyString.
Definition delete_key : string := String "127"%char EmptyString.
Definition backspace : string := String "008"%char EmptyString.

(** [input.slice(0, -1)]: the last code unit is cut off. *)
Definition slice_last (s : string) : string := slice_to (str_length s - 1) s.

(** The backspace sequence [\b \b]. *)
Definition erase : string := backspace +:+ " " +:+ backspace.

(** [onData(char)] with the current [input], for a chunk [char] of the
    ['data'] event: the new [input], the calls made, and the state of the
    promise. *)
Definition onData (char : string) (input : string) : string * list tty_effect * promise :=
  if String.eqb char line_feed || String.eqb char carriage_return then
    (input, [SetRawMode false; Pause; RemoveListener; Write line_feed; Close],
     Resolved input)
  else if String.eqb char ctrl_c then (input, [ProcessExit], Exited)
  else if String.eqb char delete_key || String.eqb char backspace then
    if (0 <? str_length input)%nat then (slice_last input, [Write erase], Listening)
    else (input, [], Listening)
  else (input +:+ char, [Write "*"], Listening).

(** The chunks are handed to [onData] one after the other, as long as the
    listener is attached and the process runs. *)
Fixpoint feed (chunks : list string) (input : string) : list tty_effect * promise :=
  match chunks with
  | [] => ([], Listening)
  | char :: chunks' =>
      match onData char input with
      | (input', effects, Listening) =>
          let '(effects', st) := feed chunks' input' in (effects ++ effects', st)
      | (_, effects, st) => (effects, st)
      end
  end.

(** The hidden branch of [prompt]: [hidden && process.stdout.isTTY], with
    the chunks that the ['data'] listener receives. *)
Definition prompt_hidden (question : string) (chunks : list string)
  : list tty_effect * promise :=
  let '(effects, st) := feed chunks EmptyString in
  (CreateInterface :: Write question :: SetRawMode true :: Resume :: SetEncoding "utf8"
   :: effects, st).

(** The other branch: the question is left to the readline interface,
    which calls back with the answer, if one comes. *)
Definition prompt_visible (question : string) (answer : option string)
  : list tty_effect * promise :=
  match answer with
  | Some a => ([CreateInterface; Question question; Close], Resolved a)
  | None => ([CreateInterface; Question question], Listening)
  end.

(** [prompt(question, hidden)] *)
Definition prompt (question : string) (hidden isTTY : bool) (chunks : list string)
    (answer : option string) : list tty_effect * promise :=
  if hidden && isTTY then prompt_hidden question chunks
  else prompt_visible question answer.

(** The texts that the code of [prompt] writes to the standard output. *)
Fixpoint written (effects : list tty_effect) : list string :=
  match effects with
  | [] => []
  | Write s :: effects' => s :: written effects'
  | _ :: effects' => written effects'
  end.

(** A chunk that [onData] takes for text: none of the five keys. *)
Definition plain (char : string) : bool :=
  negb (String.eqb char line_feed || String.eqb char carriage_return
        || String.eqb char ctrl_c || String.eqb char delete_key
        || String.eqb char backspace).

(** What the line end does, besides resolving the promise. *)
Definition on_enter : list tty_effect :=
  [SetRawMode false; Pause; RemoveListener; Write line_feed; Close].

End Terminal.

(** * Properties *)

Import JS Cli Spec.

(** The cases of a handler that ended in [H : ... = Ok a]: one for each
    entry of its map, and one for a subcommand that is not in it. *)
Ltac handler_cases H :=
  unfold dispatch in H;
  cbn [lookup_handler smart_money_handlers profiler_handlers token_handlers
         portfolio_handlers] in H;
  repeat match type of H with
    | context [String.eqb ?k ?s] => destruct (String.eqb k s) eqn:?
    end.

(** The handler got past the resolution of its options. *)
Ltac handler_resolved H :=
  unfold family_handler, smart_money, profiler, token, portfolio in H;
  repeat match type of H with
    | context [parseSort ?a ?b] =>
        let orderBy := fresh "orderBy" in
        destruct (parseSort a b) as [orderBy|?] eqn:?; [|discriminate H]
    | context [if ?c then write_filter ?o ?f ?k ?v else ?d] =>
        let E := fresh "Ewrite" in
        destruct (if c then write_filter o f k v else d) as [[? ?]|?] eqn:E;
        [|discriminate H]
    end;
  cbn [result options_after] in H.

(** ** The JSON parser

    The parser descends with fuel; these lemmas show that the fuel
    [JSON_parse] gives it is never what makes a parse fail. *)

Lemma skip_ws_length (s : string) : (String.length (skip_ws s) <= String.length s)%nat.
Proof.
  induction s as [|c s IH]; [reflexivity|].
  cbn [skip_ws]. destruct (is_json_ws c); cbn [String.length]; lia.
Qed.

Lemma string_body_length (s : string) (us : list code_unit) (rest : string) :
  string_body s = Some (us, rest) -> (String.length rest < String.length s)%nat.
Proof.
  remember (S (String.length s)) as n eqn:Hn.
  assert (Hlt : (String.length s < n)%nat) by lia. clear Hn.
  revert s us rest Hlt. induction n as [|n IH]; intros s us rest Hlt; [lia|].
  assert (IH' : forall s' us' rest', (String.length s' < String.length s)%nat ->
            string_body s' = Some (us', rest') ->
            (String.length rest' < String.length s')%nat).
  { intros s' us' rest' Hs'. apply IH. lia. }
  clear IH. rename IH' into IH.
  destruct s as [|c r]; [discriminate|].
  cbn [string_body String.length]. cbn [String.length] in IH.
  destruct (Ascii.eqb c quote_char); [intros [= _ <-]; lia|].
  destruct (Ascii.eqb c backslash).
  - destruct r as [|e r1]; [discriminate|].
    destruct (Ascii.eqb e "u").
    + destruct r1 as [|h1 [|h2 [|h3 [|h4 r2]]]]; try discriminate.
      destruct (hex4 _ _ _ _); [|discriminate].
      destruct (string_body r2) as [[us' rest']|] eqn:E; [|discriminate].
      intros [= _ <-]. apply IH in E; cbn [String.length] in *; lia.
    + destruct (simple_escape e); [|discriminate].
      destruct (string_body r1) as [[us' rest']|] eqn:E; [|discriminate].
      intros [= _ <-]. apply IH in E; cbn [String.length] in *; lia.
  - destruct (char_code c <? 32)%Z; [discriminate|].
    destruct (string_body r) as [[us' rest']|] eqn:E; [|discriminate].
    intros [= _ <-]. apply IH in E; cbn [String.length] in *; lia.
Qed.

Lemma parse_string_length (s k rest : string) :
  parse_string s = Some (k, rest) -> (String.length rest < String.length s)%nat.
Proof.
  unfold parse_string. destruct (string_body s) as [[us r]|] eqn:E; [|discriminate].
  intros [= _ <-]. eapply string_body_length, E.
Qed.

Lemma take_digits_length (s ds rest : string) :
  take_digits s = (ds, rest) -> (String.length rest <= String.length s)%nat.
Proof.
  revert ds rest. induction s as [|c s IH]; intros ds rest; cbn [take_digits].
  - intros [= _ <-]. reflexivity.
  - destruct (is_digit c).
    + destruct (take_digits s) as [ds' rest'] eqn:E. intros [= _ <-].
      specialize (IH _ _ eq_refl). cbn [String.length]. lia.
    + intros [= _ <-]. reflexivity.
Qed.

Lemma parse_number_length (s : string) (x : number) (rest : string) :
  parse_number s = Some (x, rest) -> (String.length rest < String.length s)%nat.
Proof.
  unfold parse_number.
  destruct (read_sign s) as [neg s1] eqn:Esign.
  assert (H1 : (String.length s1 <= String.length s)%nat).
  { unfold read_sign in Esign. destruct s as [|c s']; [now injection Esign as _ <-|].
    destruct (Ascii.eqb c "-"); injection Esign as _ <-; cbn [String.length]; lia. }
  destruct (read_int s1) as [[ds s2]|] eqn:Eint; [|discriminate].
  assert (H2 : (String.length s2 < String.length s1)%nat).
  { unfold read_int in Eint. destruct s1 as [|c s']; [discriminate|].
    destruct (Ascii.eqb c "0"); [injection Eint as _ <-; cbn [String.length]; lia|].
    destruct (is_digit c) eqn:Ed; [|discriminate].
    cbn [take_digits] in Eint. rewrite Ed in Eint.
    destruct (take_digits s') as [ds' r'] eqn:E. injection Eint as _ <-.
    apply take_digits_length in E. cbn [String.length]. lia. }
  destruct (read_frac s2) as [[fs s3]|] eqn:Efrac; [|discriminate].
  assert (H3 : (String.length s3 <= String.length s2)%nat).
  { unfold read_frac in Efrac. destruct s2 as [|c s']; [now injection Efrac as _ <-|].
    destruct (Ascii.eqb c ".").
    - destruct (take_digits s') as [fs' r'] eqn:E.
      destruct (is_empty fs'); [discriminate|]. injection Efrac as _ <-.
      apply take_digits_length in E. cbn [String.length]. lia.
    - now injection Efrac as _ <-. }
  destruct (read_exp s3) as [[ex r]|] eqn:Eexp; [|discriminate].
  assert (H4 : (String.length r <= String.length s3)%nat).
  { unfold read_exp in Eexp. destruct s3 as [|c s']; [now injection Eexp as _ <-|].
    destruct (Ascii.eqb c "e" || Ascii.eqb c "E"); [|now injection Eexp as _ <-].
    destruct (read_exp_sign s') as [eneg s''] eqn:Es.
    assert (Ht : (String.length s'' <= String.length s')%nat).
    { unfold read_exp_sign in Es. destruct s' as [|d t]; [now injection Es as _ <-|].
      destruct (Ascii.eqb d "-"); [injection Es as _ <-; cbn [String.length]; lia|].
      destruct (Ascii.eqb d "+"); injection Es as _ <-; cbn [String.length]; lia. }
    destruct (take_digits s'') as [es r'] eqn:E.
    destruct (is_empty es); [discriminate|]. injection Eexp as _ <-.
    apply take_digits_length in E. cbn [String.length]. lia. }
  intros [= _ <-]. lia.
Qed.


Lemma startsWith_length (pre s : string) :
  startsWith s pre = true ->
  (String.length (drop_str (String.length pre) s) + String.length pre
   = String.length s)%nat.
Proof.
  revert s. induction pre as [|a pre IH]; intros s H.
  - cbn [String.length drop_str]. destruct s; cbn [drop_str]; lia.
  - destruct s as [|b s]; cbn [startsWith] in H; [discriminate|].
    apply andb_prop in H as [_ H]. cbn [String.length drop_str].
    specialize (IH s H). lia.
Qed.

(** A successful parse consumes at least one character. *)
Lemma parse_consumes (fuel : nat) :
  (forall s v rest, parse_value fuel s = Some (v, rest) ->
     (String.length rest < String.length s)%nat)
  /\ (forall s acc v rest, parse_elems fuel s acc = Some (v, rest) ->
        (String.length rest < String.length s)%nat)
  /\ (forall s acc v rest, parse_members fuel s acc = Some (v, rest) ->
        (String.length rest < String.length s)%nat).
Proof.
  induction fuel as [|fuel (IHv & IHe & IHm)]; [repeat split; discriminate|].
  repeat split.
  - intros s v rest. cbn [parse_value].
    pose proof (skip_ws_length s) as Hws.
    destruct (skip_ws s) as [|c r]; [discriminate|]. cbn [String.length] in Hws.
    destruct (Ascii.eqb c "[").
    { pose proof (skip_ws_length r) as Hr.
      destruct (skip_ws r) as [|d r']; [discriminate|]. cbn [String.length] in Hr.
      destruct (Ascii.eqb d "]"); [intros [= _ <-]; lia|].
      intros H. apply IHe in H. lia. }
    destruct (Ascii.eqb c "{").
    { pose proof (skip_ws_length r) as Hr.
      destruct (skip_ws r) as [|d r']; [discriminate|]. cbn [String.length] in Hr.
      destruct (Ascii.eqb d "}"); [intros [= _ <-]; lia|].
      intros H. apply IHm in H. lia. }
    destruct (Ascii.eqb c quote_char).
    { destruct (parse_string r) as [[str r']|] eqn:E; [|discriminate].
      intros [= _ <-]. apply parse_string_length in E. lia. }
    destruct (startsWith (String c r) "true") eqn:Et.
    { intros H. apply (startsWith_length "true") in Et.
      assert (Hrest : rest = drop_str 4 (String c r)) by congruence.
      rewrite Hrest. cbn [String.length] in *. lia. }
    destruct (startsWith (String c r) "false") eqn:Ef.
    { intros H. apply (startsWith_length "false") in Ef.
      assert (Hrest : rest = drop_str 5 (String c r)) by congruence.
      rewrite Hrest. cbn [String.length] in *. lia. }
    destruct (startsWith (String c r) "null") eqn:En.
    { intros H. apply (startsWith_length "null") in En.
      assert (Hrest : rest = drop_str 4 (String c r)) by congruence.
      rewrite Hrest. cbn [String.length] in *. lia. }
    destruct (parse_number (String c r)) as [[x r']|] eqn:E; [|discriminate].
    intros [= _ <-]. apply parse_number_length in E. cbn [String.length] in E. lia.
  - intros s acc v rest. cbn [parse_elems].
    destruct (parse_value fuel s) as [[v' r]|] eqn:E; [|discriminate].
    apply IHv in E. pose proof (skip_ws_length r) as Hr.
    destruct (skip_ws r) as [|c r']; [discriminate|]. cbn [String.length] in Hr.
    destruct (Ascii.eqb c ",").
    { intros H. apply IHe in H. lia. }
    destruct (Ascii.eqb c "]"); [|discriminate]. intros [= _ <-]. lia.
  - intros s acc v rest. cbn [parse_members].
    pose proof (skip_ws_length s) as Hws.
    destruct (skip_ws s) as [|q r]; [discriminate|]. cbn [String.length] in Hws.
    destruct (Ascii.eqb q quote_char); [|discriminate].
    destruct (parse_string r) as [[k r1]|] eqn:Ek; [|discriminate].
    apply parse_string_length in Ek. pose proof (skip_ws_length r1) as Hr1.
    destruct (skip_ws r1) as [|c r2]; [discriminate|]. cbn [String.length] in Hr1.
    destruct (Ascii.eqb c ":"); [|discriminate].
    destruct (parse_value fuel r2) as [[v' r3]|] eqn:E; [|discriminate].
    apply IHv in E. pose proof (skip_ws_length r3) as Hr3.
    destruct (skip_ws r3) as [|d r4]; [discriminate|]. cbn [String.length] in Hr3.
    destruct (Ascii.eqb d ",").
    { intros H. apply IHm in H. lia. }
    destruct (Ascii.eqb d "}"); [|discriminate]. intros [= _ <-]. lia.
Qed.

(** With fuel above twice the length of the text, more fuel changes
    nothing. *)
Lemma parse_fuel_enough (fuel : nat) :
  (forall s fuel', (2 * String.length s + 1 <= fuel)%nat -> (fuel <= fuel')%nat ->
     parse_value fuel' s = parse_value fuel s)
  /\ (forall s acc fuel', (2 * String.length s + 2 <= fuel)%nat -> (fuel <= fuel')%nat ->
        parse_elems fuel' s acc = parse_elems fuel s acc)
  /\ (forall s acc fuel', (2 * String.length s + 2 <= fuel)%nat -> (fuel <= fuel')%nat ->
        parse_members fuel' s acc = parse_members fuel s acc).
Proof.
  induction fuel as [|fuel (IHv & IHe & IHm)]; [repeat split; intros; lia|].
  repeat split.
  - intros s [|fuel'] Hs Hle; [lia|]. cbn [parse_value].
    pose proof (skip_ws_length s) as Hws.
    destruct (skip_ws s) as [|c r]; [reflexivity|]. cbn [String.length] in Hws.
    destruct (Ascii.eqb c "[").
    { destruct (skip_ws r) as [|d r']; [reflexivity|].
      destruct (Ascii.eqb d "]"); [reflexivity|]. apply IHe; lia. }
    destruct (Ascii.eqb c "{").
    { destruct (skip_ws r) as [|d r']; [reflexivity|].
      destruct (Ascii.eqb d "}"); [reflexivity|]. apply IHm; lia. }
    reflexivity.
  - intros s acc [|fuel'] Hs Hle; [lia|]. cbn [parse_elems].
    rewrite (IHv s fuel') by lia.
    destruct (parse_value fuel s) as [[v r]|] eqn:E; [|reflexivity].
    apply (proj1 (parse_consumes fuel)) in E. pose proof (skip_ws_length r) as Hr.
    destruct (skip_ws r) as [|c r']; [reflexivity|]. cbn [String.length] in Hr.
    destruct (Ascii.eqb c ","); [|reflexivity]. apply IHe; lia.
  - intros s acc [|fuel'] Hs Hle; [lia|]. cbn [parse_members].
    pose proof (skip_ws_length s) as Hws.
    destruct (skip_ws s) as [|q r]; [reflexivity|]. cbn [String.length] in Hws.
    destruct (Ascii.eqb q quote_char); [|reflexivity].
    destruct (parse_string r) as [[k r1]|] eqn:Ek; [|reflexivity].
    apply parse_string_length in Ek. pose proof (skip_ws_length r1) as Hr1.
    destruct (skip_ws r1) as [|c r2]; [reflexivity|]. cbn [String.length] in Hr1.
    destruct (Ascii.eqb c ":"); [|reflexivity].
    rewrite (IHv r2 fuel') by lia.
    destruct (parse_value fuel r2) as [[v r3]|] eqn:E; [|reflexivity].
    apply (proj1 (parse_consumes fuel)) in E. pose proof (skip_ws_length r3) as Hr3.
    destruct (skip_ws r3) as [|d r4]; [reflexivity|]. cbn [String.length] in Hr3.
    destruct (Ascii.eqb d ","); [|reflexivity]. apply IHm; lia.
Qed.

(** The fuel of [JSON_parse] is enough: with any more, the parse of the
    text is the same. *)
Lemma JSON_parse_fuel (s : string) (fuel : nat) :
  (2 * String.length s + 2 <= fuel)%nat ->
  parse_value fuel s = parse_value (2 * String.length s + 2) s.
Proof. intros H. apply (proj1 (parse_fuel_enough _)); lia. Qed.

(** ** The argument parser *)

Lemma startsWith_split (pre s : string) :
  startsWith s pre = true -> s = pre +:+ drop_str (String.length pre) s.
Proof.
  revert s. induction pre as [|a pre IH]; intros s H; [reflexivity|].
  destruct s as [|b s]; cbn [startsWith] in H; [discriminate|].
  apply andb_prop in H as [Hab H]. apply Ascii.eqb_eq in Hab as ->.
  change (String b s = String b (pre +:+ drop_str (String.length pre) s)).
  f_equal. now apply IH.
Qed.

Lemma startsWith_dashes (s : string) :
  startsWith s "--" = true -> startsWith s "-" = true.
Proof.
  destruct s as [|a s]; cbn [startsWith]; [discriminate|].
  intros H. apply andb_prop in H as [-> _]. now destruct s.
Qed.

(** One turn of the loop at the position where [prefix] ends is one step
    of [parse_tokens] on what remains. *)
Lemma loop_parse_tokens (fuel : nat) :
  forall (prefix rest : list string) (r : ParsedArgs),
    (length rest <= fuel)%nat ->
    loop fuel (prefix ++ rest) (length prefix) r = parse_tokens rest r.
Proof.
  induction fuel as [|fuel IH]; intros prefix rest r Hlen.
  - destruct rest; [reflexivity|simpl in Hlen; lia].
  - destruct rest as [|arg rest].
    + simpl. rewrite app_nil_r.
      now rewrite (lookup_ge_None_2 prefix (length prefix)) by lia.
    + cbn [loop parse_tokens].
      rewrite lookup_app_r, Nat.sub_diag by lia. cbn [lookup list_lookup].
      unfold loop_body.
      assert (Hnext : (prefix ++ arg :: rest) !! (length prefix + 1)%nat = rest !! 0%nat).
      { rewrite lookup_app_r by lia. now replace (length prefix + 1 - length prefix)%nat with 1%nat by lia. }
      rewrite Hnext.
      assert (E1 : prefix ++ arg :: rest = (prefix ++ [arg]) ++ rest)
        by now rewrite <- app_assoc.
      assert (E2 : S (length prefix) = length (prefix ++ [arg]))
        by (rewrite length_app; simpl; lia).
      simpl in Hlen.
      destruct (startsWith arg "--").
      * destruct (is_boolean_flag (drop_str 2 arg)).
        { rewrite E1, E2. apply IH. lia. }
        destruct rest as [|next rest'].
        { cbn [lookup list_lookup takes_value]. rewrite E1, E2. apply IH. simpl. lia. }
        cbn [lookup list_lookup default].
        destruct (takes_value (Some next)).
        { replace (prefix ++ arg :: next :: rest') with ((prefix ++ [arg; next]) ++ rest')
            by now rewrite <- app_assoc.
          replace (S (length prefix + 1)) with (length (prefix ++ [arg; next]))
            by (rewrite length_app; simpl; lia).
          apply IH. simpl in Hlen. lia. }
        rewrite E1, E2. apply IH. lia.
      * destruct (startsWith arg "-"); rewrite E1, E2; apply IH; lia.
Qed.

(** [parseArgs] is the reading of the tokens from the left; in particular
    the fuel of its loop is never exhausted. *)
Lemma parseArgs_parse_tokens (args : list string) :
  parseArgs args = parse_tokens args empty_result.
Proof. unfold parseArgs. now apply (loop_parse_tokens (length args) [] args). Qed.

Lemma parse_tokens_parses (n : nat) :
  forall (tokens : list string) (r : ParsedArgs),
    (length tokens <= n)%nat ->
    parses nonempty_no_dash tokens r (parse_tokens tokens r).
Proof.
  induction n as [|n IH]; intros tokens r Hlen.
  - destruct tokens; [constructor|simpl in Hlen; lia].
  - destruct tokens as [|arg rest]; [constructor|].
    simpl in Hlen. cbn [parse_tokens].
    destruct (startsWith arg "--") eqn:Hlong.
    + rewrite (startsWith_split "--" arg Hlong) at 1. cbn [String.length].
      destruct (is_boolean_flag (drop_str 2 arg)) eqn:Hbool.
      { apply parses_boolean; [assumption|]. apply IH. lia. }
      destruct rest as [|next rest'].
      { apply parses_flag_last; [assumption|]. apply IH. simpl. lia. }
      destruct (takes_value (Some next)) eqn:Hval.
      { apply parses_option; [assumption|exact Hval|]. apply IH. simpl in Hlen. lia. }
      apply parses_flag_before; [assumption|exact Hval|]. apply IH. lia.
    + destruct (startsWith arg "-") eqn:Hshort.
      * apply parses_short; [assumption|assumption|]. apply IH. lia.
      * apply parses_positional; [assumption|]. apply IH. lia.
Qed.


Lemma long_name_starts (name : string) : startsWith ("--" +:+ name) "--" = true.
Proof. now destruct name. Qed.

Lemma long_name_drop (name : string) : drop_str 2 ("--" +:+ name) = name.
Proof. reflexivity. Qed.


(** What an assignment stores: a property of the given name, unless the
    name is [__proto__]. *)
Lemma set_flag_own (k : string) (r : ParsedArgs) :
  k <> "__proto__" ->
  set_flag k r = mkParsedArgs (positional r) (<[k := VTrue]> (flags r)) (options r).
Proof. intros H. unfold set_flag. apply String.eqb_neq in H. now rewrite H. Qed.

Lemma set_option_own (k : string) (v : value) (r : ParsedArgs) :
  k <> "__proto__" ->
  set_option k v r = mkParsedArgs (positional r) (flags r) (<[k := v]> (options r)).
Proof. intros H. unfold set_option. apply String.eqb_neq in H. now rewrite H. Qed.

Lemma set_flag_rest (k : string) (r : ParsedArgs) :
  positional (set_flag k r) = positional r /\ options (set_flag k r) = options r.
Proof. unfold set_flag. now destruct (String.eqb k "__proto__"). Qed.

Lemma set_option_rest (k : string) (v : value) (r : ParsedArgs) :
  positional (set_option k v r) = positional r /\ flags (set_option k v r) = flags r.
Proof. unfold set_option. now destruct (String.eqb k "__proto__"). Qed.





(** Reading may be cut before any token that is not taken as a value. *)
Lemma parse_tokens_app (n : nat) :
  forall (pre rest : list string) (r : ParsedArgs),
    (length pre <= n)%nat ->
    takes_value (head rest) = false ->
    parse_tokens (pre ++ rest) r = parse_tokens rest (parse_tokens pre r).
Proof.
  induction n as [|n IH]; intros pre rest r Hlen Hrest.
  - destruct pre; [reflexivity|simpl in Hlen; lia].
  - destruct pre as [|arg pre]; [reflexivity|].
    simpl in Hlen. cbn [app parse_tokens].
    destruct (startsWith arg "--").
    + destruct (is_boolean_flag (drop_str 2 arg)).
      { apply IH; [lia|assumption]. }
      destruct pre as [|next pre'].
      { cbn [app parse_tokens]. destruct rest as [|t rest']; [reflexivity|].
        cbn [head] in Hrest. now rewrite Hrest. }
      cbn [app]. destruct (takes_value (Some next)).
      * apply IH; [simpl in Hlen; lia|assumption].
      * apply (IH (next :: pre')); [lia|assumption].
    + destruct (startsWith arg "-"); apply IH; (lia || assumption).
Qed.

Lemma dash_not_value (t : string) :
  startsWith t "-" = true -> takes_value (Some t) = false.
Proof. intros H. unfold takes_value. rewrite H. now destruct (is_empty t). Qed.

(** A token that starts with a dash, read on its own, records no option. *)
Lemma parse_dash_token_options (t : string) (r : ParsedArgs) :
  startsWith t "-" = true -> options (parse_tokens [t] r) = options r.
Proof.
  intros H. cbn [parse_tokens]. rewrite H.
  destruct (startsWith t "--"); [destruct (is_boolean_flag _)|];
    apply (proj2 (set_flag_rest _ _)).
Qed.

(** *** What is recorded, and from which token *)

Lemma parse_tokens_reads (tokens : list string) (r : ParsedArgs) :
  parses nonempty_no_dash tokens r (parse_tokens tokens r).
Proof. now apply (parse_tokens_parses (length tokens)). Qed.

Lemma short_name_split (arg : string) :
  startsWith arg "--" = false -> startsWith arg "-" = true ->
  arg = "-" +:+ drop_str 1 arg /\ startsWith (drop_str 1 arg) "-" = false.
Proof.
  intros Hlong Hshort. pose proof (startsWith_split "-" arg Hshort) as E.
  cbn [String.length] in E. split; [exact E|].
  rewrite E in Hlong. change ("-" +:+ drop_str 1 arg) with (String "-" (drop_str 1 arg)) in Hlong.
  cbn [startsWith] in Hlong. exact Hlong.
Qed.

Lemma flags_set_flag (name k : string) (r : ParsedArgs) (v : value) :
  flags (set_flag name r) !! k = Some v ->
  flags r !! k = Some v \/ (name = k /\ v = VTrue).
Proof.
  unfold set_flag. destruct (String.eqb name "__proto__"); [now left|].
  cbn [flags]. destruct (decide (name = k)) as [->|Hne].
  - rewrite lookup_insert_eq. intros [= <-]. now right.
  - rewrite lookup_insert_ne by exact Hne. now left.
Qed.

Lemma options_set_option (name k : string) (v0 : value) (r : ParsedArgs) (v : value) :
  options (set_option name v0 r) !! k = Some v ->
  options r !! k = Some v \/ (name = k /\ v = v0).
Proof.
  unfold set_option. destruct (String.eqb name "__proto__"); [now left|].
  cbn [options]. destruct (decide (name = k)) as [->|Hne].
  - rewrite lookup_insert_eq. intros [= <-]. now right.
  - rewrite lookup_insert_ne by exact Hne. now left.
Qed.

(** Every flag in the result was there before, or was set to [true] for a
    token of the sequence that names it. *)
Lemma parses_flags (tokens : list string) (r r' : ParsedArgs) :
  parses nonempty_no_dash tokens r r' ->
  forall k v, flags r' !! k = Some v ->
    flags r !! k = Some v
    \/ (v = VTrue
        /\ (In ("--" +:+ k) tokens
            \/ (In ("-" +:+ k) tokens /\ startsWith k "-" = false))).
Proof.
  induction 1 as [r|name rest r r' Hb _ IH|name next rest r r' Hb Hv _ IH
                  |name r r' Hb _ IH|name next rest r r' Hb Hv _ IH
                  |arg rest r r' Hl Hs _ IH|arg rest r r' Hs _ IH];
    intros k v Hk; [now left|..];
    destruct (IH k v Hk) as [Hold|(-> & Hin)];
    try (right; split; [reflexivity|];
         destruct Hin as [Hin|[Hin Hd]]; [left|right; split; [|exact Hd]];
         cbn [In]; tauto).
  - destruct (flags_set_flag _ _ _ _ Hold) as [H|[-> ->]]; [now left|].
    right. split; [reflexivity|]. left. now left.
  - rewrite (proj2 (set_option_rest _ _ _)) in Hold. now left.
  - destruct (flags_set_flag _ _ _ _ Hold) as [H|[-> ->]]; [now left|].
    right. split; [reflexivity|]. left. now left.
  - destruct (flags_set_flag _ _ _ _ Hold) as [H|[-> ->]]; [now left|].
    right. split; [reflexivity|]. left. now left.
  - destruct (flags_set_flag _ _ _ _ Hold) as [H|[<- ->]]; [now left|].
    destruct (short_name_split arg Hl Hs) as [E Hd].
    right. split; [reflexivity|]. right. split; [left; exact E|exact Hd].
  - now left.
Qed.

(** Every option in the result was there before, or is the value read
    from the token that follows its name. *)
Lemma parses_options (tokens : list string) (r r' : ParsedArgs) :
  parses nonempty_no_dash tokens r r' ->
  forall k v, options r' !! k = Some v ->
    options r !! k = Some v
    \/ (is_boolean_flag k = false
        /\ exists pre next post,
            tokens = pre ++ ("--" +:+ k) :: next :: post
            /\ takes_value (Some next) = true
            /\ v = json_or_raw next).
Proof.
  induction 1 as [r|name rest r r' Hb _ IH|name next rest r r' Hb Hv _ IH
                  |name r r' Hb _ IH|name next rest r r' Hb Hv _ IH
                  |arg rest r r' Hl Hs _ IH|arg rest r r' Hs _ IH];
    intros k v Hk; [now left|..];
    destruct (IH k v Hk) as [Hold|(Hbk & pre & nx & post & -> & Hnx & ->)];
    try (rewrite (proj2 (set_flag_rest _ _)) in Hold);
    try (now left);
    try (right; split; [exact Hbk|];
         first [ exists (("--" +:+ name) :: pre), nx, post
               | exists (arg :: pre), nx, post ];
         now repeat split).
  - destruct (options_set_option _ _ _ _ _ Hold) as [H|[-> ->]]; [now left|].
    right. split; [exact Hb|]. exists [], next, rest. now repeat split.
  - right. split; [exact Hbk|].
    exists (("--" +:+ name) :: next :: pre), nx, post. now repeat split.
Qed.

Lemma flags_set_flag_keeps (name k : string) (r : ParsedArgs) :
  flags r !! k = Some VTrue -> flags (set_flag name r) !! k = Some VTrue.
Proof.
  intros H. unfold set_flag. destruct (String.eqb name "__proto__"); [exact H|].
  cbn [flags]. destruct (decide (name = k)) as [->|Hne];
    [now rewrite lookup_insert_eq|now rewrite lookup_insert_ne by exact Hne].
Qed.

Lemma options_set_option_keeps (name k : string) (v : value) (r : ParsedArgs) :
  is_Some (options r !! k) -> is_Some (options (set_option name v r) !! k).
Proof.
  intros H. unfold set_option. destruct (String.eqb name "__proto__"); [exact H|].
  cbn [options]. destruct (decide (name = k)) as [->|Hne];
    [rewrite lookup_insert_eq; eauto|now rewrite lookup_insert_ne by exact Hne].
Qed.

(** What is recorded stays recorded while the rest is read. *)
Lemma parses_keeps (tokens : list string) (r r' : ParsedArgs) :
  parses nonempty_no_dash tokens r r' ->
  (forall k, flags r !! k = Some VTrue -> flags r' !! k = Some VTrue)
  /\ (forall k, is_Some (options r !! k) -> is_Some (options r' !! k)).
Proof.
  induction 1 as [r|name rest r r' Hb _ IH|name next rest r r' Hb Hv _ IH
                  |name r r' Hb _ IH|name next rest r r' Hb Hv _ IH
                  |arg rest r r' Hl Hs _ IH|arg rest r r' Hs _ IH];
    [now split|..]; destruct IH as [IHf IHo]; split; intros k Hk;
    first [apply IHf|apply IHo];
    rewrite ?(proj2 (set_flag_rest _ _)), ?(proj2 (set_option_rest _ _ _));
    try exact Hk;
    first [now apply flags_set_flag_keeps|now apply options_set_option_keeps].
Qed.

Lemma flag_set_kept (tokens : list string) (k : string) (r r' : ParsedArgs) :
  k <> "__proto__" ->
  parses nonempty_no_dash tokens (set_flag k r) r' -> flags r' !! k = Some VTrue.
Proof.
  intros Hk H. apply (proj1 (parses_keeps _ _ _ H)).
  rewrite (set_flag_own k r Hk). cbn [flags]. now rewrite lookup_insert_eq.
Qed.

Lemma option_set_kept (tokens : list string) (k : string) (v : value) (r r' : ParsedArgs) :
  k <> "__proto__" ->
  parses nonempty_no_dash tokens (set_option k v r) r' -> is_Some (options r' !! k).
Proof.
  intros Hk H. apply (proj2 (parses_keeps _ _ _ H)).
  rewrite (set_option_own k v r Hk). cbn [options]. rewrite lookup_insert_eq. eauto.
Qed.

Lemma long_name_proto (name : string) :
  ~ In ("--" +:+ name) ["--__proto__"; "-__proto__"] -> name <> "__proto__".
Proof. intros H ->. apply H. now left. Qed.

Lemma short_name_proto (arg : string) :
  startsWith arg "--" = false -> startsWith arg "-" = true ->
  ~ In arg ["--__proto__"; "-__proto__"] -> drop_str 1 arg <> "__proto__".
Proof.
  intros Hl Hs H E. destruct (short_name_split arg Hl Hs) as [Ea _].
  rewrite E in Ea. apply H. right. left. now rewrite Ea.
Qed.

(** Every token that starts with a dash is read as a name and recorded,
    unless the name is [__proto__]. *)
Lemma parses_records (tokens : list string) (r r' : ParsedArgs) :
  parses nonempty_no_dash tokens r r' ->
  forall t, In t tokens -> ~ In t ["--__proto__"; "-__proto__"] ->
    (startsWith t "--" = true ->
     flags r' !! drop_str 2 t = Some VTrue \/ is_Some (options r' !! drop_str 2 t))
    /\ (startsWith t "--" = false -> startsWith t "-" = true ->
        flags r' !! drop_str 1 t = Some VTrue).
Proof.
  induction 1 as [r|name rest r r' Hb Hsub IH|name next rest r r' Hb Hv Hsub IH
                  |name r r' Hb Hsub IH|name next rest r r' Hb Hv Hsub IH
                  |arg rest r r' Hl Hs Hsub IH|arg rest r r' Hs Hsub IH];
    intros t Hin Hown; [destruct Hin|..].
  - destruct Hin as [<-|Hin]; [|now apply IH].
    split; [intros _|intros Hn; now rewrite long_name_starts in Hn].
    rewrite long_name_drop. left.
    exact (flag_set_kept _ _ _ _ (long_name_proto _ Hown) Hsub).
  - destruct Hin as [<-|[<-|Hin]]; [| |now apply IH].
    + split; [intros _|intros Hn; now rewrite long_name_starts in Hn].
      rewrite long_name_drop. right.
      exact (option_set_kept _ _ _ _ _ (long_name_proto _ Hown) Hsub).
    + unfold nonempty_no_dash in Hv. apply andb_prop in Hv as [_ Hv].
      apply negb_true_iff in Hv.
      split; [intros Hl; now rewrite (startsWith_dashes _ Hl) in Hv|intros _ Hs; congruence].
  - destruct Hin as [<-|[]].
    split; [intros _|intros Hn; now rewrite long_name_starts in Hn].
    rewrite long_name_drop. left.
    exact (flag_set_kept _ _ _ _ (long_name_proto _ Hown) Hsub).
  - destruct Hin as [<-|Hin]; [|now apply IH].
    split; [intros _|intros Hn; now rewrite long_name_starts in Hn].
    rewrite long_name_drop. left.
    exact (flag_set_kept _ _ _ _ (long_name_proto _ Hown) Hsub).
  - destruct Hin as [<-|Hin]; [|now apply IH].
    split; [intros Hl'; congruence|intros _ _].
    exact (flag_set_kept _ _ _ _ (short_name_proto _ Hl Hs Hown) Hsub).
  - destruct Hin as [<-|Hin]; [|now apply IH].
    split; [intros Hl; now rewrite (startsWith_dashes _ Hl) in Hs|intros _ Hs'; congruence].
Qed.

(** The positional arguments are tokens of the sequence, in their order. *)
Lemma parses_positional_sublist (tokens : list string) (r r' : ParsedArgs) :
  parses nonempty_no_dash tokens r r' ->
  exists ps, positional r' = positional r ++ ps
             /\ sublist ps tokens
             /\ Forall (fun t => startsWith t "-" = false) ps.
Proof.
  induction 1 as [r|name rest r r' Hb _ IH|name next rest r r' Hb Hv _ IH
                  |name r r' Hb _ IH|name next rest r r' Hb Hv _ IH
                  |arg rest r r' Hl Hs _ IH|arg rest r r' Hs _ IH].
  - exists []. rewrite app_nil_r. repeat split; constructor.
  - destruct IH as (ps & E & Hsub & Hall). rewrite (proj1 (set_flag_rest _ _)) in E.
    exists ps. repeat split; try assumption. now apply sublist_cons.
  - destruct IH as (ps & E & Hsub & Hall). rewrite (proj1 (set_option_rest _ _ _)) in E.
    exists ps. repeat split; try assumption. now do 2 apply sublist_cons.
  - destruct IH as (ps & E & Hsub & Hall). rewrite (proj1 (set_flag_rest _ _)) in E.
    exists ps. repeat split; try assumption. now apply sublist_cons.
  - destruct IH as (ps & E & Hsub & Hall). rewrite (proj1 (set_flag_rest _ _)) in E.
    exists ps. repeat split; try assumption. now apply sublist_cons.
  - destruct IH as (ps & E & Hsub & Hall). rewrite (proj1 (set_flag_rest _ _)) in E.
    exists ps. repeat split; try assumption. now apply sublist_cons.
  - destruct IH as (ps & E & Hsub & Hall). exists (arg :: ps).
    cbn [push_positional positional] in E. rewrite <- app_assoc in E.
    repeat split; [exact E|now apply sublist_skip|now constructor].
Qed.

Lemma parse_tokens_plain (tokens : list string) :
  Forall (fun t => startsWith t "-" = false) tokens ->
  forall r, parse_tokens tokens r
            = mkParsedArgs (positional r ++ tokens) (flags r) (options r).
Proof.
  induction 1 as [|t tokens Ht _ IH]; intros r.
  - rewrite app_nil_r. now destruct r.
  - cbn [parse_tokens]. rewrite Ht.
    destruct (startsWith t "--") eqn:Hl; [now rewrite (startsWith_dashes _ Hl) in Ht|].
    rewrite IH. cbn [push_positional positional flags options].
    now rewrite <- app_assoc.
Qed.

(** A name that no later token carries keeps its option. *)
Lemma parses_options_absent (k : string) (tokens : list string) (r r' : ParsedArgs) :
  parses nonempty_no_dash tokens r r' ->
  ~ In ("--" +:+ k) tokens -> options r' !! k = options r !! k.
Proof.
  induction 1 as [r|name rest r r' Hb _ IH|name next rest r r' Hb Hv _ IH
                  |name r r' Hb _ IH|name next rest r r' Hb Hv _ IH
                  |arg rest r r' Hl Hs _ IH|arg rest r r' Hs _ IH];
    intros Hnot; [reflexivity|..];
    try (rewrite IH by (cbn [In] in Hnot; tauto);
         rewrite ?(proj2 (set_flag_rest _ _)); reflexivity).
  rewrite IH by (cbn [In] in Hnot; tauto).
  unfold set_option. destruct (String.eqb name "__proto__"); [reflexivity|].
  cbn [options]. apply lookup_insert_ne.
  intros ->. apply Hnot. now left.
Qed.







(** ** [parseSort] *)

Lemma split_no_sep (sep : ascii) (s : string) :
  all_chars (fun c => negb (Ascii.eqb c sep)) s = true -> split sep s = [s].
Proof.
  induction s as [|c s IH]; [reflexivity|].
  cbn [all_chars split]. intros H. apply andb_prop in H as [Hc Hs].
  apply negb_true_iff in Hc. rewrite Hc, (IH Hs). reflexivity.
Qed.

Lemma split_app_sep (sep : ascii) (f rest : string) :
  all_chars (fun c => negb (Ascii.eqb c sep)) f = true ->
  split sep (f +:+ String sep rest) = f :: split sep rest.
Proof.
  induction f as [|c f IH]; intros H.
  - change (split sep (String sep rest) = EmptyString :: split sep rest).
    cbn [split]. now rewrite Ascii.eqb_refl.
  - cbn [all_chars] in H. apply andb_prop in H as [Hc Hf].
    apply negb_true_iff in Hc.
    change (split sep (String c (f +:+ String sep rest)) = String c f :: split sep rest).
    cbn [split]. rewrite Hc, (IH Hf). reflexivity.
Qed.

(** C6, amended: for every order-by argument and every sort option,
    [parseSort] returns the order-by argument unchanged when it is truthy
    (as every array is); otherwise it returns [undefined] when the sort
    option is absent or otherwise falsy (the empty string); otherwise,
    for a sort option that is a string of ASCII characters, it splits the
    string on [:], takes the first part as the field and the second, in
    upper case, as the direction, [DESC] when that part is missing or
    empty, and returns [[{field, direction}]]: a bare [field] (ASCII or
    not) gives [field] and [DESC], and [field:direction] with an ASCII
    direction gives [field] and the direction in upper case.  In particular
    [parseSort('value_usd:asc', undefined)] is
    [[{field:'value_usd', direction:'ASC'}]] and
    [parseSort('timestamp', undefined)] is
    [[{field:'timestamp', direction:'DESC'}]]. *)
Theorem parseSort_cases (sortOption orderByOption : value) :
  (truthy orderByOption = true ->
   parseSort sortOption orderByOption = Ok orderByOption)
  /\ (truthy orderByOption = false -> truthy sortOption = false ->
      parseSort sortOption orderByOption = Ok VUndefined)
  /\ (forall s, truthy orderByOption = false -> sortOption = VStr s -> is_empty s = false ->
      is_ascii s = true ->
      parseSort sortOption orderByOption
      = Ok (sort_order (nth 0 (split ":" s) EmptyString)
              (toUpperCase (match split ":" s !! 1 with
                            | Some d => if is_empty d then "desc" else d
                            | None => "desc"
                            end))))
  /\ (forall s, truthy orderByOption = false -> sortOption = VStr s -> is_empty s = false ->
      no_colon s = true ->
      parseSort sortOption orderByOption = Ok (sort_order s "DESC"))
  /\ (forall f d, truthy orderByOption = false -> sortOption = VStr (f +:+ ":" +:+ d) ->
      no_colon f = true -> no_colon d = true -> is_ascii d = true ->
      parseSort sortOption orderByOption
      = Ok (sort_order f (if is_empty d then "DESC" else toUpperCase d)))
  /\ parseSort (VStr "value_usd:asc") VUndefined = Ok (sort_order "value_usd" "ASC")
  /\ parseSort (VStr "timestamp") VUndefined = Ok (sort_order "timestamp" "DESC").
Proof.
  split; [|split; [|split; [|split; [|split; [|split]]]]].
  - intros H. unfold parseSort. now rewrite H.
  - intros H1 H2. unfold parseSort. now rewrite H1, H2.
  - intros s H1 -> Hs _. unfold parseSort. rewrite H1. cbn [truthy]. rewrite Hs.
    reflexivity.
  - intros s H1 -> Hs Hc. unfold parseSort. rewrite H1. cbn [truthy]. rewrite Hs.
    cbn [negb]. unfold sort_entry. rewrite (split_no_sep ":" s Hc). reflexivity.
  - intros f d H1 -> Hf Hd _. unfold parseSort. rewrite H1.
    assert (Hne : is_empty (f +:+ ":" +:+ d) = false) by now destruct f.
    cbn [truthy]. rewrite Hne. cbn [negb]. unfold sort_entry.
    change (f +:+ ":" +:+ d) with (f +:+ String ":" d).
    rewrite (split_app_sep ":" f d Hf), (split_no_sep ":" d Hd).
    cbn [nth lookup list_lookup]. unfold sort_order.
    now destruct (is_empty d).
  - reflexivity.
  - reflexivity.
Qed.

(** [parseSort('volume:desc', undefined)], by the case of [field:direction]. *)
Lemma parseSort_cases_witness :
  parseSort (VStr "volume:desc") VUndefined = Ok (sort_order "volume" "DESC").
Proof.
  exact (proj1 (proj2 (proj2 (proj2 (proj2 (parseSort_cases (VStr "volume:desc") VUndefined)))))
           "volume" "desc" eq_refl eq_refl eq_refl eq_refl eq_refl).
Defined.

(** C6 as stated fails on a sort option that is not a string: [--sort 5]
    is parsed to the number 5, which is neither absent nor a string to
    split, and [parseSort(5, undefined)] throws instead of returning. *)
Lemma parseSort_number_throws :
  options (parseArgs ["token"; "screener"; "--sort"; "5"]) !! "sort" = Some (VInt 5)
  /\ parseSort (VInt 5) VUndefined = Throw (TypeError "sortOption.split is not a function").
Proof. split; vm_compute; reflexivity. Qed.

(** ** The family handlers *)

(** C5, amended: when the value that [options.limit] reads is truthy, the
    smart-money and token handlers put [{page: 1, per_page: limit}] in the
    [pagination] field of every request they send, and the profiler
    handler puts [{page: 1, recordsPerPage: limit}] in the [pagination]
    field of the request of each of its subcommands but [balance] and
    [pnl], whose requests have no such field, as those of the portfolio
    handler have none; when [options.limit] reads [undefined] or another
    falsy value (0, false, null), the [pagination] field is [undefined]
    wherever there is one.  In particular the smart-money netflow handler
    with [{chain:'ethereum', limit:10}] calls the API with
    [chains:['ethereum']], [filters:{}], [orderBy:undefined],
    [pagination:{page:1, per_page:10}]. *)
Theorem pagination_of_limit :
  (forall (f : family) (args : list string) (flags options : gmap string value)
          (method : string) (params : value),
      result (family_handler f args flags options) = Ok (Call method params) ->
      (has_field params "pagination" = true ->
       field params "pagination"
       = if truthy (get options "limit")
         then page_of (per_page_field f) (get options "limit") else VUndefined)
      /\ (truthy (get options "limit") = false -> field params "pagination" = VUndefined)
      /\ (f = SmartMoney \/ f = Token -> has_field params "pagination" = true)
      /\ (f = Profiler -> In (subcommand_of args) profiler_paginated ->
          has_field params "pagination" = true)
      /\ (f = Profiler -> In (subcommand_of args) profiler_unpaginated ->
          has_field params "pagination" = false)
      /\ (f = Portfolio -> has_field params "pagination" = false)
      /\ (f = Profiler -> In (subcommand_of args) profiler_paginated ->
          truthy (get options "limit") = true ->
          field params "pagination" = page_of "recordsPerPage" (get options "limit"))
      /\ (f = SmartMoney \/ f = Token -> truthy (get options "limit") = true ->
          field params "pagination" = page_of "per_page" (get options "limit")))
  /\ result (smart_money ["netflow"] ∅
               (<["chain" := VStr "ethereum"]> (<["limit" := VInt 10]> ∅)))
     = Ok (Call "smartMoneyNetflow"
             (obj [("chains", VArr [VStr "ethereum"]); ("filters", VObj []);
                   ("orderBy", VUndefined);
                   ("pagination", page_of "per_page" (VInt 10))])).
Proof.
  split; [|vm_compute; reflexivity].
  intros f args flags options method params H.
  assert (Hpage : forall per,
             resolve_pagination per options
             = if truthy (get options "limit")
               then page_of per (get options "limit") else VUndefined) by reflexivity.
  destruct f; handler_resolved H; handler_cases H;
    try discriminate H; injection H as <- <-;
    unfold field, has_field, get_opt, get_prop, obj;
    cbn [obj_get obj_has String.eqb Ascii.eqb Bool.eqb andb orb per_page_field];
    rewrite ?Hpage;
    repeat match goal with |- _ /\ _ => split end;
    try (intros; discriminate);
    try (intros [?|?]; discriminate);
    try (intros; reflexivity);
    try (intros _ Hf; now rewrite Hf);
    try (intros _ _ Hf; now rewrite Hf);
    try (intros Hf; now rewrite Hf);
    try (intros _ Hin; exfalso;
         match goal with
         | E : String.eqb ?name (subcommand_of args) = true |- _ =>
             apply String.eqb_eq in E; rewrite <- E in Hin; cbn in Hin;
             intuition discriminate
         end);
    try (intros _ Hin _; exfalso;
         match goal with
         | E : String.eqb ?name (subcommand_of args) = true |- _ =>
             apply String.eqb_eq in E; rewrite <- E in Hin; cbn in Hin;
             intuition discriminate
         end).
Qed.

(** [--limit 25] on [token holders] and on [profiler labels]. *)
Lemma pagination_of_limit_witness :
  field (obj [("tokenAddress", VUndefined); ("chain", VStr "solana"); ("filters", VObj []);
              ("orderBy", VUndefined); ("pagination", page_of "per_page" (VInt 25))])
    "pagination"
  = page_of "per_page" (VInt 25)
  /\ field (obj [("address", VUndefined); ("chain", VStr "ethereum");
                 ("pagination", page_of "recordsPerPage" (VInt 25))])
       "pagination"
     = page_of "recordsPerPage" (VInt 25).
Proof.
  split.
  - exact (proj1 (proj1 pagination_of_limit Token ["holders"] ∅ (<["limit" := VInt 25]> ∅)
                    "tokenHolders" _ eq_refl) eq_refl).
  - assert (Hres : result (family_handler Profiler ["labels"] ∅
                               (<["limit" := VInt 25]> ∅))
                     = Ok (Call "addressLabels"
                             (obj [("address", VUndefined); ("chain", VStr "ethereum");
                                   ("pagination",
                                    page_of "recordsPerPage" (VInt 25))])))
      by (vm_compute; reflexivity).
    destruct (proj1 pagination_of_limit _ _ _ _ _ _ Hres) as (_ & _ & _ & _ & _ & _ & H & _).
    apply H; [reflexivity|cbn; tauto|reflexivity].
Defined.

(** C5 as stated fails when the limit is zero: [--limit 0] is present and
    parsed to the number 0, and the request carries no pagination. *)
Lemma limit_zero_no_pagination :
  options (parseArgs ["smart-money"; "netflow"; "--limit"; "0"]) !! "limit" = Some (VInt 0)
  /\ result (smart_money ["netflow"] ∅ (<["limit" := VInt 0]> ∅))
     = Ok (Call "smartMoneyNetflow"
             (obj [("chains", VArr [VStr "solana"]); ("filters", VObj []);
                   ("orderBy", VUndefined); ("pagination", VUndefined)])).
Proof. split; vm_compute; reflexivity. Qed.

Lemma get_insert_ne (options : gmap string value) (k k' : string) (v : value) :
  k <> k' -> get (<[k := v]> options) k' = get options k'.
Proof. intros H. unfold get. now rewrite lookup_insert_ne. Qed.

(** The profiler handler throws exactly when the resolution of the sort
    order throws. *)
Lemma profiler_throws (args : list string) (flags options : gmap string value) (e : error) :
  result (profiler args flags options) = Throw e
  <-> parseSort (get options "sort") (get options "order-by") = Throw e.
Proof.
  unfold profiler. destruct (parseSort _ _); cbn [result]; split; congruence.
Qed.

(** Whether the token handler throws, and what, is decided by the options
    other than [k], for [k] one of [token] and [token-address]. *)
Lemma token_throws_insert (k : string) (args : list string)
    (flags options : gmap string value) (address : value) (e : error) :
  k = "token" \/ k = "token-address" ->
  result (token args flags (<[k := address]> options)) = Throw e
  <-> result (token args flags options) = Throw e.
Proof.
  intros Hk. unfold token.
  rewrite (get_insert_ne options k "sort"), (get_insert_ne options k "order-by"),
    (get_insert_ne options k "filters"), (get_insert_ne options k "smart-money")
    by (destruct Hk as [-> | ->]; discriminate).
  destruct (parseSort _ _); cbn [result]; [|reflexivity].
  destruct (truthy (or_else (or_else _ _) (VBool false))); cbn [result];
    [|split; discriminate].
  unfold write_filter.
  destruct (or_else (get options "filters") (VObj [])); cbn [result]; split; congruence.
Qed.

(** C1, amended: the profiler and token handlers do not look at the shape
    of an address.  For every address-taking subcommand, whenever the
    handler does not throw it ends in one call of the API instance, and
    the request carries the [--address] value (profiler) or the [--token]
    or [--token-address] value (token) as it was given; whether the
    handler throws does not depend on that value. *)
Theorem address_passed_unvalidated :
  (forall (args : list string) (flags options : gmap string value) (a : action),
      result (profiler args flags options) = Ok a ->
      In (subcommand_of args) profiler_address_subcommands ->
      exists method params,
        a = Call method params /\ field params "address" = get options "address")
  /\ (forall (args : list string) (flags options : gmap string value) (a : action),
      result (token args flags options) = Ok a ->
      In (subcommand_of args) token_address_subcommands ->
      exists method params,
        a = Call method params
        /\ field params "tokenAddress"
           = or_else (get options "token") (get options "token-address"))
  /\ (forall (args : list string) (flags options : gmap string value) (address : value)
             (e : error),
      result (profiler args flags (<["address" := address]> options)) = Throw e
      <-> result (profiler args flags options) = Throw e)
  /\ (forall (args : list string) (flags options : gmap string value) (address : value)
             (e : error),
      (result (token args flags (<["token" := address]> options)) = Throw e
       <-> result (token args flags options) = Throw e)
      /\ (result (token args flags (<["token-address" := address]> options)) = Throw e
          <-> result (token args flags options) = Throw e)).
Proof.
  split; [|split; [|split]].
  - intros args flags options a H Hin.
    handler_resolved H. injection H as <-.
    cbn [In profiler_address_subcommands] in Hin.
    repeat (destruct Hin as [<-|Hin]; [eexists _, _; split; reflexivity|]).
    destruct Hin.
  - intros args flags options a H Hin.
    handler_resolved H. injection H as <-.
    cbn [In token_address_subcommands] in Hin.
    repeat (destruct Hin as [<-|Hin]; [eexists _, _; split; reflexivity|]).
    destruct Hin.
  - intros args flags options address e. rewrite !profiler_throws.
    now rewrite !get_insert_ne by discriminate.
  - intros args flags options address e.
    split; apply token_throws_insert; [now left|now right].
Qed.

(** [profiler balance --address 0x123]: the request carries [0x123]. *)
Lemma address_passed_unvalidated_witness :
  exists method params,
    Call "addressBalance"
      (obj [("address", VStr "0x123"); ("entityName", VUndefined);
            ("chain", VStr "ethereum"); ("filters", VObj []); ("orderBy", VUndefined)])
    = Call method params
    /\ field params "address" = VStr "0x123".
Proof.
  exact (proj1 address_passed_unvalidated ["balance"] ∅
           (<["address" := VStr "0x123"]> ∅) _ eq_refl (or_introl eq_refl)).
Defined.

(** C1 as stated fails: [0x123] has neither the EVM shape nor the Base58
    shape, and [profiler balance --address 0x123 --chain ethereum] ends
    in the call of [addressBalance] with that address, not in a
    validation error; [token holders --token 0xabc] likewise. *)
Lemma invalid_address_reaches_api :
  valid_address_shape (VStr "0x123") = false
  /\ result (profiler ["balance"] ∅
               (<["address" := VStr "0x123"]> (<["chain" := VStr "ethereum"]> ∅)))
     = Ok (Call "addressBalance"
             (obj [("address", VStr "0x123"); ("entityName", VUndefined);
                   ("chain", VStr "ethereum"); ("filters", VObj []);
                   ("orderBy", VUndefined)]))
  /\ valid_address_shape (VStr "0xabc") = false
  /\ result (token ["holders"] ∅ (<["token" := VStr "0xabc"]> ∅))
     = Ok (Call "tokenHolders"
             (obj [("tokenAddress", VStr "0xabc"); ("chain", VStr "solana");
                   ("filters", VObj []); ("orderBy", VUndefined);
                   ("pagination", VUndefined)])).
Proof. repeat split; vm_compute; reflexivity. Qed.





(** ** The router *)

(** The retry policy: [--no-retry] gives 0, a truthy [--retries] value
    gives that value, and 3 is the default. *)
Lemma retryOptions_cases (flags options : gmap string value) :
  (truthy (get flags "no-retry") = true ->
   retryOptions flags options = obj [("maxRetries", VInt 0)])
  /\ (truthy (get flags "no-retry") = false -> truthy (get options "retries") = true ->
      retryOptions flags options = obj [("maxRetries", get options "retries")])
  /\ (truthy (get flags "no-retry") = false -> truthy (get options "retries") = false ->
      retryOptions flags options = obj [("maxRetries", VInt 3)]).
Proof.
  unfold retryOptions, or_else.
  repeat split; intros; repeat match goal with H : truthy _ = _ |- _ => rewrite H; clear H end;
    reflexivity.
Qed.

(** C2 at [--retries 0]: the option is parsed to the number 0, the retry
    policy handed to the client has [maxRetries] 3, and the first thing
    [runCLI] does is to construct the client with it. *)
Theorem retries_zero_gives_three (localeCompare : string -> string -> Z) (deps : Deps) :
  options (parseArgs ["smart-money"; "netflow"; "--retries"; "0"]) !! "retries"
  = Some (VInt 0)
  /\ retryOptions (flags (parseArgs ["smart-money"; "netflow"; "--retries"; "0"]))
       (options (parseArgs ["smart-money"; "netflow"; "--retries"; "0"]))
     = obj [("maxRetries", VInt 3)]
  /\ head (fst (runCLI localeCompare deps ["smart-money"; "netflow"; "--retries"; "0"]))
     = Some (New (obj [("retry", obj [("maxRetries", VInt 3)])]))
  /\ VInt 3 <> VInt 0.
Proof.
  split; [vm_compute; reflexivity|]. split; [vm_compute; reflexivity|].
  split; [|discriminate].
  unfold runCLI.
  set (parsed := parseArgs _).
  assert (E : parsed = mkParsedArgs ["smart-money"; "netflow"] ∅ (<["retries" := VInt 0]> ∅))
    by (vm_compute; reflexivity).
  rewrite E. cbn [positional flags options subcommand_of tail is_empty].
  change (String.eqb "smart-money" "help") with false.
  change (truthy (get ∅ "help")) with false. change (truthy (get ∅ "h")) with false.
  cbn [orb]. change (commands "smart-money") with (Some (Family smart_money)).
  cbv beta iota. unfold try_block.
  change (retryOptions ∅ (<["retries" := VInt 0]> ∅)) with (obj [("maxRetries", VInt 3)]).
  destruct (NansenAPIClass deps _) as [api|e].
  - change (result (smart_money ["netflow"] ∅ (<["retries" := VInt 0]> ∅)))
      with (Ok (Call "smartMoneyNetflow"
                  (obj [("chains", VArr [VStr "solana"]); ("filters", VObj []);
                        ("orderBy", VUndefined); ("pagination", VUndefined)]))).
    cbv beta iota.
    destruct (api _ _) as [v|e].
    + destruct (formatOutput _ _ _ _) as [fmt|e]; [reflexivity|].
      cbv beta iota. destruct (formatOutput _ _ _ _); reflexivity.
    + cbv beta iota. destruct (formatOutput _ _ _ _); reflexivity.
  - cbv beta iota. destruct (formatOutput _ _ _ _); reflexivity.
Qed.

(** [family_subcommands] lists the keys of the handler maps, whatever the
    resolved options are. *)
Lemma family_subcommands_keys :
  (forall c fl o p d,
      handler_names (smart_money_handlers c fl o p d) = family_subcommands SmartMoney)
  /\ (forall opts a e c fl o p d,
      handler_names (profiler_handlers opts a e c fl o p d) = family_subcommands Profiler)
  /\ (forall a s c cs t fl o p d m,
      handler_names (token_handlers a s c cs t fl o p d m) = family_subcommands Token)
  /\ (forall w, handler_names (portfolio_handlers w) = family_subcommands Portfolio).
Proof. repeat split. Qed.

Lemma family_command_not_help (f : family) : String.eqb (family_command f) "help" = false.
Proof. now destruct f. Qed.

Lemma commands_family (f : family) :
  commands (family_command f) = Some (Family (family_handler f)).
Proof. now destruct f. Qed.

(** An object has a JSON text. *)
Lemma serialize_object (gap cur : string) (ps : list (string * value)) :
  exists t, serialize gap cur (VObj ps) = Some t.
Proof. eexists. reflexivity. Qed.





(** ** The table formatter *)

Lemma all_keys_keyed (records : list value) :
  Forall (fun r => keyed r = true) records -> exists ks, all_keys records = Ok ks.
Proof.
  induction 1 as [|r records Hr _ [ks IH]]; [now exists []|].
  cbn [all_keys]. rewrite IH.
  destruct r; try discriminate Hr; cbn [Object_keys]; eauto.
Qed.

Lemma all_keys_unkeyed (records : list value) :
  Exists (fun r => keyed r = false) records ->
  all_keys records = Throw (TypeError "Cannot convert undefined or null to object").
Proof.
  induction records as [|r records IH]; intros H; [inversion H|].
  cbn [all_keys]. destruct (keyed r) eqn:Hr.
  - assert (Hrest : Exists (fun r => keyed r = false) records)
      by (inversion H; [congruence|assumption]).
    rewrite (IH Hrest). destruct r; try discriminate Hr; reflexivity.
  - destruct r; try discriminate Hr; reflexivity.
Qed.

(** C8, amended: with no record, [formatTable] returns the string
    [No data].  With records that are all values with properties (none is
    [null] or [undefined]) it returns the lines of a table of at most 8
    columns: a header, a rule, one row for each of the first 50 records,
    hence at most 50 rows, and, when there are [n > 50] records, a last
    line [... and <n - 50> more rows]; for 60 records that line is
    [... and 10 more rows].  With a record that is [null] or [undefined]
    it renders nothing: it throws the TypeError of [Object.keys]. *)
Theorem formatTable_bounds (localeCompare : string -> string -> Z) (data : value) :
  let records := extract_records data in
  (records = [] -> formatTable localeCompare data = Ok "No data")
  /\ (records <> [] -> Forall (fun r => keyed r = true) records ->
      exists columns rows,
        table_columns localeCompare records = Ok columns
        /\ (length columns <= 8)%nat
        /\ length rows = Nat.min 50 (length records)
        /\ (length rows <= 50)%nat
        /\ rows = map (table_row columns (map (column_width records) columns))
                    (take 50 records)
        /\ formatTable localeCompare data
           = Ok (join newline
                   (table_header columns (map (column_width records) columns)
                    :: table_rule (map (column_width records) columns)
                    :: rows
                    ++ (if (50 <? length records)%nat
                        then [more_rows_line (length records)] else []))))
  /\ (Exists (fun r => keyed r = false) records ->
      formatTable localeCompare data
      = Throw (TypeError "Cannot convert undefined or null to object"))
  /\ more_rows_line 60 = "... and 10 more rows".
Proof.
  intros records. split; [|split; [|split]].
  - intros E. unfold formatTable. fold records. now rewrite E.
  - intros Hne Hkeyed.
    destruct (all_keys_keyed records Hkeyed) as [ks Hks].
    exists (take 8 (sort_by (compare_columns localeCompare) (dedup_keys [] ks))).
    eexists. split; [|split; [|split; [|split; [|split; [reflexivity|]]]]].
    + unfold table_columns. now rewrite Hks.
    + rewrite length_take. lia.
    + rewrite length_map, length_take. reflexivity.
    + rewrite length_map, length_take. lia.
    + unfold formatTable. fold records.
      destruct records as [|r records']; [congruence|].
      unfold table_columns. rewrite Hks. reflexivity.
  - intros Hex. unfold formatTable. fold records.
    destruct records as [|r records'] eqn:E; [inversion Hex|].
    unfold table_columns. now rewrite (all_keys_unkeyed _ Hex).
  - reflexivity.
Qed.

(** The two-token table of the specification. *)
Lemma formatTable_bounds_witness :
  exists (columns rows : list string),
    table_columns (fun _ _ => 0%Z)
      [VObj [("name", VStr "Token1"); ("value_usd", VInt 1000)];
       VObj [("name", VStr "Token2"); ("value_usd", VInt 2000)]]
    = Ok columns
    /\ (length columns <= 8)%nat
    /\ length rows = 2%nat
    /\ (length rows <= 50)%nat
    /\ formatTable (fun _ _ => 0%Z)
         (VArr [VObj [("name", VStr "Token1"); ("value_usd", VInt 1000)];
                VObj [("name", VStr "Token2"); ("value_usd", VInt 2000)]])
       = Ok (join newline
               (table_header columns
                  (map (column_width
                          [VObj [("name", VStr "Token1"); ("value_usd", VInt 1000)];
                           VObj [("name", VStr "Token2"); ("value_usd", VInt 2000)]])
                     columns)
                :: table_rule
                     (map (column_width
                             [VObj [("name", VStr "Token1"); ("value_usd", VInt 1000)];
                              VObj [("name", VStr "Token2"); ("value_usd", VInt 2000)]])
                        columns)
                :: rows ++ [])).
Proof.
  pose proof (formatTable_bounds (fun _ _ => 0%Z)
                (VArr [VObj [("name", VStr "Token1"); ("value_usd", VInt 1000)];
                       VObj [("name", VStr "Token2"); ("value_usd", VInt 2000)]])) as H.
  cbv zeta in H. cbn [extract_records] in H.
  destruct H as (_ & H & _).
  destruct (H ltac:(discriminate) ltac:(repeat constructor))
    as (columns & rows & H1 & H2 & H3 & H4 & _ & H6).
  exists columns, rows. repeat split; assumption.
Defined.

(** C8 as stated fails on a record that is [null], as a response
    [{data: [null]}] holds one: the record is extracted, and [formatTable]
    renders no table but throws. *)
Lemma formatTable_null_record :
  extract_records (obj [("data", VArr [VNull])]) = [VNull]
  /\ formatTable (fun _ _ => 0%Z) (obj [("data", VArr [VNull])])
     = Throw (TypeError "Cannot convert undefined or null to object")
  /\ JSON_parse ("{" +:+ dq "data" +:+ ":[null]}") = Some (obj [("data", VArr [VNull])]).
Proof. repeat split; vm_compute; reflexivity. Qed.

(** ** [formatValue] *)

Lemma small_integers_checked : forallb small_integer_ok (seq 0 1999) = true.
Proof. vm_compute. reflexivity. Qed.

(** An integer of magnitude below 1000 is printed as it is. *)
Lemma formatValue_small_integer (z : Z) :
  (-1000 < z < 1000)%Z -> formatValue (VInt z) = signed_decimal z.
Proof.
  intros Hz. pose proof small_integers_checked as H.
  rewrite forallb_forall in H.
  specialize (H (Z.to_nat (z + 999))).
  unfold small_integer_ok in H.
  replace (Z.of_nat (Z.to_nat (z + 999)) - 999)%Z with z in H by lia.
  apply String.eqb_eq, H, in_seq. lia.
Qed.

(** *** Two decimal places *)

Lemma all_chars_app (p : ascii -> bool) (s t : string) :
  all_chars p (s +:+ t) = all_chars p s && all_chars p t.
Proof.
  induction s as [|c s IH]; [reflexivity|].
  change (String c s +:+ t) with (String c (s +:+ t)). cbn [all_chars].
  now rewrite IH, andb_assoc.
Qed.

Lemma string_length_app (s t : string) :
  String.length (s +:+ t) = (String.length s + String.length t)%nat.
Proof.
  induction s as [|c s IH]; [reflexivity|].
  change (String c s +:+ t) with (String c (s +:+ t)). cbn [String.length]. now rewrite IH.
Qed.

Lemma is_digit_digit_char (d : Z) : (0 <= d < 10)%Z -> is_digit (digit_char d) = true.
Proof.
  intros H.
  assert (E : (d = 0 \/ d = 1 \/ d = 2 \/ d = 3 \/ d = 4 \/ d = 5 \/ d = 6 \/ d = 7
               \/ d = 8 \/ d = 9)%Z) by lia.
  repeat (destruct E as [->|E]; [reflexivity|]). now subst.
Qed.

(** The digits that [decimal_go] puts before the accumulator. *)
Lemma decimal_go_digits (fuel : nat) (n : Z) (acc : string) :
  (0 <= n)%Z ->
  exists d, decimal_go fuel n acc = d +:+ acc
            /\ all_chars is_digit d = true
            /\ (fuel <> 0%nat -> d <> EmptyString).
Proof.
  revert n acc. induction fuel as [|fuel IH]; intros n acc Hn.
  - exists EmptyString. repeat split. congruence.
  - cbn [decimal_go]. destruct (n <? 10)%Z eqn:Hlt.
    + apply Z.ltb_lt in Hlt. exists (String (digit_char n) EmptyString).
      split; [reflexivity|]. split; [|discriminate].
      cbn [all_chars]. now rewrite is_digit_digit_char by lia.
    + apply Z.ltb_ge in Hlt.
      destruct (IH (n / 10)%Z (String (digit_char (n mod 10)) acc))
        as (d & E & Hd & _); [apply Z.div_pos; lia|].
      exists (d +:+ String (digit_char (n mod 10)) EmptyString).
      split; [|split].
      * rewrite E. clear. induction d as [|c d IHd]; [reflexivity|].
        change (String c (d +:+ String (digit_char (n mod 10)) acc)
                = String c ((d +:+ String (digit_char (n mod 10)) EmptyString) +:+ acc)).
        now rewrite IHd.
      * rewrite all_chars_app, Hd. cbn [all_chars andb].
        rewrite is_digit_digit_char; [reflexivity|].
        apply Z.mod_pos_bound. lia.
      * intros _. destruct d; discriminate.
Qed.

Lemma decimal_digits (n : Z) :
  (0 <= n)%Z -> all_chars is_digit (decimal n) = true /\ decimal n <> EmptyString.
Proof.
  intros Hn. unfold decimal.
  destruct (decimal_go_digits (S (Z.to_nat (Z.log2 n))) n EmptyString Hn) as (d & E & Hd & Hne).
  rewrite E. clear E.
  assert (Hd' : d +:+ EmptyString = d).
  { clear. induction d as [|c d IH]; [reflexivity|].
    change (String c (d +:+ EmptyString) = String c d). now rewrite IH. }
  rewrite Hd'. split; [exact Hd|]. now apply Hne.
Qed.

Lemma all_chars_zeros (n : nat) : all_chars is_digit (zeros n) = true.
Proof. induction n as [|n IH]; [reflexivity|]. cbn [zeros all_chars]. now rewrite IH. Qed.

Lemma length_zeros (n : nat) : String.length (zeros n) = n.
Proof. induction n as [|n IH]; [reflexivity|]. cbn [zeros String.length]. now rewrite IH. Qed.

Lemma take_drop_digits (n : nat) (s : string) :
  all_chars is_digit s = true ->
  all_chars is_digit (take_str n s) = true
  /\ all_chars is_digit (drop_str n s) = true
  /\ String.length (drop_str n s) = (String.length s - n)%nat
  /\ String.length (take_str n s) = Nat.min n (String.length s).
Proof.
  revert s. induction n as [|n IH]; intros [|c s] H; cbn [take_str drop_str String.length];
    try (repeat split; try assumption; lia).
  cbn [all_chars] in H. apply andb_prop in H as [Hc Hs].
  destruct (IH s Hs) as (H1 & H2 & H3 & H4).
  cbn [all_chars]. rewrite Hc, H1. repeat split; try assumption; lia.
Qed.

Lemma fraction_after_digits_app (int frac : string) :
  all_chars is_digit int = true ->
  String.length frac = 2%nat -> all_chars is_digit frac = true ->
  fraction_after_digits (int +:+ "." +:+ frac) = true.
Proof.
  intros Hint Hlen Hfrac. induction int as [|c int IH].
  - destruct frac as [|a [|b [|c frac]]]; try discriminate Hlen.
    cbn [all_chars] in Hfrac. apply andb_prop in Hfrac as [Ha Hb].
    apply andb_prop in Hb as [Hb _].
    change (EmptyString +:+ "." +:+ String a (String b EmptyString))
      with (String "." (String a (String b EmptyString))).
    cbn [fraction_after_digits]. change (is_digit ".") with false. cbv beta iota.
    now rewrite Ha, Hb.
  - cbn [all_chars] in Hint. apply andb_prop in Hint as [Hc Hint].
    change (String c int +:+ "." +:+ frac) with (String c (int +:+ "." +:+ frac)).
    cbn [fraction_after_digits]. rewrite Hc. now apply IH.
Qed.

Lemma two_decimals_shape (neg : bool) (int frac : string) :
  int <> EmptyString -> all_chars is_digit int = true ->
  String.length frac = 2%nat -> all_chars is_digit frac = true ->
  two_decimals (sign_str neg +:+ int +:+ "." +:+ frac) = true.
Proof.
  intros Hne Hint Hlen Hfrac.
  pose proof (fraction_after_digits_app int frac Hint Hlen Hfrac) as H.
  destruct int as [|c int]; [congruence|].
  assert (Hc : is_digit c = true) by (cbn [all_chars] in Hint; now apply andb_prop in Hint).
  assert (Hminus : Ascii.eqb c "-" = false).
  { destruct (Ascii.eqb c "-") eqn:E; [|reflexivity].
    apply Ascii.eqb_eq in E. subst c. discriminate Hc. }
  change (String c int +:+ "." +:+ frac) with (String c (int +:+ "." +:+ frac)) in *.
  destruct neg.
  - change (sign_str true +:+ String c (int +:+ "." +:+ frac))
      with (String "-" (String c (int +:+ "." +:+ frac))).
    cbn [two_decimals]. change (Ascii.eqb "-" "-") with true. cbv beta iota.
    cbn [unsigned_two_decimals]. now rewrite Hc, H.
  - change (sign_str false +:+ String c (int +:+ "." +:+ frac))
      with (String c (int +:+ "." +:+ frac)).
    cbn [two_decimals]. rewrite Hminus. cbn [unsigned_two_decimals]. now rewrite Hc, H.
Qed.

(** An integer number of hundredths is printed with two decimals. *)
Lemma fixed_string_two_decimals (neg : bool) (n : Z) :
  (0 <= n)%Z -> two_decimals (sign_str neg +:+ fixed_string n 2) = true.
Proof.
  intros Hn. destruct (decimal_digits n Hn) as [Hd Hne].
  unfold fixed_string.
  set (ds' := if (String.length (decimal n) <=? 2)%nat
              then zeros (3 - String.length (decimal n)) +:+ decimal n else decimal n).
  assert (Hds : all_chars is_digit ds' = true).
  { unfold ds'. destruct (String.length (decimal n) <=? 2)%nat; [|exact Hd].
    now rewrite all_chars_app, all_chars_zeros, Hd. }
  assert (Hlen : (3 <= String.length ds')%nat).
  { unfold ds'. destruct (String.length (decimal n) <=? 2)%nat eqn:E.
    - apply Nat.leb_le in E. rewrite string_length_app, length_zeros. lia.
    - apply Nat.leb_gt in E. lia. }
  destruct (take_drop_digits (String.length ds' - 2) ds' Hds) as (H1 & H2 & H3 & H4).
  apply two_decimals_shape; try assumption; [|lia].
  intros E. rewrite E in H4. cbn [String.length] in H4. lia.
Qed.

(** [toFixed(2)] prints a number below [1e21] in magnitude with two
    decimals, and any other as [toString] does. *)
Lemma toFixed_two_decimals (q : number) :
  (below_1e21 q = true -> two_decimals (Number_toFixed 2 q) = true)
  /\ (below_1e21 q = false -> Number_toFixed 2 q = Number_toString q).
Proof.
  destruct q as [s|s| |s m e]; cbn [below_1e21 Number_toFixed].
  - split; [reflexivity|discriminate].
  - split; [discriminate|reflexivity].
  - split; [discriminate|reflexivity].
  - assert (E : cmp_pow10 (Z.pos m) e 21
                = (Z.pos m * 2 ^ Z.max e 0 ?= 10 ^ 21 * 2 ^ Z.max (- e) 0)%Z).
    { unfold cmp_pow10, scaled_left, scaled_right.
      change (Z.max (- 21) 0) with 0%Z. change (Z.max 21 0) with 21%Z.
      now rewrite Z.pow_0_r, Z.mul_1_r. }
    rewrite E. unfold Z.ltb.
    destruct (Z.pos m * 2 ^ Z.max e 0 ?= 10 ^ 21 * 2 ^ Z.max (- e) 0)%Z;
      (split; [try discriminate|try discriminate; try reflexivity]).
    intros _. apply fixed_string_two_decimals.
    apply Z.div_pos; [|pose proof (Z.pow_pos_nonneg 2 (Z.max (- e) 0)); lia].
    pose proof (Z.pow_pos_nonneg 2 (Z.max (- e) 0) ltac:(lia) ltac:(lia)).
    pose proof (Z.pow_pos_nonneg 2 (Z.max e 0) ltac:(lia) ltac:(lia)).
    nia.
Qed.

(** C9, amended: [formatValue] maps [null] and [undefined] to the empty
    string; a number of magnitude at least 1,000,000 to [toFixed(2)] of
    its millionth followed by [M]; otherwise a number of magnitude at
    least 1,000 to [toFixed(2)] of its thousandth followed by [K];
    otherwise an integer to its decimal string; otherwise a number to its
    [toFixed(2)]; an array or object to its compact JSON; a string or
    boolean to its string conversion.  What [toFixed(2)] prints has two
    decimal places (an optional minus sign, digits, a point and two
    digits) when the number printed is below [1e21] in magnitude; a
    number from [1e21] up, an infinity and NaN are printed as [toString]
    prints them, in exponent notation or by name.  In particular 1500000
    gives [1.50M], -1500 gives [-1.50K], 42 gives [42] and 3.14159 gives
    [3.14]. *)
Theorem formatValue_cases :
  formatValue VNull = EmptyString
  /\ formatValue VUndefined = EmptyString
  /\ (forall x, num_geb (Math_abs x) million = true ->
      let q := num_div x million in
      formatValue (VNum x) = Number_toFixed 2 q +:+ "M"
      /\ (below_1e21 q = true -> two_decimals (Number_toFixed 2 q) = true)
      /\ (below_1e21 q = false -> formatValue (VNum x) = Number_toString q +:+ "M"))
  /\ (forall x, num_geb (Math_abs x) million = false ->
      num_geb (Math_abs x) thousand = true ->
      let q := num_div x thousand in
      formatValue (VNum x) = Number_toFixed 2 q +:+ "K"
      /\ (below_1e21 q = true -> two_decimals (Number_toFixed 2 q) = true)
      /\ (below_1e21 q = false -> formatValue (VNum x) = Number_toString q +:+ "K"))
  /\ (forall x, num_geb (Math_abs x) million = false ->
      num_geb (Math_abs x) thousand = false -> Number_isInteger x = true ->
      formatValue (VNum x) = Number_toString x)
  /\ (forall z, (-1000 < z < 1000)%Z -> formatValue (VInt z) = signed_decimal z)
  /\ (forall x, num_geb (Math_abs x) million = false ->
      num_geb (Math_abs x) thousand = false -> Number_isInteger x = false ->
      formatValue (VNum x) = Number_toFixed 2 x
      /\ (below_1e21 x = true -> two_decimals (formatValue (VNum x)) = true)
      /\ (below_1e21 x = false -> formatValue (VNum x) = Number_toString x))
  /\ (forall v, typeof_object v = true -> v <> VNull ->
      JSON_stringify v = Some (formatValue v))
  /\ (forall s, formatValue (VStr s) = s)
  /\ (forall b, formatValue (VBool b) = ToString (VBool b))
  /\ formatValue (VInt 1500000) = "1.50M"
  /\ formatValue (VInt (-1500)) = "-1.50K"
  /\ formatValue (VInt 42) = "42"
  /\ formatValue (VNum (num_of_decimal false 314159 (-5))) = "3.14".
Proof.
  repeat match goal with |- _ /\ _ => split end.
  - reflexivity.
  - reflexivity.
  - intros x H q. cbn [formatValue]. rewrite H. fold q.
    destruct (toFixed_two_decimals q) as [H1 H2].
    split; [reflexivity|]. split; [exact H1|]. intros Hq. now rewrite (H2 Hq).
  - intros x H1 H2 q. cbn [formatValue]. rewrite H1, H2. fold q.
    destruct (toFixed_two_decimals q) as [H3 H4].
    split; [reflexivity|]. split; [exact H3|]. intros Hq. now rewrite (H4 Hq).
  - intros x H1 H2 H3. cbn [formatValue]. now rewrite H1, H2, H3.
  - exact formatValue_small_integer.
  - intros x H1 H2 H3. cbn [formatValue]. rewrite H1, H2, H3.
    destruct (toFixed_two_decimals x) as [H4 H5].
    split; [reflexivity|]. split; [exact H4|exact H5].
  - intros v Hobj Hnull. destruct v; try discriminate Hobj; [congruence| |]; reflexivity.
  - reflexivity.
  - reflexivity.
  - vm_compute. reflexivity.
  - vm_compute. reflexivity.
  - vm_compute. reflexivity.
  - vm_compute. reflexivity.
Qed.

(** 2500000 and 0.5, by the first and the last of the number cases. *)
Lemma formatValue_cases_witness :
  (formatValue (VInt 2500000) = "2.50M" /\ two_decimals "2.50" = true)
  /\ (formatValue (VNum (num_of_decimal false 5 (-1))) = "0.50"
      /\ two_decimals (formatValue (VNum (num_of_decimal false 5 (-1)))) = true).
Proof.
  destruct formatValue_cases as (_ & _ & HM & _ & _ & _ & Hfrac & _).
  split.
  - destruct (HM (num_of_Z 2500000) eq_refl) as (H1 & H2 & _).
    split; [exact H1|exact (H2 eq_refl)].
  - destruct (Hfrac (num_of_decimal false 5 (-1)) eq_refl eq_refl eq_refl) as (H1 & H2 & _).
    split; [exact H1|exact (H2 eq_refl)].
Defined.

(** C9 as stated fails for large numbers: the millionth of [1e27] is
    [1e21], which [toFixed(2)] prints in exponent notation, and the
    millionth of [Infinity] is printed by name; neither has two decimal
    places. *)
Lemma formatValue_huge_not_two_decimals :
  num_geb (Math_abs (num_of_decimal false 1 27)) million = true
  /\ formatValue (VNum (num_of_decimal false 1 27)) = "1e+21M"
  /\ two_decimals "1e+21" = false
  /\ JSON_parse "1e400" = Some (VNum (S754_infinity false))
  /\ formatValue (VNum (S754_infinity false)) = "InfinityM"
  /\ two_decimals "Infinity" = false.
Proof. repeat split; vm_compute; reflexivity. Qed.

(** ** The unit tests of the repository, run on the embedding

    The expectations of the repository's test suite for [cli.js], each
    evaluated on the definitions above. *)

Module Tests.
Import Doubles.

Example parse_positional :
  positional (parseArgs ["token"; "screener"]) = ["token"; "screener"].
Proof. vm_compute. reflexivity. Qed.

Example parse_boolean_flags :
  flags (parseArgs ["--pretty"; "--table"; "--no-retry"])
  = <["pretty" := VTrue]> (<["table" := VTrue]> (<["no-retry" := VTrue]> ∅)).
Proof. vm_compute. reflexivity. Qed.

Example parse_short_flags :
  flags (parseArgs ["-p"; "-t"]) = <["p" := VTrue]> (<["t" := VTrue]> ∅).
Proof. vm_compute. reflexivity. Qed.

Example parse_options_with_values :
  options (parseArgs ["--chain"; "solana"; "--limit"; "10"])
  = <["chain" := VStr "solana"]> (<["limit" := VInt 10]> ∅).
Proof. vm_compute. reflexivity. Qed.

Example parse_json_option :
  options (parseArgs ["--filters"; "{" +:+ dq "only_smart_money" +:+ ":true}"]) !! "filters"
  = Some (VObj [("only_smart_money", VTrue)]).
Proof. vm_compute. reflexivity. Qed.

Example parse_mixed :
  parseArgs ["token"; "screener"; "--chain"; "solana"; "--pretty"; "--limit"; "5"]
  = mkParsedArgs ["token"; "screener"] (<["pretty" := VTrue]> ∅)
      (<["chain" := VStr "solana"]> (<["limit" := VInt 5]> ∅)).
Proof. vm_compute. reflexivity. Qed.

Example parse_flag_then_flag :
  flags (parseArgs ["--verbose"; "--debug"])
  = <["verbose" := VTrue]> (<["debug" := VTrue]> ∅).
Proof. vm_compute. reflexivity. Qed.

Example format_values :
  map formatValue
    [VNull; VUndefined; VInt 1500000; VInt (-2000000); VInt 5000; VInt (-1500); VInt 42;
     VInt 0; VNum (num_of_decimal false 314159 (-5)); VObj [("a", VInt 1)]; VStr "hello";
     VBool true]
  = [EmptyString; EmptyString; "1.50M"; "-2.00M"; "5.00K"; "-1.50K"; "42"; "0"; "3.14";
     "{" +:+ dq "a" +:+ ":1}"; "hello"; "true"].
Proof. vm_compute. reflexivity. Qed.

Example table_of_nothing : formatTable bytewise (VArr []) = Ok "No data".
Proof. reflexivity. Qed.

Example table_of_two :
  formatTable bytewise
    (VArr [obj [("name", VStr "Token1"); ("value_usd", VInt 1000)];
           obj [("name", VStr "Token2"); ("value_usd", VInt 2000)]])
  = Ok (join newline ["name   │ value_usd";
                      "───────┼──────────";
                      "Token1 │ 1.00K    ";
                      "Token2 │ 2.00K    "]).
Proof. vm_compute. reflexivity. Qed.

Example table_of_nested_shapes :
  formatTable bytewise (obj [("data", VArr [obj [("symbol", VStr "SOL")]])])
  = Ok (join newline ["symbol"; "──────"; "SOL   "])
  /\ formatTable bytewise (obj [("results", VArr [obj [("symbol", VStr "ETH")]])])
     = Ok (join newline ["symbol"; "──────"; "ETH   "])
  /\ formatTable bytewise
       (obj [("data", obj [("results", VArr [obj [("symbol", VStr "BTC")]])])])
     = Ok (join newline ["symbol"; "──────"; "BTC   "])
  /\ formatTable bytewise (obj [("name", VStr "Single"); ("value", VInt 123)])
     = Ok (join newline ["name   │ value"; "───────┼──────"; "Single │ 123  "]).
Proof. repeat split; vm_compute; reflexivity. Qed.

Example table_of_sixty :
  match formatTable bytewise (VArr (repeat (obj [("id", VInt 7)]) 60)) with
  | Ok t => includes t "... and 10 more rows"
  | Throw _ => false
  end = true.
Proof. vm_compute. reflexivity. Qed.

Example table_priority_first :
  formatTable bytewise
    (VArr [obj [("zebra", VInt 1); ("token_symbol", VStr "ABC"); ("apple", VInt 2)]])
  = Ok (join newline ["token_symbol │ apple │ zebra";
                      "─────────────┼───────┼──────";
                      "ABC          │ 2     │ 1    "]).
Proof. vm_compute. reflexivity. Qed.

Example output_formats :
  formatOutput bytewise (obj [("a", VInt 1)]) VUndefined VUndefined
  = Ok (mkFormatted "json" (Some ("{" +:+ dq "a" +:+ ":1}")))
  /\ formatOutput bytewise (obj [("a", VInt 1)]) VTrue VUndefined
     = Ok (mkFormatted "json" (Some (join newline ["{"; "  " +:+ dq "a" +:+ ": 1"; "}"])))
  /\ formatOutput bytewise (obj [("data", VArr [obj [("x", VInt 1)]])]) VUndefined VTrue
     = Ok (mkFormatted "table" (Some (join newline ["x"; "─"; "1"])))
  /\ formatOutput bytewise (obj [("success", VBool false); ("error", VStr "Oops")])
       VUndefined VTrue
     = Ok (mkFormatted "error" (Some "Error: Oops")).
Proof. repeat split; vm_compute; reflexivity. Qed.

Example error_formats :
  formatError (Error (VStr "Test error") (VStr "TEST_CODE") (VInt 500)
                 (obj [("detail", VStr "extra info")]))
  = obj [("success", VBool false); ("error", VStr "Test error"); ("code", VStr "TEST_CODE");
         ("status", VInt 500); ("details", obj [("detail", VStr "extra info")])]
  /\ formatError (TypeError "Simple error")
     = obj [("success", VBool false); ("error", VStr "Simple error");
            ("code", VStr "UNKNOWN"); ("status", VNull); ("details", VNull)].
Proof. split; reflexivity. Qed.

Example sort_orders :
  parseSort VUndefined VUndefined = Ok VUndefined
  /\ parseSort (VStr "value:desc") (sort_order "price" "ASC") = Ok (sort_order "price" "ASC")
  /\ parseSort (VStr "value_usd:asc") VUndefined = Ok (sort_order "value_usd" "ASC")
  /\ parseSort (VStr "timestamp") VUndefined = Ok (sort_order "timestamp" "DESC").
Proof. repeat split; reflexivity. Qed.

Example smart_money_labels :
  result (smart_money ["netflow"] ∅ (<["labels" := VStr "Fund"]> ∅))
  = Ok (Call "smartMoneyNetflow"
          (obj [("chains", VArr [VStr "solana"]);
                ("filters", obj [("include_smart_money_labels", VArr [VStr "Fund"])]);
                ("orderBy", VUndefined); ("pagination", VUndefined)])).
Proof. vm_compute. reflexivity. Qed.

Example profiler_search :
  result (profiler ["search"] ∅ (<["query" := VStr "Vitalik"]> ∅))
  = Ok (Call "entitySearch" (obj [("query", VStr "Vitalik"); ("pagination", VUndefined)])).
Proof. vm_compute. reflexivity. Qed.

Example token_screener :
  result (token ["screener"] ∅ (<["chain" := VStr "solana"]> (<["timeframe" := VStr "1h"]> ∅)))
  = Ok (Call "tokenScreener"
          (obj [("chains", VArr [VStr "solana"]); ("timeframe", VStr "1h");
                ("filters", obj []); ("orderBy", VUndefined); ("pagination", VUndefined)]))
  /\ result (token ["screener"] (<["smart-money" := VTrue]> ∅) ∅)
     = Ok (Call "tokenScreener"
             (obj [("chains", VArr [VStr "solana"]); ("timeframe", VStr "24h");
                   ("filters", obj [("only_smart_money", VTrue)]);
                   ("orderBy", VUndefined); ("pagination", VUndefined)])).
Proof. split; vm_compute; reflexivity. Qed.

Example portfolio_defi :
  result (portfolio ["defi"] ∅ (<["wallet" := VStr "0xdef"]> ∅))
  = Ok (Call "portfolioDefiHoldings" (obj [("walletAddress", VStr "0xdef")])).
Proof. vm_compute. reflexivity. Qed.

Example run_help :
  runCLI bytewise mock_deps [] = ([Output (Some HELP)], Ok (obj [("type", VStr "help")]))
  /\ runCLI bytewise mock_deps ["--help"]
     = ([Output (Some HELP)], Ok (obj [("type", VStr "help")]))
  /\ runCLI bytewise mock_deps ["-h"]
     = ([Output (Some HELP)], Ok (obj [("type", VStr "help")]))
  /\ runCLI bytewise mock_deps ["help"]
     = ([Output (Some HELP)], Ok (obj [("type", VStr "help")])).
Proof. repeat split; vm_compute; reflexivity. Qed.

Example run_unknown_command :
  snd (runCLI bytewise mock_deps ["unknown-cmd"])
  = Ok (obj [("type", VStr "error");
             ("data", obj [("error", VStr "Unknown command: unknown-cmd");
                           ("available", strings command_names)])])
  /\ last (fst (runCLI bytewise mock_deps ["unknown-cmd"])) = Some (Exit 1).
Proof. split; vm_compute; reflexivity. Qed.

Example run_retry_policy :
  head (fst (runCLI bytewise mock_deps ["smart-money"; "netflow"; "--no-retry"]))
  = Some (New (obj [("retry", obj [("maxRetries", VInt 0)])]))
  /\ head (fst (runCLI bytewise mock_deps ["smart-money"; "netflow"; "--retries"; "5"]))
     = Some (New (obj [("retry", obj [("maxRetries", VInt 5)])])).
Proof. split; vm_compute; reflexivity. Qed.

Example run_api_error :
  runCLI bytewise failing_deps ["smart-money"; "netflow"]
  = ([New (obj [("retry", obj [("maxRetries", VInt 3)])]);
      Request "smartMoneyNetflow"
        (obj [("chains", VArr [VStr "solana"]); ("filters", obj []);
              ("orderBy", VUndefined); ("pagination", VUndefined)]);
      ErrorOutput
        (JSON_stringify
           (obj [("success", VBool false); ("error", VStr "API Error");
                 ("code", VStr "UNKNOWN"); ("status", VNull); ("details", VNull)]));
      Exit 1],
     Ok (obj [("type", VStr "error");
              ("data", obj [("success", VBool false); ("error", VStr "API Error");
                            ("code", VStr "UNKNOWN"); ("status", VNull);
                            ("details", VNull)])])).
Proof. vm_compute. reflexivity. Qed.

(** The collaborators of the [buildCommands] tests: the configuration
    file is [/home/user/.nansen/config.json]. *)
Example logout_reports :
  logout (Build_Deps (fun _ => Throw (TypeError "no client")) (fun _ _ => Ok VUndefined)
            (fun _ => Ok tt) (Ok VTrue) (Ok (VStr "/home/user/.nansen/config.json")))
  = ([DeleteConfig; GetConfigFile; Log "✓ Removed /home/user/.nansen/config.json"], Ok tt)
  /\ logout (Build_Deps (fun _ => Throw (TypeError "no client")) (fun _ _ => Ok VUndefined)
               (fun _ => Ok tt) (Ok (VBool false))
               (Ok (VStr "/home/user/.nansen/config.json")))
     = ([DeleteConfig; Log "No saved credentials found"], Ok tt).
Proof. split; vm_compute; reflexivity. Qed.

Example login_without_key :
  In (Exit 1)
    (fst (login (Build_Deps (fun _ => Throw (TypeError "no client"))
                   (fun _ _ => Ok (VStr EmptyString)) (fun _ => Ok tt) (Ok VUndefined)
                   (Ok (VStr "/home/user/.nansen/config.json")))))
  /\ In (Exit 1)
       (fst (login (Build_Deps (fun _ => Throw (TypeError "no client"))
                      (fun _ _ => Ok (VStr "   ")) (fun _ => Ok tt) (Ok VUndefined)
                      (Ok (VStr "/home/user/.nansen/config.json"))))).
Proof. split; vm_compute; tauto. Qed.

Example login_saves_config :
  In (SaveConfig (obj [("apiKey", VStr "valid-api-key");
                       ("baseUrl", VStr "https://api.nansen.ai")]))
    (fst (login (Build_Deps (fun _ => Ok mock_api)
                   (fun _ _ => Ok (VStr "valid-api-key")) (fun _ => Ok tt) (Ok VUndefined)
                   (Ok (VStr "/home/user/.nansen/config.json"))))).
Proof. vm_compute. tauto. Qed.

Example login_rejected_key :
  let events :=
    fst (login (Build_Deps
                  (fun _ => Ok (fun _ _ =>
                     Throw (Error (VStr "Unauthorized") VUndefined VUndefined VUndefined)))
                  (fun _ _ => Ok (VStr "invalid-key")) (fun _ => Ok tt) (Ok VUndefined)
                  (Ok (VStr "/home/user/.nansen/config.json")))) in
  In (Exit 1) events
  /\ In (Log (newline +:+ "❌ Invalid API key: Unauthorized")) events.
Proof. split; vm_compute; tauto. Qed.

End Tests.

(** * Further properties

    What the code shows beyond the statements above: the provenance of
    what [parseArgs] records, the ends of a run of [runCLI], the columns
    and cells of a table, the help and the derived filters of the family
    handlers, [login], and the hidden prompt. *)

Import Order Terminal.

(** ** The argument parser: what is recorded, and from which token *)

(** X1: every flag that [parseArgs] records has the value [true] and is
    named by a token of the input: the token [--k], or the token [-k]
    where [k] does not itself start with a dash. *)
Theorem parseArgs_flags_named (args : list string) (k : string) (v : value) :
  flags (parseArgs args) !! k = Some v ->
  v = VTrue
  /\ (In ("--" +:+ k) args \/ (In ("-" +:+ k) args /\ startsWith k "-" = false)).
Proof.
  intros H. rewrite parseArgs_parse_tokens in H.
  destruct (parses_flags _ _ _ (parse_tokens_reads args empty_result) k v H) as [Hold|Hnew].
  - cbn in Hold. rewrite lookup_empty in Hold. discriminate.
  - exact Hnew.
Qed.

Lemma parseArgs_flags_named_witness :
  flags (parseArgs ["token"; "-p"; "--chain"]) !! "p" = Some VTrue
  /\ VTrue = VTrue
  /\ (In "--p" ["token"; "-p"; "--chain"]
      \/ (In "-p" ["token"; "-p"; "--chain"] /\ startsWith "p" "-" = false)).
Proof.
  assert (H : flags (parseArgs ["token"; "-p"; "--chain"]) !! "p" = Some VTrue)
    by (vm_compute; reflexivity).
  split; [exact H|].
  exact (parseArgs_flags_named ["token"; "-p"; "--chain"] "p" VTrue H).
Defined.



(** X3: no token that starts with a dash is dropped or taken for a value:
    a token [--k] of the input leaves [k] among the flags or among the
    options, and any other token [-k] leaves the flag [k].  (The name
    [__proto__], which an assignment does not store as a property, is set
    aside.) *)
Theorem parseArgs_records_dash_tokens (args : list string) (t : string) :
  In t args ->
  ~ In t ["--__proto__"; "-__proto__"] ->
  (startsWith t "--" = true ->
   flags (parseArgs args) !! drop_str 2 t = Some VTrue
   \/ is_Some (options (parseArgs args) !! drop_str 2 t))
  /\ (startsWith t "--" = false -> startsWith t "-" = true ->
      flags (parseArgs args) !! drop_str 1 t = Some VTrue).
Proof.
  intros Hin Hown. rewrite parseArgs_parse_tokens.
  exact (parses_records _ _ _ (parse_tokens_reads args empty_result) t Hin Hown).
Qed.

Lemma parseArgs_records_dash_tokens_witness :
  In "--limit" ["--chain"; "--limit"; "10"; "-x"]
  /\ (flags (parseArgs ["--chain"; "--limit"; "10"; "-x"]) !! "limit" = Some VTrue
      \/ is_Some (options (parseArgs ["--chain"; "--limit"; "10"; "-x"]) !! "limit"))
  /\ flags (parseArgs ["--chain"; "--limit"; "10"; "-x"]) !! "x" = Some VTrue.
Proof.
  assert (H : In "--limit" ["--chain"; "--limit"; "10"; "-x"]) by (cbn; tauto).
  assert (H' : In "-x" ["--chain"; "--limit"; "10"; "-x"]) by (cbn; tauto).
  split; [exact H|]. split.
  - exact (proj1 (parseArgs_records_dash_tokens ["--chain"; "--limit"; "10"; "-x"]
                    "--limit" H ltac:(cbn; intuition discriminate)) eq_refl).
  - exact (proj2 (parseArgs_records_dash_tokens ["--chain"; "--limit"; "10"; "-x"]
                    "-x" H' ltac:(cbn; intuition discriminate)) eq_refl eq_refl).
Defined.

(** X4: the positional arguments are tokens of the input in the order of
    the input, none of them starts with a dash, and an input in which no
    token starts with a dash is returned whole as the positional
    arguments, with no flag and no option. *)
Theorem parseArgs_positional (args : list string) :
  sublist (positional (parseArgs args)) args
  /\ Forall (fun t => startsWith t "-" = false) (positional (parseArgs args))
  /\ (Forall (fun t => startsWith t "-" = false) args ->
      parseArgs args = mkParsedArgs args ∅ ∅).
Proof.
  rewrite parseArgs_parse_tokens.
  destruct (parses_positional_sublist _ _ _ (parse_tokens_reads args empty_result))
    as (ps & E & Hsub & Hall).
  cbn [empty_result positional app] in E. rewrite E.
  split; [exact Hsub|]. split; [exact Hall|].
  intros Hplain. now rewrite (parse_tokens_plain args Hplain).
Qed.

Lemma parseArgs_positional_witness :
  sublist (positional (parseArgs ["token"; "screener"])) ["token"; "screener"]
  /\ parseArgs ["token"; "screener"] = mkParsedArgs ["token"; "screener"] ∅ ∅.
Proof.
  pose proof (parseArgs_positional ["token"; "screener"]) as (H1 & _ & H3).
  split; [exact H1|]. apply H3. repeat constructor.
Defined.

(** X5: the last value wins.  When [--k] is followed by a value token and
    no later token is [--k], the option [k] of the result is that value,
    whatever comes before ([k] not being one of the four boolean names,
    nor [__proto__], which an assignment does not store as a property). *)
Theorem parseArgs_last_value_wins (pre post : list string) (k next : string) :
  k <> "__proto__" ->
  is_boolean_flag k = false ->
  takes_value (Some next) = true ->
  ~ In ("--" +:+ k) post ->
  options (parseArgs (pre ++ ("--" +:+ k) :: next :: post)) !! k = Some (json_or_raw next).
Proof.
  intros Hk Hb Hv Hnot. rewrite parseArgs_parse_tokens.
  rewrite (parse_tokens_app (length pre)); [|lia|].
  2: { cbn [head]. apply dash_not_value, startsWith_dashes, long_name_starts. }
  cbn [parse_tokens]. rewrite long_name_starts, long_name_drop, Hb, Hv.
  rewrite (parses_options_absent k post _ _ (parse_tokens_reads post _) Hnot).
  rewrite (set_option_own k _ _ Hk). cbn [options]. apply lookup_insert_eq.
Qed.

Lemma parseArgs_last_value_wins_witness :
  options (parseArgs (["token"; "--chain"; "solana"] ++ "--chain" :: "base" :: ["--pretty"]))
    !! "chain" = Some (json_or_raw "base")
  /\ json_or_raw "base" = VStr "base".
Proof.
  split; [|vm_compute; reflexivity].
  apply (parseArgs_last_value_wins ["token"; "--chain"; "solana"] ["--pretty"] "chain" "base").
  - discriminate.
  - reflexivity.
  - reflexivity.
  - cbn. intros [H|[]]. discriminate H.
Defined.

(** ** The router *)

Lemma flag_truthy (fl : gmap string value) (k : string) :
  fl !! k = Some VTrue -> truthy (get fl k) = true.
Proof. intros H. unfold get. now rewrite H. Qed.

(** Input whose tokens all start with a dash has no positional argument. *)
Lemma positional_all_dashes (args : list string) :
  Forall (fun t => startsWith t "-" = true) args -> positional (parseArgs args) = [].
Proof.
  intros Hall. rewrite parseArgs_parse_tokens.
  destruct (parses_positional_sublist _ _ _ (parse_tokens_reads args empty_result))
    as (ps & E & Hsub & Hplain).
  cbn [empty_result positional app] in E. rewrite E.
  destruct ps as [|p ps]; [reflexivity|]. exfalso.
  apply sublist_subseteq in Hsub.
  assert (Hp : p ∈ args) by (apply Hsub; now left).
  rewrite Forall_forall in Hall. specialize (Hall p Hp).
  inversion Hplain; congruence.
Qed.

Lemma positional_first (t : string) (rest : list string) :
  startsWith t "-" = false ->
  head (positional (parseArgs (t :: rest))) = Some t.
Proof.
  intros Ht. rewrite parseArgs_parse_tokens. cbn [parse_tokens]. rewrite Ht.
  destruct (startsWith t "--") eqn:Hl; [now rewrite (startsWith_dashes _ Hl) in Ht|].
  destruct (parses_positional_sublist _ _ _
              (parse_tokens_reads rest (push_positional t empty_result)))
    as (ps & E & _). now rewrite E.
Qed.

(** X6: help comes first.  When a token of the input is [--help], [-help]
    or [-h], when the first token is [help], or when every token starts
    with a dash (so that there is no command), [runCLI] prints the help
    text and returns [{type: 'help'}]: no client is constructed, nothing is
    requested, [exit] is not called, whatever else the input holds. *)
Theorem runCLI_help_first (localeCompare : string -> string -> Z) (deps : Deps)
    (rawArgs : list string) :
  In "--help" rawArgs \/ In "-help" rawArgs \/ In "-h" rawArgs
  \/ head rawArgs = Some "help"
  \/ Forall (fun t => startsWith t "-" = true) rawArgs ->
  runCLI localeCompare deps rawArgs
  = ([Output (Some HELP)], Ok (obj [("type", VStr "help")])).
Proof.
  intros H. unfold runCLI.
  assert (Hhelp : String.eqb (subcommand_of (positional (parseArgs rawArgs))) "help"
                  || truthy (get (flags (parseArgs rawArgs)) "help")
                  || truthy (get (flags (parseArgs rawArgs)) "h") = true).
  { destruct H as [H|[H|[H|[H|H]]]].
    - pose proof (parses_records _ _ _ (parse_tokens_reads rawArgs empty_result) _ H
                    ltac:(cbn; intuition discriminate)) as [Hl _].
      rewrite <- parseArgs_parse_tokens in Hl.
      destruct (Hl eq_refl) as [Hf|[v Ho]].
      + change (drop_str 2 "--help") with "help" in Hf.
        rewrite (flag_truthy _ _ Hf). now rewrite orb_true_r.
      + change (drop_str 2 "--help") with "help" in Ho.
        rewrite parseArgs_parse_tokens in Ho.
        destruct (parses_options _ _ _ (parse_tokens_reads rawArgs empty_result) _ _ Ho)
          as [Hold|[Hb _]]; [|discriminate Hb].
        cbn in Hold. rewrite lookup_empty in Hold. discriminate.
    - pose proof (parses_records _ _ _ (parse_tokens_reads rawArgs empty_result) _ H
                    ltac:(cbn; intuition discriminate)) as [_ Hs].
      rewrite <- parseArgs_parse_tokens in Hs. specialize (Hs eq_refl eq_refl).
      change (drop_str 1 "-help") with "help" in Hs.
      rewrite (flag_truthy _ _ Hs). now rewrite orb_true_r.
    - pose proof (parses_records _ _ _ (parse_tokens_reads rawArgs empty_result) _ H
                    ltac:(cbn; intuition discriminate)) as [_ Hs].
      rewrite <- parseArgs_parse_tokens in Hs. specialize (Hs eq_refl eq_refl).
      change (drop_str 1 "-h") with "h" in Hs.
      rewrite (flag_truthy _ _ Hs). now rewrite orb_true_r.
    - destruct rawArgs as [|t rest]; [discriminate|]. injection H as ->.
      pose proof (positional_first "help" rest eq_refl) as Hp.
      destruct (positional (parseArgs ("help" :: rest))) as [|p ps]; [discriminate|].
      injection Hp as ->. reflexivity.
    - now rewrite (positional_all_dashes rawArgs H). }
  now rewrite Hhelp.
Qed.

Lemma runCLI_help_first_witness :
  runCLI (fun _ _ => 0%Z) (mkDeps (fun _ => Throw (TypeError "no client")))
    ["token"; "screener"; "--chain"; "-h"]
  = ([Output (Some HELP)], Ok (obj [("type", VStr "help")])).
Proof.
  apply runCLI_help_first. right. right. left. cbn. tauto.
Defined.






(** The error envelope is rendered in each of the three formats; as a
    table it is the line [Error: <message>]. *)
Lemma formatOutput_formatError (localeCompare : string -> string -> Z) (e : error)
    (pretty table : value) :
  exists rendered,
    formatOutput localeCompare (formatError e) pretty table
    = Ok (mkFormatted (if truthy table then "error" else "json") (Some rendered))
    /\ (truthy table = true -> rendered = "Error: " +:+ ToString (message e))
    /\ (truthy table = false ->
        Some rendered = if truthy pretty then JSON_stringify_pretty (formatError e)
                        else JSON_stringify (formatError e)).
Proof.
  unfold formatOutput, formatError. destruct (truthy table).
  - eexists. split; [reflexivity|]. split; [reflexivity|discriminate].
  - destruct (truthy pretty).
    + destruct (serialize_object "  " EmptyString
                  [("success", VBool false); ("error", message e);
                   ("code", or_else (code e) (VStr "UNKNOWN"));
                   ("status", or_else (status e) VNull);
                   ("details", or_else (data e) VNull)]) as [t Ht].
      unfold JSON_stringify_pretty. rewrite Ht. exists t.
      split; [reflexivity|]. split; [discriminate|intros _; reflexivity].
    + destruct (serialize_object EmptyString EmptyString
                  [("success", VBool false); ("error", message e);
                   ("code", or_else (code e) (VStr "UNKNOWN"));
                   ("status", or_else (status e) VNull);
                   ("details", or_else (data e) VNull)]) as [t Ht].
      unfold JSON_stringify. rewrite Ht. exists t.
      split; [reflexivity|]. split; [discriminate|intros _; reflexivity].
Qed.

Lemma formatOutput_error_text (localeCompare : string -> string -> Z) (e : error)
    (pretty table : value) :
  formatOutput localeCompare (formatError e) pretty table
  = Ok (mkFormatted (if truthy table then "error" else "json")
          (Some (error_text pretty table e)))
  /\ (truthy table = true -> error_text pretty table e = "Error: " +:+ ToString (message e))
  /\ (truthy table = false ->
      Some (error_text pretty table e)
      = if truthy pretty then JSON_stringify_pretty (formatError e)
        else JSON_stringify (formatError e)).
Proof.
  destruct (formatOutput_formatError localeCompare e pretty table)
    as (rendered & Hfmt & Htable & Hjson).
  assert (E : error_text pretty table e = rendered).
  { unfold error_text. destruct (truthy table).
    - symmetry. now apply Htable.
    - specialize (Hjson eq_refl). now rewrite <- Hjson. }
  rewrite E. split; [exact Hfmt|]. split; [exact Htable|exact Hjson].
Qed.

(** The success envelope around [v]: as a table it is the table of [v],
    or of the envelope when [v] is falsy; otherwise it is its JSON text. *)
Lemma formatOutput_success (localeCompare : string -> string -> Z) (v : value)
    (pretty table : value) :
  let envelope := obj [("success", VTrue); ("data", v)] in
  (truthy table = true ->
   formatOutput localeCompare envelope pretty table
   = match formatTable localeCompare (or_else v envelope) with
     | Ok t => Ok (mkFormatted "table" (Some t))
     | Throw e => Throw e
     end)
  /\ (truthy table = false ->
      exists t,
        Some t = (if truthy pretty then JSON_stringify_pretty envelope
                  else JSON_stringify envelope)
        /\ formatOutput localeCompare envelope pretty table = Ok (mkFormatted "json" (Some t))).
Proof.
  intros envelope. unfold formatOutput. split; intros ->.
  - reflexivity.
  - destruct (truthy pretty).
    + destruct (serialize_object "  " EmptyString [("success", VTrue); ("data", v)])
        as [t Ht].
      exists t. unfold JSON_stringify_pretty, envelope, obj. rewrite Ht. now split.
    + destruct (serialize_object EmptyString EmptyString [("success", VTrue); ("data", v)])
        as [t Ht].
      exists t. unfold JSON_stringify, envelope, obj. rewrite Ht. now split.
Qed.

(** X8: the run of a family command.  For [smart-money], [profiler],
    [token] and [portfolio], with no help flag set and no token
    [--__proto__] in the input, [runCLI] never throws.  It first
    constructs the client with the retry options; the handler then makes
    no request (it returns a value) or one request (whose answer is the
    value).  When the constructor, the handler, the request or the
    rendering of the table throws [e], [runCLI] prints the error envelope
    of [e] through [errorOutput] (the line [Error: <message>] as a table,
    the JSON text of [formatError(e)] otherwise), calls [exit(1)] and
    returns [{type: 'error', data: formatError(e)}].  Otherwise it prints
    the success envelope around the value through [output] (the table of
    the value, or of the envelope when the value is falsy; the JSON text
    of the envelope otherwise), does not call [exit], and returns
    [{type: 'success', data}]. *)
Theorem runCLI_family_run (localeCompare : string -> string -> Z) (deps : Deps)
    (f : family) (rawArgs : list string) :
  let parsed := parseArgs rawArgs in
  let subArgs := tail (positional parsed) in
  let opts := obj [("retry", retryOptions (flags parsed) (options parsed))] in
  let pretty := or_else (get (flags parsed) "pretty") (get (flags parsed) "p") in
  let table := or_else (get (flags parsed) "table") (get (flags parsed) "t") in
  let handled := result (family_handler f subArgs (flags parsed) (options parsed)) in
  let run := runCLI localeCompare deps rawArgs in
  let failed (requests : list event) (e : error) : Prop :=
    run = (New opts :: requests ++ [ErrorOutput (Some (error_text pretty table e)); Exit 1],
           Ok (obj [("type", VStr "error"); ("data", formatError e)])) in
  let printed (requests : list event) (v : value) (rendered : string) : Prop :=
    run = (New opts :: requests ++ [Output (Some rendered)],
           Ok (obj [("type", VStr "success"); ("data", v)])) in
  let finished (requests : list event) (v : value) : Prop :=
    let envelope := obj [("success", VTrue); ("data", v)] in
    (truthy table = true ->
     (forall e, formatTable localeCompare (or_else v envelope) = Throw e ->
        failed requests e)
     /\ (forall rendered, formatTable localeCompare (or_else v envelope) = Ok rendered ->
           printed requests v rendered))
    /\ (truthy table = false ->
        exists rendered,
          Some rendered = (if truthy pretty then JSON_stringify_pretty envelope
                           else JSON_stringify envelope)
          /\ printed requests v rendered) in
  subcommand_of (positional parsed) = family_command f ->
  truthy (get (flags parsed) "help") = false ->
  truthy (get (flags parsed) "h") = false ->
  ~ In "--__proto__" rawArgs ->
  (forall e,
      (truthy table = true -> error_text pretty table e = "Error: " +:+ ToString (message e))
      /\ (truthy table = false ->
          Some (error_text pretty table e)
          = if truthy pretty then JSON_stringify_pretty (formatError e)
            else JSON_stringify (formatError e)))
  /\ (forall e, NansenAPIClass deps [VUndefined; VUndefined; opts] = Throw e -> failed [] e)
  /\ (forall api, NansenAPIClass deps [VUndefined; VUndefined; opts] = Ok api ->
      (forall e, handled = Throw e -> failed [] e)
      /\ (forall v, handled = Ok (Return v) -> finished [] v)
      /\ (forall method params, handled = Ok (Call method params) ->
          (forall e, api method params = Throw e -> failed [Request method params] e)
          /\ (forall v, api method params = Ok v -> finished [Request method params] v))).
Proof.
  intros parsed subArgs opts pretty table handled run failed printed finished
    Hcmd Hhelp Hh _.
  split; [intros e; exact (proj2 (formatOutput_error_text localeCompare e pretty table))|].
  assert (Hrun : run
                 = match try_block localeCompare deps (family_handler f) subArgs
                           (flags parsed) (options parsed) pretty table with
                   | (evs, Ok v) => (evs, Ok v)
                   | (evs, Throw error) =>
                       (evs ++ [ErrorOutput (Some (error_text pretty table error)); Exit 1],
                        Ok (obj [("type", VStr "error"); ("data", formatError error)]))
                   end).
  { unfold run, runCLI. fold parsed. rewrite Hcmd, family_command_not_help, Hhelp, Hh.
    cbn [orb]. rewrite commands_family. fold subArgs. fold pretty. fold table.
    destruct (try_block _ _ _ _ _ _ _ _) as [evs [v|e]]; [reflexivity|].
    cbv zeta. now rewrite (proj1 (formatOutput_error_text localeCompare e pretty table)). }
  assert (Hfinished : forall api requests v,
             NansenAPIClass deps [VUndefined; VUndefined; opts] = Ok api ->
             (let '(evs, res) :=
                match handled with
                | Throw e => ([], Throw e)
                | Ok (Return v) => ([], Ok v)
                | Ok (Call method params) => ([Request method params], api method params)
                end in (evs, res)) = (requests, Ok v) ->
             finished requests v).
  { intros api requests v Hnew Hbody. unfold finished. cbv zeta.
    destruct (formatOutput_success localeCompare v pretty table) as [Htable Hjson].
    assert (Htry : try_block localeCompare deps (family_handler f) subArgs
                     (flags parsed) (options parsed) pretty table
                   = match formatOutput localeCompare (obj [("success", VTrue); ("data", v)])
                             pretty table with
                     | Throw e => (New opts :: requests, Throw e)
                     | Ok formatted =>
                         (New opts :: requests ++ [Output (text formatted)],
                          Ok (obj [("type", VStr "success"); ("data", v)]))
                     end).
    { unfold try_block. fold opts. rewrite Hnew. fold handled.
      destruct handled as [[v0|method params]|e0]; cbv beta iota in Hbody |- *.
      - injection Hbody as <- <-. reflexivity.
      - injection Hbody as <- Hv. rewrite Hv. reflexivity.
      - discriminate Hbody. }
    split.
    - intros Ht. specialize (Htable Ht). split.
      + intros e He. unfold failed. rewrite Hrun, Htry, Htable, He. reflexivity.
      + intros rendered Hr. unfold printed. rewrite Hrun, Htry, Htable, Hr. reflexivity.
    - intros Ht. destruct (Hjson Ht) as (rendered & Htext & Hfmt).
      exists rendered. split; [exact Htext|].
      unfold printed. rewrite Hrun, Htry, Hfmt. reflexivity. }
  split.
  - intros e Hnew. unfold failed. rewrite Hrun. unfold try_block. fold opts.
    rewrite Hnew. reflexivity.
  - intros api Hnew. split; [|split].
    + intros e He. unfold failed. rewrite Hrun. unfold try_block. fold opts.
      rewrite Hnew. fold handled. rewrite He. reflexivity.
    + intros v Hv. apply (Hfinished api); [exact Hnew|]. now rewrite Hv.
    + intros method params Hcall. split.
      * intros e He. unfold failed. rewrite Hrun. unfold try_block. fold opts.
        rewrite Hnew. fold handled. rewrite Hcall. cbv beta iota. rewrite He. reflexivity.
      * intros v Hv. apply (Hfinished api); [exact Hnew|]. rewrite Hcall. now rewrite Hv.
Qed.

(** [portfolio defi --wallet 0xabc] with a client whose methods resolve to
    [null]: one request, and the JSON text of the envelope is printed. *)
Lemma runCLI_family_run_witness :
  exists rendered,
    Some rendered = JSON_stringify (obj [("success", VTrue); ("data", VNull)])
    /\ runCLI (fun _ _ => 0%Z) (mkDeps (fun _ => Ok (fun _ _ => Ok VNull)))
         ["portfolio"; "defi"; "--wallet"; "0xabc"]
       = ([New (obj [("retry", obj [("maxRetries", VInt 3)])]);
           Request "portfolioDefiHoldings" (obj [("walletAddress", VStr "0xabc")]);
           Output (Some rendered)],
          Ok (obj [("type", VStr "success"); ("data", VNull)])).
Proof.
  destruct (runCLI_family_run (fun _ _ => 0%Z) (mkDeps (fun _ => Ok (fun _ _ => Ok VNull)))
              Portfolio ["portfolio"; "defi"; "--wallet"; "0xabc"]
              eq_refl eq_refl eq_refl ltac:(vm_compute; intuition discriminate))
    as (_ & _ & Hok).
  destruct (Hok (fun _ _ => Ok VNull) eq_refl) as (_ & _ & Hcall).
  destruct (Hcall "portfolioDefiHoldings" (obj [("walletAddress", VStr "0xabc")]) eq_refl)
    as (_ & Hdone).
  destruct (Hdone VNull eq_refl) as (_ & Hjson).
  exact (Hjson eq_refl).
Defined.

(** ** The table formatter *)

(** [Object.keys] fails on a record exactly when it is [null] or
    [undefined], and so does the enumeration of all keys. *)
Lemma all_keys_throws (records : list value) (e : error) :
  all_keys records = Throw e ->
  e = TypeError "Cannot convert undefined or null to object"
  /\ Exists (fun r => keyed r = false) records.
Proof.
  induction records as [|r records IH]; [discriminate|].
  cbn [all_keys]. destruct (Object_keys r) as [ks|e'] eqn:Hr.
  - destruct (all_keys records) as [ks'|e'']; [discriminate|].
    intros [= <-]. destruct (IH eq_refl) as [-> Hex]. split; [reflexivity|].
    now apply Exists_cons_tl.
  - intros [= <-]. destruct r; try discriminate Hr; injection Hr as <-;
      (split; [reflexivity|now apply Exists_cons_hd]).
Qed.

(** X9: [formatTable] throws exactly when one of the extracted records is
    [null] or [undefined], and what it throws is then the TypeError of
    [Object.keys]; [formatOutput] in table mode passes the error on, as for
    a success envelope whose data is [[null]]. *)
Theorem formatTable_throws_iff (localeCompare : string -> string -> Z) (data : value) :
  (forall e, formatTable localeCompare data = Throw e ->
     e = TypeError "Cannot convert undefined or null to object"
     /\ Exists (fun r => keyed r = false) (extract_records data))
  /\ (Exists (fun r => keyed r = false) (extract_records data) ->
      formatTable localeCompare data
      = Throw (TypeError "Cannot convert undefined or null to object"))
  /\ formatOutput localeCompare (obj [("success", VTrue); ("data", VArr [VNull])])
       VUndefined VTrue
     = Throw (TypeError "Cannot convert undefined or null to object").
Proof.
  split; [|split; [|reflexivity]].
  - intros e. unfold formatTable.
    destruct (extract_records data) as [|r records]; [discriminate|].
    unfold table_columns. destruct (all_keys (r :: records)) as [ks|e'] eqn:Hks;
      [discriminate|].
    intros [= <-]. exact (all_keys_throws _ _ Hks).
  - intros Hex. unfold formatTable.
    destruct (extract_records data) as [|r records]; [inversion Hex|].
    unfold table_columns. now rewrite (all_keys_unkeyed _ Hex).
Qed.

Lemma formatTable_throws_iff_witness :
  Exists (fun r => keyed r = false)
    (extract_records (obj [("data", VArr [obj [("name", VStr "a")]; VNull])]))
  /\ formatTable (fun _ _ => 0%Z) (obj [("data", VArr [obj [("name", VStr "a")]; VNull])])
     = Throw (TypeError "Cannot convert undefined or null to object").
Proof.
  assert (H : Exists (fun r => keyed r = false)
                (extract_records (obj [("data", VArr [obj [("name", VStr "a")]; VNull])])))
    by (apply Exists_cons_tl, Exists_cons_hd; reflexivity).
  split; [exact H|].
  exact (proj1 (proj2 (formatTable_throws_iff (fun _ _ => 0%Z)
                         (obj [("data", VArr [obj [("name", VStr "a")]; VNull])]))) H).
Defined.

(** *** The order of the columns *)

Lemma indexOf_from_lookup (l : list string) (x : string) :
  forall i n, (0 <= i)%Z -> indexOf_from i l x = n -> n <> (-1)%Z ->
    (i <= n)%Z /\ l !! Z.to_nat (n - i) = Some x.
Proof.
  induction l as [|y l IH]; intros i n Hi E Hn; cbn [indexOf_from] in E; [congruence|].
  destruct (String.eqb y x) eqn:Hyx.
  - apply String.eqb_eq in Hyx as ->. subst n. split; [lia|].
    now replace (i - i)%Z with 0%Z by lia.
  - destruct (IH (i + 1)%Z n ltac:(lia) E Hn) as [Hle Hl]. split; [lia|].
    replace (Z.to_nat (n - i)) with (S (Z.to_nat (n - (i + 1)))) by lia. exact Hl.
Qed.

Lemma indexOf_from_absent (l : list string) (x : string) :
  forall i, indexOf_from i l x = (-1)%Z -> (0 <= i)%Z -> ~ In x l.
Proof.
  induction l as [|y l IH]; intros i E Hi; [now intros []|].
  cbn [indexOf_from] in E. destruct (String.eqb y x) eqn:Hyx; [lia|].
  apply String.eqb_neq in Hyx. intros [H|H]; [congruence|].
  exact (IH (i + 1)%Z E ltac:(lia) H).
Qed.

Lemma indexOf_from_present (l : list string) (x : string) :
  forall i, In x l -> (0 <= i)%Z -> indexOf_from i l x <> (-1)%Z.
Proof.
  induction l as [|y l IH]; intros i Hin Hi; [destruct Hin|].
  cbn [indexOf_from]. destruct (String.eqb y x) eqn:Hyx; [lia|].
  apply String.eqb_neq in Hyx. destruct Hin as [H|H]; [congruence|].
  apply IH; [exact H|lia].
Qed.

(** [l.indexOf(x) !== -1] says that [x] is in [l], and distinct members
    have distinct indices. *)
Lemma indexOf_member (l : list string) (x : string) :
  (indexOf l x =? -1)%Z = false <-> In x l.
Proof.
  unfold indexOf. split.
  - intros H. apply Z.eqb_neq in H.
    destruct (indexOf_from_lookup l x 0 _ ltac:(lia) eq_refl H) as [_ Hl].
    apply list_elem_of_In. exact (list_elem_of_lookup_2 _ _ _ Hl).
  - intros H. apply Z.eqb_neq. apply indexOf_from_present; [exact H|lia].
Qed.

Lemma indexOf_inj (l : list string) (x y : string) :
  In x l -> indexOf l x = indexOf l y -> x = y.
Proof.
  intros Hx E. unfold indexOf in *.
  pose proof (indexOf_from_present l x 0 Hx ltac:(lia)) as Hnx.
  destruct (indexOf_from_lookup l x 0 _ ltac:(lia) eq_refl Hnx) as [_ Hlx].
  assert (Hny : indexOf_from 0 l y <> (-1)%Z) by congruence.
  destruct (indexOf_from_lookup l y 0 _ ltac:(lia) eq_refl Hny) as [_ Hly].
  rewrite E in Hlx. congruence.
Qed.

Lemma insert_sorted_In (cmp : string -> string -> Z) (x : string) (l : list string) (b : string) :
  In b (insert_sorted cmp x l) <-> b = x \/ In b l.
Proof.
  induction l as [|y l IH]; cbn [insert_sorted].
  - cbn. intuition congruence.
  - destruct (cmp x y <? 0)%Z; cbn [In]; [intuition congruence|].
    rewrite IH. cbn [In]. intuition congruence.
Qed.

Lemma compare_columns_cases (localeCompare : string -> string -> Z) (x y : string) :
  (In x priorityFields /\ In y priorityFields
   /\ compare_columns localeCompare x y
      = (indexOf priorityFields x - indexOf priorityFields y)%Z)
  \/ (In x priorityFields /\ ~ In y priorityFields
      /\ compare_columns localeCompare x y = (-1)%Z)
  \/ (~ In x priorityFields /\ In y priorityFields
      /\ compare_columns localeCompare x y = 1%Z)
  \/ (~ In x priorityFields /\ ~ In y priorityFields
      /\ compare_columns localeCompare x y = localeCompare x y).
Proof.
  unfold compare_columns.
  destruct (indexOf priorityFields x =? -1)%Z eqn:Hx;
    destruct (indexOf priorityFields y =? -1)%Z eqn:Hy; cbn [negb andb].
  - right. right. right. split; [|split; [|reflexivity]];
      intros H; apply indexOf_member in H; congruence.
  - right. right. left. split; [|split; [|reflexivity]].
    + intros H; apply indexOf_member in H; congruence.
    + now apply indexOf_member.
  - right. left. split; [|split; [|reflexivity]].
    + now apply indexOf_member.
    + intros H; apply indexOf_member in H; congruence.
  - left. split; [|split; [|reflexivity]]; now apply indexOf_member.
Qed.

Lemma insert_sorted_priority_first (localeCompare : string -> string -> Z) (x : string)
    (l : list string) :
  priority_first l -> ~ In x l ->
  priority_first (insert_sorted (compare_columns localeCompare) x l).
Proof.
  induction l as [|y l IH]; intros Hok Hnot; cbn [insert_sorted].
  - cbn. split; [intros b []|exact I].
  - destruct Hok as [Hy Hok].
    destruct (compare_columns_cases localeCompare x y)
      as [(Hx & Hyp & E)|[(Hx & Hyp & E)|[(Hx & Hyp & E)|(Hx & Hyp & E)]]];
      rewrite E.
    + destruct (indexOf priorityFields x - indexOf priorityFields y <? 0)%Z eqn:Hlt.
      * apply Z.ltb_lt in Hlt. split; [|split; assumption].
        intros b [<-|Hb] Hbp; [split; [exact Hx|lia]|].
        destruct (Hy b Hb Hbp) as [_ Hlt']. split; [exact Hx|lia].
      * apply Z.ltb_ge in Hlt. split; [|apply IH; [exact Hok|cbn in Hnot; tauto]].
        intros b Hb Hbp. apply insert_sorted_In in Hb as [->|Hb]; [|now apply Hy].
        split; [exact Hyp|].
        assert (indexOf priorityFields y <> indexOf priorityFields x).
        { intros E'. apply Hnot. left. exact (indexOf_inj _ _ _ Hyp E'). }
        lia.
    + change (-1 <? 0)%Z with true. cbv iota. split; [|split; assumption].
      intros b [<-|Hb] Hbp; [contradiction|].
      destruct (Hy b Hb Hbp) as [Hyp' _]. contradiction.
    + change (1 <? 0)%Z with false. cbv iota.
      split; [|apply IH; [exact Hok|cbn in Hnot; tauto]].
      intros b Hb Hbp. apply insert_sorted_In in Hb as [->|Hb]; [contradiction|].
      now apply Hy.
    + destruct (localeCompare x y <? 0)%Z.
      * split; [|split; assumption].
        intros b [<-|Hb] Hbp; [contradiction|].
        destruct (Hy b Hb Hbp) as [Hyp' _]. contradiction.
      * split; [|apply IH; [exact Hok|cbn in Hnot; tauto]].
        intros b Hb Hbp. apply insert_sorted_In in Hb as [->|Hb]; [contradiction|].
        now apply Hy.
Qed.

Lemma insert_sorted_Permutation (cmp : string -> string -> Z) (x : string) (l : list string) :
  insert_sorted cmp x l ≡ₚ x :: l.
Proof.
  induction l as [|y l IH]; cbn [insert_sorted]; [reflexivity|].
  destruct (cmp x y <? 0)%Z; [reflexivity|].
  rewrite IH. apply Permutation_swap.
Qed.

Lemma sort_fold_Permutation (cmp : string -> string -> Z) (l : list string) :
  forall acc, fold_left (fun acc x => insert_sorted cmp x acc) l acc ≡ₚ l ++ acc.
Proof.
  induction l as [|x l IH]; intros acc; cbn [fold_left app]; [reflexivity|].
  rewrite IH, insert_sorted_Permutation. now rewrite Permutation_middle.
Qed.

Lemma sort_by_Permutation (cmp : string -> string -> Z) (l : list string) :
  sort_by cmp l ≡ₚ l.
Proof. unfold sort_by. rewrite sort_fold_Permutation. now rewrite app_nil_r. Qed.

Lemma sort_fold_priority_first (localeCompare : string -> string -> Z) (l : list string) :
  forall acc, priority_first acc -> NoDup l -> (forall x, In x l -> ~ In x acc) ->
    priority_first
      (fold_left (fun acc x => insert_sorted (compare_columns localeCompare) x acc) l acc).
Proof.
  induction l as [|x l IH]; intros acc Hok Hnd Hdis; cbn [fold_left]; [exact Hok|].
  apply NoDup_cons in Hnd as [Hx Hnd].
  apply IH; [|exact Hnd|].
  - apply insert_sorted_priority_first; [exact Hok|]. apply Hdis. now left.
  - intros y Hy Hin. apply insert_sorted_In in Hin as [->|Hin].
    + apply Hx. now apply list_elem_of_In.
    + exact (Hdis y (or_intror Hy) Hin).
Qed.

(** [[...new Set(l)]] has no duplicates and the members of [l]. *)
Lemma dedup_keys_spec (l : list string) :
  forall seen,
    NoDup (dedup_keys seen l)
    /\ forall x, In x (dedup_keys seen l) <-> In x l /\ ~ In x seen.
Proof.
  induction l as [|y l IH]; intros seen; cbn [dedup_keys].
  - split; [constructor|]. intros x. cbn. tauto.
  - destruct (existsb (String.eqb y) seen) eqn:Hseen.
    + destruct (IH seen) as [Hnd Hin]. split; [exact Hnd|].
      intros x. rewrite Hin. cbn [In]. split; [tauto|].
      intros [[<-|Hx] Hns]; [|tauto].
      exfalso. apply Hns. apply existsb_exists in Hseen as (z & Hz & E).
      apply String.eqb_eq in E. now subst.
    + destruct (IH (y :: seen)) as [Hnd Hin]. split.
      * apply NoDup_cons. split; [|exact Hnd].
        rewrite list_elem_of_In, Hin. cbn. tauto.
      * intros x. cbn [In]. rewrite Hin. cbn [In].
        assert (Hy : ~ In y seen).
        { intros Hy. apply not_true_iff_false in Hseen. apply Hseen.
          apply existsb_exists. exists y. split; [exact Hy|apply String.eqb_refl]. }
        split.
        -- intros [<-|[Hx Hns]]; [tauto|tauto].
        -- intros [[<-|Hx] Hns]; [now left|].
           destruct (decide (y = x)) as [->|Hne]; [now left|]. right. tauto.
Qed.

Lemma priority_first_lookup (l : list string) :
  priority_first l ->
  forall i j a b, l !! i = Some a -> l !! j = Some b -> (i < j)%nat ->
    In b priorityFields ->
    In a priorityFields /\ (indexOf priorityFields a < indexOf priorityFields b)%Z.
Proof.
  induction l as [|c l IH]; intros Hok i j a b Hi Hj Hlt Hb; [discriminate|].
  destruct Hok as [Hc Hok]. destruct j as [|j]; [lia|]. cbn in Hj.
  destruct i as [|i].
  - injection Hi as <-. apply Hc; [|exact Hb].
    apply list_elem_of_In. exact (list_elem_of_lookup_2 _ _ _ Hj).
  - cbn in Hi. exact (IH Hok i j a b Hi Hj ltac:(lia) Hb).
Qed.

(** X10: the order of the columns, whatever the collation.  In the columns
    of a table, every column that stands before a priority field is itself
    a priority field, and comes earlier in the list of priority fields:
    the priority fields present come first, in their fixed order
    (token_symbol, token_name, symbol, name, address, ...). *)
Theorem table_columns_priority_first (localeCompare : string -> string -> Z)
    (records : list value) (columns : list string) :
  table_columns localeCompare records = Ok columns ->
  forall i j a b,
    columns !! i = Some a -> columns !! j = Some b -> (i < j)%nat ->
    In b priorityFields ->
    In a priorityFields /\ (indexOf priorityFields a < indexOf priorityFields b)%Z.
Proof.
  unfold table_columns. destruct (all_keys records) as [ks|e]; [|discriminate].
  intros [= <-] i j a b Hi Hj Hlt Hb.
  apply lookup_take_Some in Hi as [Hi _]. apply lookup_take_Some in Hj as [Hj _].
  refine (priority_first_lookup _ _ i j a b Hi Hj Hlt Hb).
  unfold sort_by. apply sort_fold_priority_first.
  - exact I.
  - apply (dedup_keys_spec ks []).
  - intros x _ [].
Qed.

Lemma table_columns_priority_first_witness :
  table_columns (fun _ _ => 0%Z)
    [obj [("zzz", VInt 1); ("name", VStr "a"); ("aaa", VInt 2); ("token_symbol", VStr "T")]]
  = Ok ["token_symbol"; "name"; "zzz"; "aaa"]
  /\ In "token_symbol" priorityFields
  /\ (indexOf priorityFields "token_symbol" < indexOf priorityFields "name")%Z.
Proof.
  assert (H : table_columns (fun _ _ => 0%Z)
                [obj [("zzz", VInt 1); ("name", VStr "a"); ("aaa", VInt 2);
                      ("token_symbol", VStr "T")]]
              = Ok ["token_symbol"; "name"; "zzz"; "aaa"]) by reflexivity.
  split; [exact H|].
  apply (table_columns_priority_first _ _ _ H 0%nat 1%nat "token_symbol" "name");
    [reflexivity|reflexivity|lia|cbn; tauto].
Defined.

(** X11: the columns are distinct keys of the records, at most eight of
    them, and when the records have at most eight distinct keys every key
    is a column. *)
Theorem table_columns_keys (localeCompare : string -> string -> Z)
    (records : list value) (columns : list string) :
  table_columns localeCompare records = Ok columns ->
  exists ks,
    all_keys records = Ok ks
    /\ NoDup columns
    /\ (forall c, In c columns -> In c ks)
    /\ length columns = Nat.min 8 (length (dedup_keys [] ks))
    /\ ((length (dedup_keys [] ks) <= 8)%nat -> forall k, In k ks -> In k columns).
Proof.
  unfold table_columns. destruct (all_keys records) as [ks|e]; [|discriminate].
  intros [= <-]. exists ks. split; [reflexivity|].
  destruct (dedup_keys_spec ks []) as [Hnd Hin].
  pose proof (sort_by_Permutation (compare_columns localeCompare) (dedup_keys [] ks)) as Hp.
  assert (Hnds : NoDup (sort_by (compare_columns localeCompare) (dedup_keys [] ks)))
    by now rewrite Hp.
  split; [|split; [|split]].
  - eapply sublist_NoDup; [exact Hnds|apply sublist_take].
  - intros c Hc. apply list_elem_of_In in Hc.
    eapply elem_of_sublist in Hc; [|apply sublist_take].
    rewrite Hp in Hc. apply list_elem_of_In in Hc. now apply Hin in Hc.
  - rewrite length_take. now rewrite Hp.
  - intros Hlen k Hk. rewrite take_ge by (rewrite Hp; lia).
    apply list_elem_of_In. rewrite Hp. apply list_elem_of_In. apply Hin. tauto.
Qed.

Lemma table_columns_keys_witness :
  exists ks,
    all_keys [obj [("b", VInt 1); ("a", VInt 2)]; obj [("a", VInt 3); ("c", VNull)]] = Ok ks
    /\ NoDup ["a"; "b"; "c"]
    /\ length ["a"; "b"; "c"] = Nat.min 8 (length (dedup_keys [] ks)).
Proof.
  destruct (table_columns_keys Doubles.bytewise
              [obj [("b", VInt 1); ("a", VInt 2)]; obj [("a", VInt 3); ("c", VNull)]]
              ["a"; "b"; "c"] eq_refl) as (ks & H1 & H2 & _ & H4 & _).
  exists ks. repeat split; assumption.
Defined.

(** *** Lengths and cuts in code units *)

Lemma char_code_byte (n : Z) : (0 <= n < 256)%Z -> char_code (byte n) = n.
Proof.
  intros H. unfold char_code, byte.
  rewrite Ascii.N_ascii_embedding by lia. lia.
Qed.

Lemma continuation_byte (x : Z) : is_continuation (byte (128 + x mod 64)) = true.
Proof.
  pose proof (Z.mod_pos_bound x 64 ltac:(lia)) as H.
  unfold is_continuation. rewrite char_code_byte by lia.
  apply andb_true_iff. split; [apply Z.leb_le|apply Z.ltb_lt]; lia.
Qed.

Lemma str_length_surrogate (u : Z) : str_length (surrogate u) = 1%nat.
Proof.
  unfold surrogate. cbn [str_length]. unfold code_units at 2 3.
  rewrite !continuation_byte. reflexivity.
Qed.

Lemma slice_to_surrogate (n : nat) (u : Z) : slice_to (S n) (surrogate u) = surrogate u.
Proof.
  unfold surrogate. cbn [slice_to].
  change (is_continuation (byte 237)) with false.
  change (is_lead4 (byte 237)) with false. cbv beta iota.
  rewrite !continuation_byte. reflexivity.
Qed.

Lemma str_length_app (s t : string) : str_length (s +:+ t) = (str_length s + str_length t)%nat.
Proof.
  induction s as [|c s IH]; [reflexivity|].
  change (String c s +:+ t) with (String c (s +:+ t)). cbn [str_length]. rewrite IH. lia.
Qed.

Lemma str_length_spaces (n : nat) : str_length (repeat_str " " n) = n.
Proof.
  induction n as [|n IH]; [reflexivity|].
  cbn [repeat_str]. change (" " +:+ repeat_str " " n) with (String " " (repeat_str " " n)).
  cbn [str_length]. rewrite IH. reflexivity.
Qed.

Lemma str_length_padEnd (s : string) (w : nat) :
  str_length (padEnd s w) = Nat.max (str_length s) w.
Proof. unfold padEnd. rewrite str_length_app, str_length_spaces. lia. Qed.

Lemma code_units_cases (c : ascii) :
  (is_continuation c = true /\ code_units c = 0%nat)
  \/ (is_continuation c = false /\ is_lead4 c = true /\ code_units c = 2%nat)
  \/ (is_continuation c = false /\ is_lead4 c = false /\ code_units c = 1%nat).
Proof.
  unfold code_units. destruct (is_continuation c); [tauto|].
  destruct (is_lead4 c); tauto.
Qed.

(** The cut has [n] code units, or all there are. *)
Lemma str_length_slice_to (n : nat) (s : string) :
  str_length (slice_to n s) = Nat.min n (str_length s).
Proof.
  revert n. induction s as [|c s IH]; intros n; [cbn; lia|].
  cbn [slice_to str_length].
  destruct (code_units_cases c) as [(Hc & ->)|[(Hc & Hl & ->)|(Hc & Hl & ->)]];
    rewrite Hc; try rewrite Hl.
  - cbn [str_length]. unfold code_units. rewrite Hc. rewrite IH. lia.
  - destruct n as [|[|n]]; [reflexivity| |].
    + unfold high_surrogate. rewrite str_length_surrogate. lia.
    + cbn [str_length]. unfold code_units. rewrite Hc, Hl, IH. lia.
  - destruct n as [|n]; [reflexivity|].
    cbn [str_length]. unfold code_units. rewrite Hc, Hl, IH. lia.
Qed.

(** A string that is short enough is not cut. *)
Lemma slice_to_all (n : nat) (s : string) : (str_length s <= n)%nat -> slice_to n s = s.
Proof.
  revert n. induction s as [|c s IH]; intros n; [reflexivity|].
  cbn [slice_to str_length].
  destruct (code_units_cases c) as [(Hc & ->)|[(Hc & Hl & ->)|(Hc & Hl & ->)]];
    rewrite Hc; try rewrite Hl; intros H.
  - now rewrite IH by lia.
  - destruct n as [|[|n]]; [lia|lia|]. now rewrite IH by lia.
  - destruct n as [|n]; [lia|]. now rewrite IH by lia.
Qed.

Lemma continuation_slice_to (n : nat) (s : string) :
  continuation (slice_to n s) = continuation s.
Proof.
  induction s as [|c s IH]; [reflexivity|].
  cbn [slice_to continuation]. destruct (is_continuation c) eqn:Hc.
  - cbn [continuation]. now rewrite Hc, IH.
  - destruct n as [|n]; [reflexivity|].
    destruct (is_lead4 c); [destruct n|]; try (cbn [continuation]; now rewrite Hc).
    unfold high_surrogate, surrogate. reflexivity.
Qed.

(** Cutting twice is cutting at the shorter length. *)
Lemma slice_to_slice_to (a b : nat) (s : string) :
  slice_to a (slice_to b s) = slice_to (Nat.min a b) s.
Proof.
  revert a b. induction s as [|c s IH]; intros a b; [reflexivity|].
  cbn [slice_to]. destruct (is_continuation c) eqn:Hc.
  - cbn [slice_to]. now rewrite Hc, IH.
  - destruct b as [|b]; [rewrite Nat.min_0_r; reflexivity|].
    destruct (is_lead4 c) eqn:Hl.
    + destruct b as [|b].
      * destruct a as [|a]; [reflexivity|].
        unfold high_surrogate. rewrite slice_to_surrogate.
        replace (Nat.min (S a) 1) with 1%nat by lia. reflexivity.
      * destruct a as [|[|a]]; cbn [slice_to Nat.min]; rewrite Hc; [reflexivity| |];
          rewrite Hl.
        -- now rewrite continuation_slice_to.
        -- now rewrite IH.
    + destruct a as [|a]; cbn [slice_to Nat.min]; rewrite Hc; [reflexivity|].
      now rewrite Hl, IH.
Qed.

(** The letter U+00E9 is one code unit and the character U+1F600 is
    two, the surrogates U+D83D and U+DE00; a cut between the two leaves
    the first. *)
Lemma code_unit_examples :
  str_length (utf8 233) = 1%nat
  /\ str_length (utf8 128512) = 2%nat
  /\ slice_to 1 (utf8 128512) = utf8 55357
  /\ slice_to 3 ("a" +:+ utf8 128512 +:+ "b") = "a" +:+ utf8 128512
  /\ char_at (utf8 128512) 0 = Some (utf8 55357)
  /\ char_at (utf8 128512) 1 = Some (utf8 56832)
  /\ char_at ("a" +:+ utf8 233 +:+ "b") 1 = Some (utf8 233)
  /\ padEnd (utf8 233) 3 = utf8 233 +:+ "  ".
Proof. repeat split; vm_compute; reflexivity. Qed.

(** *** Cells *)

Lemma max_list_ge (l : list nat) (n : nat) : In n l -> (n <= max_list l)%nat.
Proof.
  induction l as [|m l IH]; intros []; cbn [max_list fold_right].
  - subst. lia.
  - specialize (IH H). unfold max_list in IH. lia.
Qed.

Lemma max_list_attained (l : list nat) : max_list l = 0%nat \/ In (max_list l) l.
Proof.
  induction l as [|m l IH]; [now left|].
  cbn [max_list fold_right]. fold (max_list l).
  destruct (Nat.max_spec m (max_list l)) as [[Hlt ->]|[Hle ->]].
  - destruct IH as [E|Hin]; [lia|]. right. now right.
  - right. now left.
Qed.

(** X12: the cells of a table, in UTF-16 code units as the source counts
    them.  For records that are values with properties, the width of a
    column is the length of its name or of the longest formatted value
    of the records in it, whichever is larger, and 30 when that exceeds
    30.  A data cell is exactly as wide as its column: the value is cut
    only when it is longer than 30, and is otherwise padded with spaces.
    The header cell is padded but never cut: a column name longer than 30
    makes it wider than the cells below it. *)
Theorem table_cells_fit (records : list value) (col : string) (record : value) :
  Forall (fun r => keyed r = true) records ->
  In record records ->
  let w := column_width records col in
  let v := formatValue (get_prop record col) in
  let cell := table_row [col] [w] record in
  (w <= 30)%nat
  /\ (Nat.min (str_length col) 30 <= w)%nat
  /\ (Nat.min (str_length v) 30 <= w)%nat
  /\ (w = Nat.min (str_length col) 30
      \/ exists r, In r records
                   /\ w = Nat.min (str_length (formatValue (get_prop r col))) 30)
  /\ str_length cell = w
  /\ ((str_length v <= 30)%nat -> cell = v +:+ repeat_str " " (w - str_length v))
  /\ ((30 < str_length v)%nat -> w = 30%nat /\ cell = slice_to 30 v)
  /\ table_header [col] [w] = col +:+ repeat_str " " (w - str_length col)
  /\ str_length (table_header [col] [w]) = Nat.max (str_length col) w.
Proof.
  intros _ Hr w v cell.
  assert (Hw : (w <= 30)%nat) by (unfold w, column_width; lia).
  assert (Hrow : cell = padEnd (slice_to w v) w) by reflexivity.
  assert (Hv : (str_length v
                <= max_list (map (fun r => str_length (formatValue (get_prop r col)))
                               records))%nat).
  { apply max_list_ge. apply in_map_iff. exists record. now split. }
  assert (Hin : (Nat.min (str_length v) 30 <= w)%nat) by (unfold w, column_width; lia).
  split; [exact Hw|]. split; [unfold w, column_width; lia|]. split; [exact Hin|].
  split; [|split; [|split; [|split; [|split]]]].
  - destruct (max_list_attained
                (map (fun r => str_length (formatValue (get_prop r col))) records))
      as [E|Hmax].
    + left. unfold w, column_width. rewrite E. lia.
    + destruct (Nat.le_gt_cases
                  (max_list (map (fun r => str_length (formatValue (get_prop r col)))
                               records)) (str_length col)) as [Hle|Hgt].
      * left. unfold w, column_width. lia.
      * right. apply in_map_iff in Hmax as (r & E & Hrin). exists r. split; [exact Hrin|].
        unfold w, column_width. rewrite E. lia.
  - rewrite Hrow, str_length_padEnd, str_length_slice_to. lia.
  - intros Hlen. rewrite Hrow. unfold padEnd. now rewrite slice_to_all by lia.
  - intros Hlen. assert (E : w = 30%nat) by lia. split; [exact E|].
    rewrite Hrow, E. unfold padEnd. rewrite str_length_slice_to.
    replace (30 - Nat.min 30 (str_length v))%nat with 0%nat by lia.
    cbn [repeat_str].
    generalize (slice_to 30 v). intros s. induction s as [|c s IH]; [reflexivity|].
    change (String c s +:+ EmptyString) with (String c (s +:+ EmptyString)). now rewrite IH.
  - reflexivity.
  - change (table_header [col] [w]) with (padEnd col w). apply str_length_padEnd.
Qed.

(** A column of two names, the second with a letter outside ASCII: its
    two bytes count as one code unit, and the cell is padded to the six
    of the longest name. *)
Lemma table_cells_fit_witness :
  column_width [obj [("name", VStr "Token1")]; obj [("name", VStr ("T" +:+ utf8 233))]] "name"
  = 6%nat
  /\ table_row ["name"]
       [column_width [obj [("name", VStr "Token1")]; obj [("name", VStr ("T" +:+ utf8 233))]]
          "name"]
       (obj [("name", VStr ("T" +:+ utf8 233))])
     = ("T" +:+ utf8 233) +:+ "    ".
Proof.
  pose proof (table_cells_fit
                [obj [("name", VStr "Token1")]; obj [("name", VStr ("T" +:+ utf8 233))]]
                "name" (obj [("name", VStr ("T" +:+ utf8 233))])
                ltac:(repeat constructor) ltac:(cbn; tauto)) as H.
  cbv zeta in H. destruct H as (_ & _ & _ & _ & _ & H & _).
  split; [reflexivity|].
  rewrite H; [reflexivity|vm_compute; lia].
Defined.

(** X13: the inputs for which [formatTable] answers [No data]: everything
    that is not an object ([undefined], booleans, numbers, strings),
    [null], the empty array, and every object whose [data] field is an
    empty array, whatever its other fields hold. *)
Theorem formatTable_no_data (localeCompare : string -> string -> Z) :
  (forall data, typeof_object data = false -> formatTable localeCompare data = Ok "No data")
  /\ formatTable localeCompare VNull = Ok "No data"
  /\ formatTable localeCompare (VArr []) = Ok "No data"
  /\ (forall ps, obj_get ps "data" = VArr [] ->
        formatTable localeCompare (VObj ps) = Ok "No data").
Proof.
  split; [|split; [reflexivity|split; [reflexivity|]]].
  - intros data H. destruct data; try discriminate H; reflexivity.
  - intros ps H. unfold formatTable, extract_records. cbn [get_opt get_prop]. now rewrite H.
Qed.

Lemma formatTable_no_data_witness :
  formatTable (fun _ _ => 0%Z) (VStr "text") = Ok "No data"
  /\ formatTable (fun _ _ => 0%Z)
       (obj [("data", VArr []); ("results", VArr [obj [("name", VStr "a")]])])
     = Ok "No data".
Proof.
  split.
  - exact (proj1 (formatTable_no_data (fun _ _ => 0%Z)) (VStr "text") eq_refl).
  - exact (proj2 (proj2 (proj2 (formatTable_no_data (fun _ _ => 0%Z))))
             [("data", VArr []); ("results", VArr [obj [("name", VStr "a")]])] eq_refl).
Defined.

(** ** The family handlers *)

(** X14: the help of a family.  With no subcommand, with an empty one or
    with [help], each family handler (when its options resolve) returns
    its descriptor without calling the API, and the [commands] of the
    descriptor are exactly the other names of the family's handler map, in
    the order of the map: the help advertises every subcommand that is
    dispatched, and nothing else. *)
Theorem family_help_lists_subcommands (f : family) (args : list string)
    (flags options : gmap string value) (a : action) :
  subcommand_of args = "help" ->
  result (family_handler f args flags options) = Ok a ->
  exists description example,
    a = Return
          (obj [("commands",
                 strings (List.filter (fun s => negb (String.eqb s "help"))
                            (family_subcommands f)));
                ("description", VStr description);
                ("example", VStr example)]).
Proof.
  intros Hsub H.
  destruct f; handler_resolved H; rewrite Hsub in H; injection H as <-;
    eexists _, _; reflexivity.
Qed.

Lemma family_help_lists_subcommands_witness :
  exists description example,
    Return (obj [("commands", strings ["defi"; "defi-holdings"]);
                 ("description", VStr "Portfolio analytics endpoints");
                 ("example", VStr "nansen portfolio defi --wallet 0x123...")])
    = Return
        (obj [("commands",
               strings (List.filter (fun s => negb (String.eqb s "help"))
                          (family_subcommands Portfolio)));
              ("description", VStr description);
              ("example", VStr example)]).
Proof.
  exact (family_help_lists_subcommands Portfolio [] ∅ ∅ _ eq_refl eq_refl).
Defined.

(** The two forms of the token, for each number of days up to 1000. *)
Lemma days_checked :
  map (fun n => (resolve_days (options (parseArgs ["--days"; decimal (Z.of_nat n)])),
                 resolve_days (options (parseArgs ["--days"; decimal (Z.of_nat n) +:+ "d"]))))
    (seq 1 1000)
  = map (fun n => (VInt (Z.of_nat n), VInt (Z.of_nat n))) (seq 1 1000).
Proof. vm_compute. reflexivity. Qed.

(** X15: the number of days.  For every whole number [n] from 1 to 1000,
    the tokens [--days n] and [--days nd] (as in [7d]) both resolve to the
    number [n]: the token is read by [parseArgs] (as a JSON number, or as
    the raw string), and [parseInt] reads the number back from its string
    form.  Without the option, and with [--days 0], the number of days is
    30. *)
Theorem days_of_token (n : nat) :
  ((1 <= n <= 1000)%nat ->
   resolve_days (options (parseArgs ["--days"; decimal (Z.of_nat n)])) = VInt (Z.of_nat n)
   /\ resolve_days (options (parseArgs ["--days"; decimal (Z.of_nat n) +:+ "d"]))
      = VInt (Z.of_nat n))
  /\ resolve_days (options (parseArgs [])) = VInt 30
  /\ resolve_days (options (parseArgs ["--days"; "0"])) = VInt 30.
Proof.
  split; [|split; vm_compute; reflexivity].
  intros Hn.
  assert (Hin : In n (seq 1 1000)) by (apply in_seq; lia).
  pose proof (proj1 map_ext_in_iff days_checked n Hin) as E.
  cbv beta in E. now injection E.
Qed.

Lemma days_of_token_witness :
  resolve_days (options (parseArgs ["--days"; "7"])) = VInt 7
  /\ resolve_days (options (parseArgs ["--days"; "7d"])) = VInt 7.
Proof.
  exact (proj1 (days_of_token 7) ltac:(lia)).
Defined.

(** *** Derived filters *)

Lemma obj_get_absent (ps : list (string * value)) (k : string) :
  obj_has ps k = false -> obj_get ps k = VUndefined.
Proof.
  induction ps as [|[k' v'] ps IH]; [reflexivity|].
  cbn [obj_has obj_get]. destruct (String.eqb k' k); [discriminate|exact IH].
Qed.

Lemma obj_get_replace (ps : list (string * value)) (k k' : string) (v : value) :
  obj_has ps k = true ->
  obj_get (obj_replace ps k v) k' = if String.eqb k k' then v else obj_get ps k'.
Proof.
  induction ps as [|[k0 v0] ps IH]; [discriminate|].
  cbn [obj_has obj_replace obj_get]. destruct (String.eqb k0 k) eqn:E0.
  - intros _. apply String.eqb_eq in E0 as ->. cbn [obj_get].
    now destruct (String.eqb k k').
  - cbn [orb obj_get]. intros H. rewrite (IH H).
    destruct (String.eqb k0 k') eqn:E1; [|reflexivity].
    apply String.eqb_eq in E1 as ->. rewrite String.eqb_sym in E0. now rewrite E0.
Qed.

Lemma obj_get_insert_index (ps : list (string * value)) (i : Z) (k k' : string) (v : value) :
  obj_has ps k = false ->
  obj_get (obj_insert_index ps i k v) k' = if String.eqb k k' then v else obj_get ps k'.
Proof.
  induction ps as [|[k0 v0] ps IH]; [reflexivity|].
  cbn [obj_has obj_insert_index]. destruct (String.eqb k0 k) eqn:E0; [discriminate|].
  cbn [orb]. intros H.
  destruct (array_index k0) as [j|]; [destruct (j <? i)%Z|]; try reflexivity.
  cbn [obj_get]. rewrite (IH H).
  destruct (String.eqb k0 k') eqn:E1; [|reflexivity].
  apply String.eqb_eq in E1 as ->. rewrite String.eqb_sym in E0. now rewrite E0.
Qed.

Lemma obj_get_append (ps : list (string * value)) (k k' : string) (v : value) :
  obj_has ps k = false ->
  obj_get (ps ++ [(k, v)]) k' = if String.eqb k k' then v else obj_get ps k'.
Proof.
  induction ps as [|[k0 v0] ps IH]; [reflexivity|].
  cbn [obj_has app obj_get]. destruct (String.eqb k0 k) eqn:E0; [discriminate|].
  cbn [orb]. intros H. rewrite (IH H).
  destruct (String.eqb k0 k') eqn:E1; [|reflexivity].
  apply String.eqb_eq in E1 as ->. rewrite String.eqb_sym in E0. now rewrite E0.
Qed.

(** Reading a property after [o[k] = v]. *)
Lemma obj_get_set (ps : list (string * value)) (k k' : string) (v : value) :
  obj_get (obj_set ps k v) k' = if String.eqb k k' then v else obj_get ps k'.
Proof.
  unfold obj_set. destruct (obj_has ps k) eqn:H; [now apply obj_get_replace|].
  destruct (array_index k); [now apply obj_get_insert_index|now apply obj_get_append].
Qed.

(** X16: the filters that are sent.  When [--labels] is given, every
    request of the smart-money handler carries filters in which
    [include_smart_money_labels] is the list of labels (a single label
    wrapped into a list), replacing a value the user gave under that name
    in [--filters], and in which every other filter is as the user gave
    it.  Likewise, with [--smart-money] every request of the token handler
    carries [only_smart_money: true] and every other filter unchanged. *)
Theorem derived_filters_sent (args : list string) (flags options : gmap string value)
    (ps : list (string * value)) (method : string) (params : value) :
  or_else (get options "filters") (VObj []) = VObj ps ->
  (truthy (get options "labels") = true ->
   result (smart_money args flags options) = Ok (Call method params) ->
   forall k,
     field (field params "filters") k
     = if String.eqb "include_smart_money_labels" k
       then (if Array_isArray (get options "labels") then get options "labels"
             else VArr [get options "labels"])
       else obj_get ps k)
  /\ (truthy (or_else (get options "smart-money") (get flags "smart-money")) = true ->
      result (token args flags options) = Ok (Call method params) ->
      forall k,
        field (field params "filters") k
        = if String.eqb "only_smart_money" k then VTrue else obj_get ps k).
Proof.
  intros Hf. split.
  - intros Hl H k. unfold smart_money in H.
    destruct (parseSort _ _) as [orderBy|e]; [|discriminate H].
    rewrite Hl, Hf in H. unfold write_filter in H. cbn [result] in H.
    injection H as H. handler_cases H; try discriminate H; injection H as <- <-;
      cbn [field get_opt get_prop obj obj_get String.eqb Ascii.eqb Bool.eqb andb];
      apply obj_get_set.
  - intros Hs H k. unfold token in H.
    destruct (parseSort _ _) as [orderBy|e]; [|discriminate H].
    assert (Hs' : truthy (or_else (or_else (get options "smart-money")
                                     (get flags "smart-money")) (VBool false)) = true).
    { unfold or_else at 1. now rewrite Hs. }
    rewrite Hs', Hf in H. unfold write_filter in H. cbn [result] in H.
    injection H as H. handler_cases H; try discriminate H; injection H as <- <-;
      cbn [field get_opt get_prop obj obj_get String.eqb Ascii.eqb Bool.eqb andb];
      apply obj_get_set.
Qed.

Lemma derived_filters_sent_witness :
  field (field (obj [("chains", VArr [VStr "solana"]);
                     ("filters", VObj [("min_usd", VInt 5);
                                       ("include_smart_money_labels", VArr [VStr "Fund"])]);
                     ("orderBy", VUndefined); ("pagination", VUndefined)]) "filters")
    "min_usd"
  = VInt 5.
Proof.
  exact (proj1 (derived_filters_sent ["netflow"] ∅
                  (<["filters" := VObj [("min_usd", VInt 5);
                                        ("include_smart_money_labels", VStr "x")]]>
                     (<["labels" := VStr "Fund"]> ∅))
                  [("min_usd", VInt 5); ("include_smart_money_labels", VStr "x")]
                  "smartMoneyNetflow"
                  (obj [("chains", VArr [VStr "solana"]);
                        ("filters", VObj [("min_usd", VInt 5);
                                          ("include_smart_money_labels", VArr [VStr "Fund"])]);
                        ("orderBy", VUndefined); ("pagination", VUndefined)])
                  eq_refl) eq_refl eq_refl "min_usd").
Defined.

(** ** [trim] *)

Lemma append_assoc (s t u : string) : (s +:+ t) +:+ u = s +:+ (t +:+ u).
Proof.
  induction s as [|c s IH]; [reflexivity|].
  change (String c ((s +:+ t) +:+ u) = String c (s +:+ (t +:+ u))). now rewrite IH.
Qed.

Lemma append_empty_r (s : string) : s +:+ EmptyString = s.
Proof.
  induction s as [|c s IH]; [reflexivity|].
  change (String c (s +:+ EmptyString) = String c s). now rewrite IH.
Qed.

(** A white space at the head of a string is skipped. *)
Lemma trimStart_white (w s : string) :
  In w white_space -> trimStart (w +:+ s) = trimStart s.
Proof.
  intros Hw. cbn in Hw.
  repeat (destruct Hw as [<-|Hw]; [reflexivity|]). contradiction.
Qed.

Lemma ws_head_white (w s : string) : In w white_space -> ws_head (w +:+ s) = true.
Proof.
  intros Hw. cbn in Hw.
  repeat (destruct Hw as [<-|Hw]; [reflexivity|]). contradiction.
Qed.

Lemma white_not_empty (w : string) : In w white_space -> w <> EmptyString.
Proof.
  intros Hw. cbn in Hw.
  repeat (destruct Hw as [<-|Hw]; [discriminate|]). contradiction.
Qed.

Lemma trimStart_blank_app (w s : string) : blank w -> trimStart (w +:+ s) = trimStart s.
Proof.
  induction 1 as [|w0 w Hw0 _ IH]; [reflexivity|].
  rewrite append_assoc, trimStart_white by exact Hw0. exact IH.
Qed.

Lemma trimStart_blank (s : string) : blank s -> trimStart s = EmptyString.
Proof.
  intros H. rewrite <- (append_empty_r s). now rewrite trimStart_blank_app.
Qed.

Lemma trimStart_cons (a : ascii) (s1 : string) :
  trimStart (String a s1)
  = if is_space a then trimStart s1
    else
      match s1 with
      | String b s2 =>
          if is_space2 a b then trimStart s2
          else
            match s2 with
            | String c s3 => if is_space3 a b c then trimStart s3 else String a s1
            | EmptyString => String a s1
            end
      | EmptyString => String a s1
      end.
Proof. destruct s1 as [|b [|c s3]]; reflexivity. Qed.

(** What [trimStart] leaves does not start with white space. *)
Lemma ws_head_trimStart (s : string) : ws_head (trimStart s) = false.
Proof.
  assert (H : forall n s, (String.length s <= n)%nat -> ws_head (trimStart s) = false).
  { clear s. induction n as [|n IH]; intros s Hn.
    - destruct s; [reflexivity|cbn in Hn; lia].
    - destruct s as [|a s1]; [reflexivity|].
      rewrite trimStart_cons. cbn [String.length] in Hn.
      destruct (is_space a) eqn:Ha; [apply IH; lia|].
      destruct s1 as [|b s2]; [cbn [ws_head]; now rewrite Ha|].
      cbn [String.length] in Hn.
      destruct (is_space2 a b) eqn:Hab; [apply IH; lia|].
      destruct s2 as [|c s3]; [cbn [ws_head]; now rewrite Ha, Hab|].
      cbn [String.length] in Hn.
      destruct (is_space3 a b c) eqn:Habc; [apply IH; lia|].
      cbn [ws_head]. now rewrite Ha, Hab, Habc. }
  exact (H _ s (le_n _)).
Qed.

(** A string that starts with white space keeps doing so when it is
    extended. *)
Lemma ws_head_app (p r : string) : ws_head p = true -> ws_head (p +:+ r) = true.
Proof.
  destruct p as [|a [|b [|c p]]]; [discriminate| | |].
  - change (String a EmptyString +:+ r) with (String a r). cbn [ws_head].
    rewrite !orb_false_r. intros ->. reflexivity.
  - change (String a (String b EmptyString) +:+ r) with (String a (String b r)).
    cbn [ws_head]. rewrite !orb_false_r.
    intros H. apply orb_true_iff in H as [->| ->]; [reflexivity|].
    destruct r; now rewrite ?orb_true_r.
  - intros H. exact H.
Qed.

(** [trimEnd] cuts a blank end off. *)
Lemma trimEnd_split (t : string) :
  exists r, t = trimEnd t +:+ r /\ trimStart r = EmptyString.
Proof.
  induction t as [|a t (r & E & Hr)]; [now exists EmptyString|].
  cbn [trimEnd]. destruct (is_empty (trimStart (String a t))) eqn:Hb.
  - exists (String a t). split; [reflexivity|].
    destruct (trimStart (String a t)); [reflexivity|discriminate].
  - exists r. split; [|exact Hr].
    change (String a t = String a (trimEnd t +:+ r)). now rewrite <- E.
Qed.

Lemma ws_head_trimEnd (t : string) : ws_head (trimEnd t) = true -> ws_head t = true.
Proof.
  intros H. destruct (trimEnd_split t) as (r & E & _). rewrite E. now apply ws_head_app.
Qed.

Lemma app_eq_cons (u w : string) (a : ascii) (t : string) :
  u +:+ w = String a t ->
  (u = EmptyString /\ w = String a t) \/ (exists u', u = String a u' /\ u' +:+ w = t).
Proof.
  destruct u as [|b u]; [now left|].
  intros [= -> <-]. right. now exists u.
Qed.

(** What [trimEnd] leaves has no blank end. *)
Lemma trimEnd_no_blank_end (t u w : string) :
  trimEnd t = u +:+ w -> blank w -> w = EmptyString.
Proof.
  revert u. induction t as [|a t IH]; intros u E Hw.
  - cbn in E. destruct u; [now cbn in E|discriminate].
  - cbn [trimEnd] in E. destruct (is_empty (trimStart (String a t))) eqn:Hb.
    + destruct u; [now cbn in E|discriminate].
    + symmetry in E. apply app_eq_cons in E as [[-> ->]|(u' & -> & E)].
      * exfalso. destruct (trimEnd_split t) as (r & Et & Hr).
        assert (Ht : trimStart (String a t) = EmptyString).
        { rewrite Et. change (String a (trimEnd t +:+ r)) with (String a (trimEnd t) +:+ r).
          now rewrite trimStart_blank_app. }
        now rewrite Ht in Hb.
      * now apply (IH u').
Qed.

(** A trimmed string has no white space at either end. *)
Lemma trim_ends (s : string) :
  (forall w u, trim s = w +:+ u -> blank w -> w = EmptyString)
  /\ (forall u w, trim s = u +:+ w -> blank w -> w = EmptyString).
Proof.
  split.
  - intros w u E Hw. destruct Hw as [|w0 w Hw0 Hw]; [reflexivity|]. exfalso.
    assert (H : ws_head (trim s) = true) by (rewrite E, append_assoc; now apply ws_head_white).
    apply ws_head_trimEnd in H. now rewrite ws_head_trimStart in H.
  - intros u w E Hw. exact (trimEnd_no_blank_end _ _ _ E Hw).
Qed.

Lemma trim_blank (s : string) : blank s -> trim s = EmptyString.
Proof. intros H. unfold trim. now rewrite trimStart_blank. Qed.

(** ** [login] *)

(** X17: no key.  When the prompt resolves to a falsy value ([undefined],
    [null], the empty string) or to a string of white space only (the
    white space and the line terminators of the language, inside and
    outside ASCII), [login] logs that no key was provided and calls
    [exit(1)]: it constructs no client, probes nothing and saves
    nothing. *)
Theorem login_blank_key (deps : Deps) (answer : value) :
  promptFn deps "Enter your API key: " true = Ok answer ->
  truthy answer = false \/ (exists s, answer = VStr s /\ blank s) ->
  login deps
  = ([Log ("Nansen CLI Login" +:+ newline);
      Log ("Get your API key at: https://app.nansen.ai/api" +:+ newline);
      Ask "Enter your API key: " true;
      Log (newline +:+ "❌ No API key provided");
      Exit 1], Ok tt).
Proof.
  intros Hp H. unfold login. rewrite Hp.
  destruct H as [->|(s & -> & Hs)]; [reflexivity|].
  destruct (negb (truthy (VStr s))); [reflexivity|].
  now rewrite (trim_blank s Hs).
Qed.

(** A no-break space between two spaces. *)
Lemma login_blank_key_witness :
  login (Build_Deps (fun _ => Throw (TypeError "no client"))
           (fun _ _ => Ok (VStr (" " +:+ utf8 160 +:+ " ")))
           (fun _ => Throw (TypeError "no save"))
           (Ok VTrue) (Ok (VStr "~/.nansen/config.json")))
  = ([Log ("Nansen CLI Login" +:+ newline);
      Log ("Get your API key at: https://app.nansen.ai/api" +:+ newline);
      Ask "Enter your API key: " true;
      Log (newline +:+ "❌ No API key provided");
      Exit 1], Ok tt).
Proof.
  apply (login_blank_key _ (VStr (" " +:+ utf8 160 +:+ " "))); [reflexivity|].
  right. eexists. split; [reflexivity|].
  apply (blank_more " "); [vm_compute; tauto|].
  apply (blank_more (utf8 160)); [vm_compute; tauto|].
  apply (blank_more " " EmptyString); [vm_compute; tauto|].
  apply blank_empty.
Defined.

(** X18: what is saved.  [login] calls [saveConfigFn] only with the
    trimmed answer of the prompt as [apiKey] and the fixed [baseUrl], only
    when that key is not empty, and only after a client constructed with
    that key has answered the probe request [tokenScreener]; the key that
    is saved neither starts nor ends with white space. *)
Theorem login_saves_validated_key (deps : Deps) (config : value) :
  In (SaveConfig config) (fst (login deps)) ->
  exists s api v,
    promptFn deps "Enter your API key: " true = Ok (VStr s)
    /\ trim s <> EmptyString
    /\ (forall w u, trim s = w +:+ u -> blank w -> w = EmptyString)
    /\ (forall u w, trim s = u +:+ w -> blank w -> w = EmptyString)
    /\ NansenAPIClass deps [VStr (trim s)] = Ok api
    /\ api "tokenScreener" probe_params = Ok v
    /\ config = obj [("apiKey", VStr (trim s));
                     ("baseUrl", VStr "https://api.nansen.ai")].
Proof.
  unfold login.
  destruct (promptFn deps _ _) as [answer|e] eqn:Hprompt;
    [|cbn; intuition discriminate].
  destruct (negb (truthy answer)); [cbn; intuition discriminate|].
  destruct answer as [| | | |s| |]; try (cbn; intuition discriminate).
  destruct (str_length (trim s) =? 0)%nat eqn:Hempty; [cbn; intuition discriminate|].
  unfold validate.
  destruct (NansenAPIClass deps [VStr (trim s)]) as [api|e] eqn:Hnew;
    [|cbn; intuition discriminate].
  destruct (api "tokenScreener" probe_params) as [v|e] eqn:Hprobe;
    [|cbn; intuition discriminate].
  intros Hin.
  assert (Hc : config = config_of (trim s)).
  { destruct (saveConfigFn deps _) as [u|e];
      [destruct (getConfigFileFn deps) as [path|e]|];
      cbn in Hin; intuition congruence. }
  exists s, api, v. destruct (trim_ends s) as [Hstart Hend].
  repeat split; try assumption; try reflexivity.
  intros E. rewrite E in Hempty. discriminate.
Qed.

Lemma login_saves_validated_key_witness :
  exists s api v,
    Ok (VStr (utf8 65279 +:+ "key-1 ")) = Ok (VStr s)
    /\ trim s <> EmptyString
    /\ (forall w u, trim s = w +:+ u -> blank w -> w = EmptyString)
    /\ (forall u w, trim s = u +:+ w -> blank w -> w = EmptyString)
    /\ Ok (fun (_ : string) (_ : value) => Ok VNull) = Ok api
    /\ api "tokenScreener" probe_params = @Ok value v
    /\ config_of "key-1"
       = obj [("apiKey", VStr (trim s)); ("baseUrl", VStr "https://api.nansen.ai")].
Proof.
  apply (login_saves_validated_key
           (Build_Deps (fun _ => Ok (fun _ _ => Ok VNull))
              (fun _ _ => Ok (VStr (utf8 65279 +:+ "key-1 ")))
              (fun _ => Ok tt) (Ok VTrue) (Ok (VStr "config.json")))
           (config_of "key-1")).
  vm_compute. repeat (first [left; reflexivity | right]).
Defined.

(** X19: how [login] ends for a key that is not blank.  It never throws.
    Either all four steps go through (the client is constructed, the
    probe is answered, the configuration is saved, the path of the file is
    read) and [exit] is not called; or the first step that throws is
    reported as [Invalid API key: <message>] followed by [exit(1)],
    whichever step it was: an error of [saveConfigFn] is reported as an
    invalid key, and when [getConfigFileFn] throws the same is reported
    although the configuration has been saved. *)
Theorem login_ends (deps : Deps) (s : string) :
  promptFn deps "Enter your API key: " true = Ok (VStr s) ->
  str_length (trim s) <> 0%nat ->
  let calls := fst (validate deps (trim s)) in
  let before := login_intro ++ Log (newline +:+ "Validating API key...") :: calls in
  (login deps = (before, Ok tt)
   /\ snd (validate deps (trim s)) = Ok tt
   /\ (forall code, ~ In (Exit code) before)
   /\ In (SaveConfig (config_of (trim s))) before)
  \/ (exists e,
        snd (validate deps (trim s)) = Throw e
        /\ login deps
           = (before ++ [Log (newline +:+ "❌ Invalid API key: " +:+ ToString (message e));
                         Exit 1], Ok tt)
        /\ (forall code, ~ In (Exit code) before)
        /\ (forall api v,
              NansenAPIClass deps [VStr (trim s)] = Ok api ->
              api "tokenScreener" probe_params = Ok v ->
              In (SaveConfig (config_of (trim s))) before
              /\ (saveConfigFn deps (config_of (trim s)) = Throw e
                  \/ getConfigFileFn deps = Throw e))).
Proof.
  intros Hp Hne calls before. subst before calls.
  unfold login. rewrite Hp. cbn [truthy].
  assert (Hs : is_empty s = false).
  { destruct s; [|reflexivity]. now contradict Hne. }
  rewrite Hs. cbn [negb].
  apply Nat.eqb_neq in Hne. rewrite Hne. unfold validate.
  destruct (NansenAPIClass deps [VStr (trim s)]) as [api|e] eqn:Hnew.
  - destruct (api "tokenScreener" probe_params) as [v|e] eqn:Hprobe.
    + destruct (saveConfigFn deps _) as [[]|e] eqn:Hsave.
      * destruct (getConfigFileFn deps) as [path|e] eqn:Hpath.
        -- left. cbn [fst snd]. repeat split.
           ++ intros code Hin. cbn in Hin. intuition discriminate.
           ++ cbn. tauto.
        -- right. exists e. cbn [fst snd]. repeat split.
           ++ intros code Hin. cbn in Hin. intuition discriminate.
           ++ cbn. tauto.
           ++ now right.
      * right. exists e. cbn [fst snd]. repeat split.
        -- intros code Hin. cbn in Hin. intuition discriminate.
        -- cbn. tauto.
        -- now left.
    + right. exists e. cbn [fst snd]. repeat split;
        try (match goal with H : Ok _ = Ok _ |- _ => injection H as <-; congruence end).
      intros code Hin. cbn in Hin. intuition discriminate.
  - right. exists e. cbn [fst snd]. repeat split;
      try (match goal with H : Throw _ = Ok _ |- _ => discriminate H end).
    intros code Hin. cbn in Hin. intuition discriminate.
Qed.

Lemma login_ends_witness :
  exists e,
    login (Build_Deps (fun _ => Ok (fun _ _ => Ok VNull))
             (fun _ _ => Ok (VStr " key-1 "))
             (fun _ => Ok tt) (Ok VTrue) (Throw (TypeError "no home directory")))
    = ((login_intro
        ++ Log (newline +:+ "Validating API key...")
           :: [NewWithKey "key-1"; Request "tokenScreener" probe_params;
               SaveConfig (config_of "key-1"); Log "✓ API key validated";
               GetConfigFile])
       ++ [Log (newline +:+ "❌ Invalid API key: " +:+ ToString (message e));
           Exit 1], Ok tt).
Proof.
  destruct (login_ends (Build_Deps (fun _ => Ok (fun _ _ => Ok VNull))
                          (fun _ _ => Ok (VStr " key-1 "))
                          (fun _ => Ok tt) (Ok VTrue) (Throw (TypeError "no home directory")))
              " key-1 " eq_refl ltac:(vm_compute; discriminate))
    as [(_ & H & _)|(e & _ & H & _)].
  - vm_compute in H. discriminate H.
  - exists e. exact H.
Defined.

(** ** The commands without a client *)

Lemma commands_no_auth (command : string) :
  commands command = Some NoAuthCommand ->
  command = "login" \/ command = "logout" \/ command = "help".
Proof.
  unfold commands.
  destruct (String.eqb command "login") eqn:E1; [apply String.eqb_eq in E1; tauto|].
  destruct (String.eqb command "logout") eqn:E2; [apply String.eqb_eq in E2; tauto|].
  destruct (String.eqb command "help") eqn:E3; [apply String.eqb_eq in E3; tauto|].
  cbn [orb].
  repeat match goal with
    | |- context [String.eqb command ?s] => destruct (String.eqb command s)
    end; discriminate.
Qed.

Lemma validate_events (deps : Deps) (key : string) :
  Forall (fun ev => router_event ev = false) (fst (validate deps key)).
Proof.
  unfold validate.
  repeat match goal with
    | |- context [match ?x with _ => _ end] => destruct x
    end;
    cbn [fst]; repeat constructor.
Qed.

Lemma login_events (deps : Deps) :
  Forall (fun ev => router_event ev = false) (fst (login deps)).
Proof.
  assert (Hintro : Forall (fun ev => router_event ev = false) login_intro)
    by (repeat constructor).
  assert (Hno : Forall (fun ev => router_event ev = false) (login_intro ++ no_key))
    by (repeat constructor).
  unfold login.
  destruct (promptFn deps _ _) as [answer|e]; [|exact Hintro].
  destruct (negb (truthy answer)); [exact Hno|].
  destruct answer as [| | | |s| |]; try exact Hintro.
  destruct (str_length (trim s) =? 0)%nat; [exact Hno|].
  pose proof (validate_events deps (trim s)) as Hv.
  destruct (validate deps (trim s)) as [calls [u|e]]; cbn [fst] in *.
  - apply Forall_app. split; [exact Hintro|]. now constructor.
  - apply Forall_app. split; [exact Hintro|]. constructor; [reflexivity|].
    apply Forall_app. split; [exact Hv|]. repeat constructor.
Qed.

Lemma logout_events (deps : Deps) :
  Forall (fun ev => router_event ev = false) (fst (logout deps)).
Proof.
  unfold logout.
  repeat match goal with
    | |- context [match ?x with _ => _ end] => destruct x
    end;
    cbn [fst]; repeat constructor.
Qed.

(** X20: the commands that need no client.  [runCLI] hands a command over
    to a handler without constructing a client only for [login] and
    [logout]: the [help] entry of the command table is never reached
    through [runCLI], which answers [help] itself.  The handler receives
    the positional arguments after the command.  What happens then is
    what the handler does: the router constructs no client and prints
    nothing, [runCLI] returns [{type: 'no-auth', command}] when the
    handler returns, and throws what the handler throws. *)
Theorem runCLI_no_auth (localeCompare : string -> string -> Z) (deps : Deps)
    (rawArgs : list string) (command : string) (args : list string) :
  In (NoAuth command args) (fst (runCLI localeCompare deps rawArgs)) ->
  let handler := if String.eqb command "login" then login deps else logout deps in
  (command = "login" \/ command = "logout")
  /\ command = subcommand_of (positional (parseArgs rawArgs))
  /\ args = tail (positional (parseArgs rawArgs))
  /\ fst (runCLI localeCompare deps rawArgs) = NoAuth command args :: fst handler
  /\ snd (runCLI localeCompare deps rawArgs)
     = match snd handler with
       | Ok _ => Ok (obj [("type", VStr "no-auth"); ("command", VStr command)])
       | Throw e => Throw e
       end
  /\ Forall (fun ev => router_event ev = false) (fst handler).
Proof.
  unfold runCLI.
  destruct (String.eqb (subcommand_of (positional (parseArgs rawArgs))) "help") eqn:Hhelp.
  { cbn. intuition discriminate. }
  destruct (truthy (get (flags (parseArgs rawArgs)) "help"
                    )); [cbn; intuition discriminate|].
  destruct (truthy (get (flags (parseArgs rawArgs)) "h")); [cbn; intuition discriminate|].
  cbn [orb].
  destruct (commands (subcommand_of (positional (parseArgs rawArgs))))
    as [[|handler]|] eqn:Hcmd.
  - set (cmd := subcommand_of (positional (parseArgs rawArgs))) in *.
    assert (Hno : no_auth deps cmd
                  = if String.eqb cmd "login" then login deps else logout deps).
    { unfold no_auth. destruct (String.eqb cmd "login") eqn:E1; [reflexivity|].
      destruct (String.eqb cmd "logout") eqn:E2; [reflexivity|]. exfalso.
      apply String.eqb_neq in Hhelp, E1, E2.
      destruct (commands_no_auth _ Hcmd) as [H|[H|H]]; contradiction. }
    assert (Hev : Forall (fun ev => router_event ev = false) (fst (no_auth deps cmd))).
    { rewrite Hno. destruct (String.eqb cmd "login");
        [apply login_events|apply logout_events]. }
    assert (Hhead : In (NoAuth command args)
                      (NoAuth cmd (tail (positional (parseArgs rawArgs)))
                       :: fst (no_auth deps cmd)) ->
                    command = cmd /\ args = tail (positional (parseArgs rawArgs))).
    { intros [[= <- <-]|Hin]; [now split|].
      rewrite Forall_forall in Hev. apply list_elem_of_In in Hin.
      specialize (Hev _ Hin). discriminate Hev. }
    intros Hin.
    assert (Hin' : command = cmd /\ args = tail (positional (parseArgs rawArgs))).
    { apply Hhead. destruct (no_auth deps cmd) as [evs [u|e]]; exact Hin. }
    destruct Hin' as [-> ->]. rewrite <- Hno.
    apply String.eqb_neq in Hhelp.
    split; [destruct (commands_no_auth _ Hcmd) as [H|[H|H]]; tauto|].
    split; [reflexivity|]. split; [reflexivity|].
    destruct (no_auth deps cmd) as [evs [u|e]]; cbn [fst snd] in *;
      (split; [reflexivity|split; [reflexivity|exact Hev]]).
  - unfold try_block.
    destruct (NansenAPIClass deps _) as [api|e].
    + destruct (result (handler _ _ _)) as [[v|method params]|e].
      * destruct (formatOutput localeCompare (obj [("success", VTrue); ("data", v)]) _ _);
          [cbn; intuition discriminate|].
        destruct (formatOutput _ _ _ _); cbn; intuition discriminate.
      * destruct (api method params) as [v|e].
        -- destruct (formatOutput localeCompare (obj [("success", VTrue); ("data", v)]) _ _);
             [cbn; intuition discriminate|].
           destruct (formatOutput _ _ _ _); cbn; intuition discriminate.
        -- destruct (formatOutput _ _ _ _); cbn; intuition discriminate.
      * destruct (formatOutput _ _ _ _); cbn; intuition discriminate.
    + destruct (formatOutput _ _ _ _); cbn; intuition discriminate.
  - destruct (formatOutput _ _ _ _); cbn; intuition discriminate.
Qed.

(** [logout now --pretty] when a credential file is there: it is deleted,
    and its path is logged. *)
Lemma runCLI_no_auth_witness :
  ("logout" = "login" \/ "logout" = "logout")
  /\ fst (runCLI (fun _ _ => 0%Z)
            (Build_Deps (fun _ => Throw (TypeError "no client"))
               (fun _ _ => Ok VUndefined) (fun _ => Ok tt)
               (Ok VTrue) (Ok (VStr "/home/user/.nansen/config.json")))
            ["logout"; "now"; "--pretty"])
     = [NoAuth "logout" ["now"]; DeleteConfig; GetConfigFile;
        Log "✓ Removed /home/user/.nansen/config.json"]
  /\ snd (runCLI (fun _ _ => 0%Z)
            (Build_Deps (fun _ => Throw (TypeError "no client"))
               (fun _ _ => Ok VUndefined) (fun _ => Ok tt)
               (Ok VTrue) (Ok (VStr "/home/user/.nansen/config.json")))
            ["logout"; "now"; "--pretty"])
     = Ok (obj [("type", VStr "no-auth"); ("command", VStr "logout")]).
Proof.
  destruct (runCLI_no_auth (fun _ _ => 0%Z)
              (Build_Deps (fun _ => Throw (TypeError "no client"))
                 (fun _ _ => Ok VUndefined) (fun _ => Ok tt)
                 (Ok VTrue) (Ok (VStr "/home/user/.nansen/config.json")))
              ["logout"; "now"; "--pretty"] "logout" ["now"])
    as (H1 & _ & _ & H4 & H5 & _).
  - vm_compute. left. reflexivity.
  - split; [exact H1|]. split; [exact H4|exact H5].
Defined.

(** ** The hidden prompt *)

Lemma join_empty_cons (k : string) (ks : list string) :
  join EmptyString (k :: ks) = k +:+ join EmptyString ks.
Proof.
  destruct ks as [|k' ks]; [symmetry; apply append_empty_r|reflexivity].
Qed.

Lemma written_app (a b : list tty_effect) : written (a ++ b) = written a ++ written b.
Proof.
  induction a as [|x a IH]; [reflexivity|].
  destruct x; cbn [app written]; rewrite IH; reflexivity.
Qed.

Lemma onData_plain (char input : string) :
  plain char = true -> onData char input = (input +:+ char, [Write "*"], Listening).
Proof.
  unfold plain, onData. intros H. apply negb_true_iff in H.
  apply orb_false_elim in H as [H He]. apply orb_false_elim in H as [H Hd].
  apply orb_false_elim in H as [H Hc]. apply orb_false_elim in H as [Ha Hb].
  now rewrite Ha, Hb, Hc, Hd, He.
Qed.

Lemma onData_enter (enter input : string) :
  enter = line_feed \/ enter = carriage_return ->
  onData enter input = (input, on_enter, Resolved input).
Proof. now intros [-> | ->]. Qed.

Lemma onData_erase (char input : string) :
  char = delete_key \/ char = backspace ->
  onData char input
  = if (0 <? str_length input)%nat then (slice_last input, [Write erase], Listening)
    else (input, [], Listening).
Proof. now intros [-> | ->]. Qed.

(** Text chunks are appended to the input, one star each. *)
Lemma feed_plain (keys : list string) :
  Forall (fun c => plain c = true) keys ->
  forall (rest : list string) (input : string),
    feed (keys ++ rest) input
    = (map (fun _ => Write "*") keys ++ fst (feed rest (input +:+ join EmptyString keys)),
       snd (feed rest (input +:+ join EmptyString keys))).
Proof.
  induction 1 as [|k keys Hk _ IH]; intros rest input.
  - cbn [app map join String.concat]. rewrite append_empty_r. now destruct (feed rest input).
  - cbn [app feed map]. rewrite (onData_plain k input Hk), IH.
    rewrite join_empty_cons, append_assoc. reflexivity.
Qed.

(** Each erasure takes the last code unit away, as long as there is
    one. *)
Lemma feed_erase (erasures : list string) :
  Forall (fun c => c = delete_key \/ c = backspace) erasures ->
  forall (rest : list string) (input : string),
    let input' := slice_to (str_length input - length erasures) input in
    feed (erasures ++ rest) input
    = (replicate (Nat.min (length erasures) (str_length input)) (Write erase)
       ++ fst (feed rest input'),
       snd (feed rest input')).
Proof.
  induction 1 as [|k erasures Hk _ IH]; intros rest input; cbv zeta.
  - cbn [app length]. rewrite Nat.sub_0_r, slice_to_all by lia.
    cbn [Nat.min replicate app]. now destruct (feed rest input).
  - cbn [app feed length]. rewrite (onData_erase k input Hk).
    destruct (0 <? str_length input)%nat eqn:Hlen.
    + apply Nat.ltb_lt in Hlen. rewrite IH. cbv zeta.
      unfold slice_last. rewrite str_length_slice_to, slice_to_slice_to.
      replace (Nat.min (str_length input - 1) (str_length input))
        with (str_length input - 1)%nat by lia.
      replace (Nat.min (str_length input - 1 - length erasures) (str_length input - 1))
        with (str_length input - S (length erasures))%nat by lia.
      replace (Nat.min (S (length erasures)) (str_length input))
        with (S (Nat.min (length erasures) (str_length input - 1))) by lia.
      reflexivity.
    + apply Nat.ltb_ge in Hlen. rewrite IH. cbv zeta.
      assert (E : str_length input = 0%nat) by lia. rewrite E.
      cbn [Nat.sub]. rewrite !Nat.min_0_r. cbn [replicate app]. reflexivity.
Qed.

Lemma feed_written (chunks : list string) :
  forall (input s : string),
    In s (written (fst (feed chunks input))) -> s = "*" \/ s = erase \/ s = line_feed.
Proof.
  induction chunks as [|char chunks IH]; intros input s; [intros []|].
  cbn [feed]. unfold onData.
  destruct (String.eqb char line_feed || String.eqb char carriage_return).
  { cbn. intuition. }
  destruct (String.eqb char ctrl_c); [cbn; intuition|].
  destruct (String.eqb char delete_key || String.eqb char backspace).
  - destruct (0 <? str_length input)%nat.
    + destruct (feed chunks (slice_last input)) as [effects st] eqn:E.
      cbn [fst app written In]. intros [<-|H]; [tauto|].
      apply (IH (slice_last input)). now rewrite E.
    + destruct (feed chunks input) as [effects st] eqn:E.
      cbn [fst app]. intros H. apply (IH input). now rewrite E.
  - destruct (feed chunks (input +:+ char)) as [effects st] eqn:E.
    cbn [fst app written In]. intros [<-|H]; [tauto|].
    apply (IH (input +:+ char)). now rewrite E.
Qed.

(** X21: the code of the hidden prompt passes no key to the standard
    output.  Whatever chunks its ['data'] listener receives, the texts
    that the code of [prompt] itself hands to [process.stdout.write] are
    the question, a star, the erase sequence backspace-space-backspace
    and the final line feed.  The readline interface that [prompt]
    creates first, on the same input and output, writes on its own; what
    it writes is not a call of this code and is not covered. *)
Theorem prompt_masks (question : string) (chunks : list string) (s : string) :
  In s (written (fst (prompt_hidden question chunks))) ->
  s = question \/ s = "*" \/ s = erase \/ s = line_feed.
Proof.
  unfold prompt_hidden. destruct (feed chunks EmptyString) as [effects st] eqn:E.
  cbn [fst written In]. intros [<-|H]; [now left|]. right.
  apply (feed_written chunks EmptyString). now rewrite E.
Qed.

Lemma prompt_masks_witness :
  In "*" (written (fst (prompt_hidden "Enter your API key: " ["k"; "e"; "y"; line_feed])))
  /\ ("*" = "Enter your API key: " \/ "*" = "*" \/ "*" = erase \/ "*" = line_feed).
Proof.
  assert (H : In "*" (written (fst (prompt_hidden "Enter your API key: "
                                      ["k"; "e"; "y"; line_feed]))))
    by (vm_compute; tauto).
  split; [exact H|]. exact (prompt_masks _ _ _ H).
Defined.

Lemma plain_iff (chunk : string) :
  plain chunk = false
  <-> In chunk [line_feed; carriage_return; ctrl_c; delete_key; backspace].
Proof.
  unfold plain. rewrite negb_false_iff, !orb_true_iff, !String.eqb_eq.
  cbn [In]. intuition congruence.
Qed.

(** X22: the hidden prompt resolves to what its listener received.  When
    the chunks that the ['data'] listener receives before the first line
    end (a chunk that is a line feed or a carriage return on its own) are
    text, the promise resolves to their concatenation.  The calls that
    the code of [prompt] makes are then: it creates the readline
    interface, writes the question, enters raw mode, resumes the input
    and sets its encoding; it writes one star for each chunk, whatever
    its length; at the line end it leaves raw mode, pauses the input,
    removes the listener, writes a line feed and closes the interface.
    The chunks after the line end are not read.  A chunk is text unless
    it is one of five single characters: a chunk of several characters is
    text even if it holds a line end, as a pasted key does. *)
Theorem prompt_returns_typed (question : string) (keys more : list string) (enter : string) :
  Forall (fun c => plain c = true) keys ->
  enter = line_feed \/ enter = carriage_return ->
  prompt question true true (keys ++ enter :: more) None
  = (CreateInterface :: Write question :: SetRawMode true :: Resume :: SetEncoding "utf8"
       :: map (fun _ => Write "*") keys
       ++ [SetRawMode false; Pause; RemoveListener; Write line_feed; Close],
     Resolved (join EmptyString keys))
  /\ forall chunk,
       plain chunk = false
       <-> In chunk [line_feed; carriage_return; ctrl_c; delete_key; backspace].
Proof.
  intros Hkeys Henter. split; [|exact plain_iff].
  unfold prompt, prompt_hidden. cbn [andb]. rewrite (feed_plain keys Hkeys). cbn [feed].
  rewrite (onData_enter enter _ Henter). reflexivity.
Qed.

Lemma prompt_returns_typed_witness :
  prompt "Enter your API key: " true true
    (["k"; "ey" +:+ line_feed] ++ carriage_return :: ["x"]) None
  = (CreateInterface :: Write "Enter your API key: " :: SetRawMode true :: Resume
       :: SetEncoding "utf8"
       :: map (fun _ => Write "*") ["k"; "ey" +:+ line_feed]
       ++ [SetRawMode false; Pause; RemoveListener; Write line_feed; Close],
     Resolved (join EmptyString ["k"; "ey" +:+ line_feed])).
Proof.
  apply (prompt_returns_typed "Enter your API key: " ["k"; "ey" +:+ line_feed] ["x"]
           carriage_return).
  - repeat constructor.
  - now right.
Defined.

(** X23: erasing.  After chunks of text, each delete or backspace key
    that the listener receives takes the last UTF-16 code unit of the
    input away and makes the code of [prompt] write the erase sequence,
    as long as a code unit is left; on an empty input it does nothing.
    With [k] such keys before the line end the promise resolves to the
    text received without its last [k] code units, and the texts that the
    code of [prompt] writes are the question, one star for each chunk,
    one erase sequence for each code unit taken away, and the line
    feed. *)
Theorem prompt_erases (question : string) (keys erasures more : list string)
    (enter : string) :
  Forall (fun c => plain c = true) keys ->
  Forall (fun c => c = delete_key \/ c = backspace) erasures ->
  enter = line_feed \/ enter = carriage_return ->
  let typed := join EmptyString keys in
  let n := str_length typed in
  let k := length erasures in
  snd (prompt_hidden question (keys ++ erasures ++ enter :: more))
  = Resolved (slice_to (n - k) typed)
  /\ written (fst (prompt_hidden question (keys ++ erasures ++ enter :: more)))
     = question :: replicate (length keys) "*" ++ replicate (Nat.min k n) erase
       ++ [line_feed].
Proof.
  intros Hplain Herase Henter typed n k.
  unfold prompt_hidden. rewrite (feed_plain _ Hplain).
  change (EmptyString +:+ join EmptyString keys) with typed.
  rewrite (feed_erase _ Herase). cbv zeta. cbn [feed fst snd].
  rewrite (onData_enter enter _ Henter). cbn [fst snd]. split; [reflexivity|].
  cbn [written]. rewrite !written_app. f_equal.
  assert (Hstars : forall l : list string,
             written (map (fun _ => Write "*") l) = replicate (length l) "*").
  { induction l as [|x l IHl]; [reflexivity|]. cbn. now rewrite IHl. }
  assert (Herases : forall m, written (replicate m (Write erase)) = replicate m erase).
  { induction m as [|m IHm]; [reflexivity|]. cbn. now rewrite IHm. }
  rewrite Hstars, Herases. reflexivity.
Qed.

(** The letter outside ASCII that ends the text received is taken away
    whole. *)
Lemma prompt_erases_witness :
  snd (prompt_hidden "Enter your API key: "
         (["k"; "e"; utf8 233] ++ [delete_key] ++ line_feed :: []))
  = Resolved "ke".
Proof.
  exact (proj1 (prompt_erases "Enter your API key: " ["k"; "e"; utf8 233] [delete_key] []
                  line_feed ltac:(repeat constructor)
                  ltac:(repeat constructor; now left) ltac:(now left))).
Defined.
